(** * Breeze EntityManager: a shallow embedding of [a50_entityManager.js]

    The JavaScript heap is modelled explicitly: entities are objects with an
    identity ([Ref]), kept in a store, so that "the same reference" and
    aliasing between an EntityGroup, a caller's array and a navigation are
    what they are in the source.  A method of the manager is a function in a
    state-and-exception monad over [World]; a JavaScript [throw] keeps the
    mutations made before it.

    EntityAspect, EntityGroup, EntityType, DataType, KeyGenerator and the
    validation, query and transport layers live in other files of the
    library.  What the manager needs from them is either modelled from the
    specification (every such definition says so) or taken as a field of
    [Collaborators]. *)

From stdpp Require Import gmap strings list fin_maps.

Open Scope string_scope.

(** ** Enumerations *)

Inductive EntityState := Detached | Added | Unchanged | Modified | Deleted.
Inductive MergeStrategy := Disallowed | OverwriteChanges | PreserveChanges | SkipMerge.
Inductive FetchStrategy := FromServer | FromLocalCache.
Inductive AutoGeneratedKeyType := KeyType_None | KeyType_Identity | KeyType_KeyGenerator.
Inductive EntityAction :=
  | Attach | AttachOnImport | MergeOnImport | Detach | EntityStateChange
  | Clear | AcceptChanges | RejectChanges.

Global Instance EntityState_eq_dec : EqDecision EntityState.
Proof. solve_decision. Defined.
Global Instance MergeStrategy_eq_dec : EqDecision MergeStrategy.
Proof. solve_decision. Defined.
Global Instance AutoGeneratedKeyType_eq_dec : EqDecision AutoGeneratedKeyType.
Proof. solve_decision. Defined.

Definition isAdded (s : EntityState) : bool := bool_decide (s = Added).
Definition isUnchanged (s : EntityState) : bool := bool_decide (s = Unchanged).
Definition isModified (s : EntityState) : bool := bool_decide (s = Modified).
Definition isDeleted (s : EntityState) : bool := bool_decide (s = Deleted).
Definition isDetached (s : EntityState) : bool := bool_decide (s = Detached).

(** "A 'changed' Entity has an EntityState of either Added, Modified or
    Deleted." *)
Definition isAddedModifiedOrDeleted (s : EntityState) : bool :=
  isAdded s || isModified s || isDeleted s.

(** ** JavaScript values held by data properties

    A number is given by its value, an integer: the numbers that keys,
    foreign keys and row versions hold.  Fractions, [NaN] and the infinities
    are not among the values modelled. *)

Inductive Value :=
  | VUndefined
  | VNull
  | VNum (n : Z)
  | VStr (s : string)
  | VBool (b : bool)
  | VDate (ms : Z).

Global Instance Value_eq_dec : EqDecision Value.
Proof. solve_decision. Defined.

Global Instance Value_countable : Countable Value.
Proof.
  refine (inj_countable'
    (λ v, match v with
          | VUndefined => inl false
          | VNull => inl true
          | VNum n => inr (inl n)
          | VStr s => inr (inr (inl s))
          | VBool b => inr (inr (inr (inl b)))
          | VDate d => inr (inr (inr (inr d)))
          end)
    (λ x, match x with
          | inl false => VUndefined
          | inl true => VNull
          | inr (inl n) => VNum n
          | inr (inr (inl s)) => VStr s
          | inr (inr (inr (inl b))) => VBool b
          | inr (inr (inr (inr d))) => VDate d
          end) _).
  by intros [].
Defined.

(** JavaScript truthiness, as used by [if (x)] and [!x]. *)
Definition truthy (v : Value) : bool :=
  match v with
  | VUndefined | VNull => false
  | VNum n => negb (n =? 0)%Z
  | VStr s => negb (bool_decide (s = ""))
  | VBool b => b
  | VDate _ => true
  end.

(** [obj[name]]: a property that is absent reads as [undefined]. *)
Definition read (obj : gmap string Value) (name : string) : Value :=
  default VUndefined (obj !! name).

(** ** Metadata *)

(** [DataType.Guid] and [DataType.Binary] are compared by identity in the
    source; every other data type is seen only through its [isNumeric] and
    [isDate] flags and its [defaultValue]. *)
Inductive DataTypeId := Guid | Binary | OtherType (name : string).

Global Instance DataTypeId_eq_dec : EqDecision DataTypeId.
Proof. solve_decision. Defined.

Record DataType := {
  dt_id : DataTypeId;
  isNumeric : bool;
  isDate : bool;
  dt_defaultValue : Value
}.

Record DataProperty := {
  dp_name : string;
  dataType : DataType;
  defaultValue : Value
}.

(** A navigation property as the import needs it: its name, the name of the
    type it leads to ([np.entityType]) and the names of its foreign-key data
    properties ([np.relatedDataProperties]). *)
Record NavigationProperty := {
  np_name : string;
  np_entityType : string;
  relatedDataProperties : list string
}.

#[warnings="-register-all"]
Inductive EntityType := mkEntityType {
  et_name : string;
  et_metadataStore : nat;
  keyProperties : list DataProperty;
  concurrencyProperties : list DataProperty;
  navigationProperties : list NavigationProperty;
  autoGeneratedKeyType : AutoGeneratedKeyType;
  subtypes : list EntityType
}.

(** Modelled from the spec: EntityType.getSelfAndSubtypes is not in this
    file; "given a target type, expands to the type plus all subtypes". *)
Fixpoint getSelfAndSubtypes (et : EntityType) : list EntityType :=
  et :: (fix each (l : list EntityType) : list EntityType :=
           match l with
           | [] => []
           | st :: l' => (getSelfAndSubtypes st ++ each l')%list
           end) (subtypes et).

Record MetadataStore := {
  ms_id : nat;
  ms_types : gmap string EntityType
}.

(** ** Entities and their aspects *)

Definition Ref := nat.
Definition ManagerId := nat.

Record ValidationError := {
  ve_key : string;
  isServerError : bool
}.

Record EntityAspect := {
  entityState : EntityState;
  entityManager : option ManagerId;
  isBeingSaved : bool;
  hasTempKey : bool;
  originalValues : gmap string Value;
  _inProcessEntity : option Ref;
  _validationErrors : list ValidationError
}.

Record Entity := {
  entityType : EntityType;
  props : gmap string Value;
  entityAspect : option EntityAspect
}.

(** [new EntityAspect(entity)]: a detached aspect that belongs to no
    manager. *)
Definition new_EntityAspect : EntityAspect :=
  {| entityState := Detached; entityManager := None; isBeingSaved := false;
     hasTempKey := false; originalValues := ∅; _inProcessEntity := None;
     _validationErrors := [] |}.

(** ** Options objects *)

Record QueryOptions := {
  qo_fetchStrategy : option FetchStrategy;
  qo_mergeStrategy : option MergeStrategy;
  includeDeleted : option bool
}.

Record SaveOptions := {
  allowConcurrentSaves : bool;
  resourceName : option string
}.

Record ValidationOptions := {
  validateOnAttach : bool;
  validateOnSave : bool;
  validateOnQuery : bool
}.

(** ** The manager *)

(** An EntityGroup as the manager sees it: its type and the [_entities]
    array, whose slots may be [null] (the source guards every read with
    [entity && ...]). *)
Record EntityGroup := {
  eg_entityType : EntityType;
  _entities : list (option Ref)
}.

(** The pluggable key generator ([config.keyGeneratorCtor]): the values it
    has handed out and the function that picks the next one, given the type
    and an optional preferred value. *)
Record KeyGenerator := {
  kg_used : list (string * Value);
  kg_next : list (string * Value) → EntityType → option Value → Value
}.

Inductive Publication :=
  | EntityChanged (action : EntityAction) (entity : option Ref)
  | HasChangesChanged (hasChanges : bool)
  | ValidationErrorsChanged (entity : Ref).

Record EntityManager := {
  em_id : ManagerId;
  metadataStore : MetadataStore;
  queryOptions : QueryOptions;
  saveOptions : SaveOptions;
  validationOptions : ValidationOptions;
  keyGenerator : KeyGenerator;
  (* a JavaScript object used as a map; iteration follows insertion order *)
  _entityGroupMap : list (string * EntityGroup);
  _hasChanges : bool;
  (* the deferred recomputation closure, with the entity of its [ecArgs] *)
  _hasChangesAction : option Ref;
  isLoading : bool;
  _pendingPubs : option (list Publication)
}.

(** Everything a call can observe or change: the object store, this
    manager, and the trace of what left the manager (events, callbacks,
    transport calls). *)
Inductive Effect :=
  | Published (p : Publication)
  | CallbackCalled (entities : list Ref)
  | ErrorCallbackCalled (message : string)
  | AdapterSaveChanges (entities : list Ref) (resource : string).

Record World := {
  heap : gmap Ref Entity;
  em : EntityManager;
  trace : list Effect;
  (* how many values have been drawn from the clock and the uuid source *)
  ticks : nat
}.

(** ** Functional record update *)

Definition with_entityState (s : EntityState) (a : EntityAspect) : EntityAspect :=
  {| entityState := s; entityManager := entityManager a;
     isBeingSaved := isBeingSaved a; hasTempKey := hasTempKey a;
     originalValues := originalValues a;
     _inProcessEntity := _inProcessEntity a;
     _validationErrors := _validationErrors a |}.

Definition with_entityManager (m : option ManagerId) (a : EntityAspect) : EntityAspect :=
  {| entityState := entityState a; entityManager := m;
     isBeingSaved := isBeingSaved a; hasTempKey := hasTempKey a;
     originalValues := originalValues a;
     _inProcessEntity := _inProcessEntity a;
     _validationErrors := _validationErrors a |}.

Definition with_isBeingSaved (b : bool) (a : EntityAspect) : EntityAspect :=
  {| entityState := entityState a; entityManager := entityManager a;
     isBeingSaved := b; hasTempKey := hasTempKey a;
     originalValues := originalValues a;
     _inProcessEntity := _inProcessEntity a;
     _validationErrors := _validationErrors a |}.

Definition with_hasTempKey (b : bool) (a : EntityAspect) : EntityAspect :=
  {| entityState := entityState a; entityManager := entityManager a;
     isBeingSaved := isBeingSaved a; hasTempKey := b;
     originalValues := originalValues a;
     _inProcessEntity := _inProcessEntity a;
     _validationErrors := _validationErrors a |}.

Definition with_originalValues (o : gmap string Value) (a : EntityAspect) : EntityAspect :=
  {| entityState := entityState a; entityManager := entityManager a;
     isBeingSaved := isBeingSaved a; hasTempKey := hasTempKey a;
     originalValues := o;
     _inProcessEntity := _inProcessEntity a;
     _validationErrors := _validationErrors a |}.

Definition with_inProcessEntity (p : option Ref) (a : EntityAspect) : EntityAspect :=
  {| entityState := entityState a; entityManager := entityManager a;
     isBeingSaved := isBeingSaved a; hasTempKey := hasTempKey a;
     originalValues := originalValues a;
     _inProcessEntity := p;
     _validationErrors := _validationErrors a |}.

Definition with_validationErrors (l : list ValidationError) (a : EntityAspect) : EntityAspect :=
  {| entityState := entityState a; entityManager := entityManager a;
     isBeingSaved := isBeingSaved a; hasTempKey := hasTempKey a;
     originalValues := originalValues a;
     _inProcessEntity := _inProcessEntity a;
     _validationErrors := l |}.

Definition with_props (p : gmap string Value) (e : Entity) : Entity :=
  {| entityType := entityType e; props := p; entityAspect := entityAspect e |}.

Definition with_entityAspect (a : option EntityAspect) (e : Entity) : Entity :=
  {| entityType := entityType e; props := props e; entityAspect := a |}.

Definition with_entities (l : list (option Ref)) (g : EntityGroup) : EntityGroup :=
  {| eg_entityType := eg_entityType g; _entities := l |}.

Definition with_entityGroupMap (gm : list (string * EntityGroup)) (m : EntityManager) : EntityManager :=
  {| em_id := em_id m; metadataStore := metadataStore m;
     queryOptions := queryOptions m; saveOptions := saveOptions m;
     validationOptions := validationOptions m; keyGenerator := keyGenerator m;
     _entityGroupMap := gm; _hasChanges := _hasChanges m;
     _hasChangesAction := _hasChangesAction m; isLoading := isLoading m;
     _pendingPubs := _pendingPubs m |}.

Definition with_hasChanges (b : bool) (m : EntityManager) : EntityManager :=
  {| em_id := em_id m; metadataStore := metadataStore m;
     queryOptions := queryOptions m; saveOptions := saveOptions m;
     validationOptions := validationOptions m; keyGenerator := keyGenerator m;
     _entityGroupMap := _entityGroupMap m; _hasChanges := b;
     _hasChangesAction := _hasChangesAction m; isLoading := isLoading m;
     _pendingPubs := _pendingPubs m |}.

Definition with_hasChangesAction (a : option Ref) (m : EntityManager) : EntityManager :=
  {| em_id := em_id m; metadataStore := metadataStore m;
     queryOptions := queryOptions m; saveOptions := saveOptions m;
     validationOptions := validationOptions m; keyGenerator := keyGenerator m;
     _entityGroupMap := _entityGroupMap m; _hasChanges := _hasChanges m;
     _hasChangesAction := a; isLoading := isLoading m;
     _pendingPubs := _pendingPubs m |}.

Definition with_isLoading (b : bool) (m : EntityManager) : EntityManager :=
  {| em_id := em_id m; metadataStore := metadataStore m;
     queryOptions := queryOptions m; saveOptions := saveOptions m;
     validationOptions := validationOptions m; keyGenerator := keyGenerator m;
     _entityGroupMap := _entityGroupMap m; _hasChanges := _hasChanges m;
     _hasChangesAction := _hasChangesAction m; isLoading := b;
     _pendingPubs := _pendingPubs m |}.

Definition with_keyGenerator (k : KeyGenerator) (m : EntityManager) : EntityManager :=
  {| em_id := em_id m; metadataStore := metadataStore m;
     queryOptions := queryOptions m; saveOptions := saveOptions m;
     validationOptions := validationOptions m; keyGenerator := k;
     _entityGroupMap := _entityGroupMap m; _hasChanges := _hasChanges m;
     _hasChangesAction := _hasChangesAction m; isLoading := isLoading m;
     _pendingPubs := _pendingPubs m |}.

Definition with_pendingPubs (p : option (list Publication)) (m : EntityManager) : EntityManager :=
  {| em_id := em_id m; metadataStore := metadataStore m;
     queryOptions := queryOptions m; saveOptions := saveOptions m;
     validationOptions := validationOptions m; keyGenerator := keyGenerator m;
     _entityGroupMap := _entityGroupMap m; _hasChanges := _hasChanges m;
     _hasChangesAction := _hasChangesAction m; isLoading := isLoading m;
     _pendingPubs := p |}.

Definition with_heap (h : gmap Ref Entity) (w : World) : World :=
  {| heap := h; em := em w; trace := trace w; ticks := ticks w |}.

Definition with_em (m : EntityManager) (w : World) : World :=
  {| heap := heap w; em := m; trace := trace w; ticks := ticks w |}.

Definition with_trace (t : list Effect) (w : World) : World :=
  {| heap := heap w; em := em w; trace := t; ticks := ticks w |}.

Definition with_ticks (n : nat) (w : World) : World :=
  {| heap := heap w; em := em w; trace := trace w; ticks := n |}.

(** ** The monad of manager methods *)

(** A call returns, throws, or (for the two loops of the source that need
    not terminate) is cut off by the bound put on them. *)
Inductive Result (A : Type) :=
  | Ok (a : A) (w : World)
  | Throw (message : string) (w : World)
  | OutOfFuel.
Arguments Ok {A} a w.
Arguments Throw {A} message w.
Arguments OutOfFuel {A}.

Definition M (A : Type) : Type := World → Result A.

Global Instance M_ret : MRet M := λ A a w, Ok a w.
Global Instance M_bind : MBind M := λ A B f m w,
  match m w with
  | Ok a w' => f a w'
  | Throw e w' => Throw e w'
  | OutOfFuel => OutOfFuel
  end.

Definition throw {A} (message : string) : M A := λ w, Throw message w.
Definition gets {A} (f : World → A) : M A := λ w, Ok (f w) w.
Definition modify (f : World → World) : M unit := λ w, Ok () (f w).
Definition modify_em (f : EntityManager → EntityManager) : M unit :=
  modify (λ w, with_em (f (em w)) w).

(** [try { body } finally { cleanup }]: an exception of the cleanup
    replaces the outcome of the body. *)
Definition try_finally {A} (body : M A) (cleanup : M unit) : M A := λ w,
  match body w with
  | Ok a w' =>
      match cleanup w' with
      | Ok _ w'' => Ok a w''
      | Throw e w'' => Throw e w''
      | OutOfFuel => OutOfFuel
      end
  | Throw e w' =>
      match cleanup w' with
      | Ok _ w'' => Throw e w''
      | Throw e' w'' => Throw e' w''
      | OutOfFuel => OutOfFuel
      end
  | OutOfFuel => OutOfFuel
  end.

(** [try { body } catch (err) { handler(err) }] *)
Definition try_catch {A} (body : M A) (handler : string → M A) : M A := λ w,
  match body w with
  | Ok a w' => Ok a w'
  | Throw e w' => handler e w'
  | OutOfFuel => OutOfFuel
  end.

(** [array.forEach(f)] *)
Fixpoint forEach {A} (l : list A) (f : A → M unit) : M unit :=
  match l with
  | [] => mret ()
  | x :: l' => f x;; forEach l' f
  end.

(** [array.filter(f)] with a callback that has effects *)
Fixpoint filterM {A} (f : A → M bool) (l : list A) : M (list A) :=
  match l with
  | [] => mret []
  | x :: l' =>
      keep ← f x;
      rest ← filterM f l';
      mret (if (keep : bool) then x :: rest else rest)
  end.

(** [__using(em, "isLoading", true, fn)]: the previous value is put back on
    every exit path. *)
Definition using_isLoading {A} (fn : M A) : M A :=
  saved ← gets (λ w, isLoading (em w));
  modify_em (with_isLoading true);;
  try_finally fn (modify_em (with_isLoading saved)).

(** Reading an object through a reference; a reference that is not in the
    store, or a property read on [null], is a TypeError. *)
Definition getEntity (e : Ref) : M Entity := λ w,
  match heap w !! e with
  | Some ent => Ok ent w
  | None => Throw "TypeError: not an object" w
  end.

Definition getAspect (e : Ref) : M EntityAspect :=
  ent ← getEntity e;
  match entityAspect ent with
  | Some a => mret a
  | None => throw "TypeError: cannot read a property of undefined"
  end.

Definition setAspect (e : Ref) (f : EntityAspect → EntityAspect) : M unit :=
  ent ← getEntity e;
  a ← getAspect e;
  modify (λ w, with_heap (<[e := with_entityAspect (Some (f a)) ent]> (heap w)) w).

Definition setProps (e : Ref) (f : gmap string Value → gmap string Value) : M unit :=
  ent ← getEntity e;
  modify (λ w, with_heap (<[e := with_props (f (props ent)) ent]> (heap w)) w).

Definition emit (x : Effect) : M unit :=
  modify (λ w, with_trace (trace w ++ [x])%list w).

(** [event.publish(args)] *)
Definition publish (p : Publication) : M unit := emit (Published p).

(** An entity of an import bundle: the values of its data properties and,
    of its [entityAspect] block, the state and the names of the navigation
    properties that led to an entity with a temp key. *)
Record RawEntity := {
  raw_values : gmap string Value;
  (* [EntityState.fromName(newAspect.entityState)]; [None] for a name that
     is not a state *)
  raw_entityState : option EntityState;
  tempNavPropNames : option (list string)
}.

(** ** Collaborators

    Code of the library that the manager calls and that is declared in other
    files.  Relationship wiring is the body that [_linkRelatedEntities] runs
    under the loading scope; it works through the navigation-property
    accessors of EntityAspect and EntityType.  The two calls by which an
    import overwrites a cached entity, [_updateTargetFromRaw] of EntityType
    and [setEntityState] of EntityAspect, are taken as they come: what they
    write, record and publish is decided in those files. *)
Class Collaborators := {
  (** [metadataStore._checkEntityType(entity)] accepts the entity's type *)
  checkEntityType : MetadataStore → EntityType → bool;
  (** the wiring of navigation properties done by [_linkRelatedEntities] *)
  wireRelationships : Ref → M unit;
  (** [entity.getProperty(np.name)] over the navigation properties of the
      entity's type: the related entities, scalar or in a collection *)
  relatedEntities : Ref → World → list Ref;
  (** [aspect.validateEntity()] *)
  validateEntity : Ref → M bool;
  (** [aspect._checkOperation(name)] *)
  checkOperation : string → Ref → M unit;
  (** [entityType._updateTargetFromRaw(target, rawEntity, rawValueFn)] *)
  _updateTargetFromRaw : Ref → RawEntity → M unit;
  (** [aspect.setEntityState(entityState)] *)
  setEntityState : Ref → EntityState → M unit;
  (** the times read by [new Date()] and the strings made by
      [__getUuid()], by the number of draws made before *)
  clock : nat → Z;
  getUuid : nat → string;
  (** whether [dataService.adapterInstance.saveChanges] throws before it
      goes asynchronous *)
  adapterThrows : list Ref → option string;
  (** [QueryOptions.defaultInstance] *)
  QueryOptions_defaultInstance : QueryOptions;
  (** [Array.prototype.sort] with a comparer *)
  array_sort : (Ref → Ref → Z) → list Ref → list Ref
}.

(** ** EntityAspect and EntityGroup, as far as the manager relies on them *)

Definition getProperty (ent : Entity) (name : string) : Value :=
  read (props ent) name.

(** [aspect.getKey().values] *)
Definition keyValues (ent : Entity) : list Value :=
  map (λ kp, getProperty ent (dp_name kp)) (keyProperties (entityType ent)).

Definition stateOf (h : gmap Ref Entity) (e : Ref) : option EntityState :=
  ent ← h !! e; a ← entityAspect ent; Some (entityState a).

Definition ownerOf (h : gmap Ref Entity) (e : Ref) : option ManagerId :=
  ent ← h !! e; a ← entityAspect ent; entityManager a.

(** Association-list view of a JavaScript object used as a map. *)
Fixpoint lookupGroup (name : string) (gm : list (string * EntityGroup)) : option EntityGroup :=
  match gm with
  | [] => None
  | (n, g) :: gm' => if bool_decide (n = name) then Some g else lookupGroup name gm'
  end.

Fixpoint storeGroup (name : string) (g : EntityGroup) (gm : list (string * EntityGroup))
  : list (string * EntityGroup) :=
  match gm with
  | [] => [(name, g)]
  | (n, g0) :: gm' =>
      if bool_decide (n = name) then (n, g) :: gm' else (n, g0) :: storeGroup name g gm'
  end.

(** Modelled from the spec: EntityGroup.findEntityByKey is not in this file;
    the group is "the identity map", "every entity present is indexed by its
    current key". *)
Definition group_findEntityByKey (h : gmap Ref Entity) (g : EntityGroup) (key : list Value)
  : option Ref :=
  head (omap (λ slot : option Ref,
                e ← slot; ent ← h !! e;
                if bool_decide (keyValues ent = key) then Some e else None)
             (_entities g)).

(** Modelled from the spec: EntityGroup.hasChanges and EntityGroup.getChanges
    are not in this file; a changed entity is one whose state is Added,
    Modified or Deleted. *)
Definition group_getChanges (h : gmap Ref Entity) (g : EntityGroup) : list Ref :=
  omap (λ slot : option Ref,
          e ← slot; s ← stateOf h e;
          if isAddedModifiedOrDeleted s then Some e else None)
       (_entities g).

Definition group_hasChanges (h : gmap Ref Entity) (g : EntityGroup) : bool :=
  bool_decide (group_getChanges h g ≠ []).

(** Modelled from the spec: EntityGroup.attachEntity is not in this file.
    "attachEntity(entity, state, mergeStrategy) -> Entity (the cached
    instance after resolving collisions, not necessarily the argument)",
    with the collision table of section 4.1: Disallowed fails;
    OverwriteChanges overwrites values and state; PreserveChanges overwrites
    only a cached Unchanged entity; SkipMerge does nothing.  An entity whose
    key is free is indexed, given the state, and owned by the manager.  A
    call that passes no strategy matches no row that fails or overwrites. *)
Definition group_attachEntity (typeName : string) (entity : Ref)
    (state : EntityState) (mergeStrategy : option MergeStrategy) : M Ref :=
  ent ← getEntity entity;
  gm ← gets (λ w, _entityGroupMap (em w));
  h ← gets heap;
  match lookupGroup typeName gm with
  | None => throw "TypeError: group is undefined"
  | Some group =>
      match group_findEntityByKey h group (keyValues ent) with
      | Some target =>
          let overwrite : M unit :=
            setProps target (λ _, props ent);;
            setAspect target (with_entityState state) in
          match mergeStrategy with
          | Some Disallowed =>
              throw "A MergeStrategy of 'Disallowed' does not allow you to attach an entity when an entity with the same key is already attached"
          | Some OverwriteChanges => overwrite;; mret target
          | Some PreserveChanges =>
              targetAspect ← getAspect target;
              (if isUnchanged (entityState targetAspect) then overwrite else mret ());;
              mret target
          | Some SkipMerge | None => mret target
          end
      | None =>
          modify_em (with_entityGroupMap
            (storeGroup typeName (with_entities (_entities group ++ [Some entity])%list group) gm));;
          m ← gets em;
          setAspect entity (λ a, with_entityManager (Some (em_id m)) (with_entityState state a));;
          mret entity
      end
  end.

(** Modelled from the spec: EntityGroup.detachEntity is not in this file;
    "removes it from its EntityGroup".  The slot is set to [null], which is
    what the [entity && ...] guards of the manager expect. *)
Definition group_detachEntity (typeName : string) (entity : Ref) : M unit :=
  modify_em (λ m,
    match lookupGroup typeName (_entityGroupMap m) with
    | None => m
    | Some group =>
        with_entityGroupMap
          (storeGroup typeName
             (with_entities
                (map (λ slot, if bool_decide (slot = Some entity) then None else slot)
                     (_entities group)) group)
             (_entityGroupMap m)) m
    end).

(** Modelled from the spec: EntityAspect.setDetached is not in this file.
    "returns false if the entity ... is already detached; ... otherwise
    removes it from its EntityGroup, sets state Detached, and returns true";
    the entity is "destroyed (removed from its EntityGroup, aspect's manager
    reference cleared) on detach", and the transition publishes a [Detach]
    notification. *)
Definition setDetached (entity : Ref) : M bool :=
  ent ← getEntity entity;
  a ← getAspect entity;
  if isDetached (entityState a) then mret false
  else
    group_detachEntity (et_name (entityType ent)) entity;;
    publish (EntityChanged Detach (Some entity));;
    setAspect entity (λ a, with_entityManager None (with_entityState Detached a));;
    mret true.

(** ** The manager's methods *)

Section Manager.
Context `{Collaborators}.

(** [getEntityGroups(em, entityTypes)]; the names that [checkEntityTypes]
    accepts are taken as already resolved to their types. *)
Definition getEntityGroups (m : EntityManager) (entityTypes : option (list EntityType))
  : list (option EntityGroup) :=
  let groupMap := _entityGroupMap m in
  match entityTypes with
  | Some ets => map (λ et, lookupGroup (et_name et) groupMap) ets
  | None => map (λ p, Some (snd p)) groupMap
  end.

(** [proto._hasChangesCore]: the backdoor that really checks for changes. *)
Definition _hasChangesCore (entityTypes : option (list EntityType)) (w : World) : bool :=
  existsb (λ eg : option EntityGroup,
             match eg with
             | Some g => group_hasChanges (heap w) g
             | None => false
             end)
          (getEntityGroups (em w) entityTypes).

(** [proto.hasChanges] *)
Definition hasChanges (entityTypes : option (list EntityType)) (w : World) : bool :=
  if negb (_hasChanges (em w)) then false
  else match entityTypes with
       | None => _hasChanges (em w)
       | Some _ => _hasChangesCore entityTypes w
       end.

(** [proto._setHasChanges] *)
Definition _setHasChanges (hasChanges : option bool) : M unit :=
  w ← gets id;
  let hasChanges := match hasChanges with
                    | Some b => b
                    | None => _hasChangesCore None w
                    end in
  let hadChanges := _hasChanges (em w) in
  modify_em (with_hasChanges hasChanges);;
  (if negb (eqb hasChanges hadChanges)
   then publish (HasChangesChanged hasChanges) else mret ());;
  modify_em (with_hasChangesAction None).

(** The closure stored in [_hasChangesAction], run when a bulk operation
    ends. *)
Definition run_hasChangesAction (entity : Ref) : M unit :=
  _setHasChanges None;;
  publish (EntityChanged EntityStateChange (Some entity)).

(** [proto._notifyStateChange] *)
Definition _notifyStateChange (entity : Ref) (needsSave : bool) : M unit :=
  let ecArgs := EntityChanged EntityStateChange (Some entity) in
  m ← gets em;
  if needsSave then
    (if negb (_hasChanges m) then _setHasChanges (Some true) else mret ());;
    publish ecArgs
  else if _hasChanges m then
    if isLoading m then
      modify_em (with_hasChangesAction
                   (match _hasChangesAction m with
                    | Some f => Some f
                    | None => Some entity
                    end))
    else
      _setHasChanges None;;
      publish ecArgs
  else publish ecArgs.

(** Modelled from the spec: the property setter of an entity is not in this
    file.  "Any property write while Unchanged -> Modified"; originalValues
    is "populated lazily on first mutation"; while the loading scope is
    active a write "never promotes Unchanged -> Modified"; a detached entity
    is written without bookkeeping. *)
Definition setProperty (entity : Ref) (name : string) (value : Value) : M unit :=
  ent ← getEntity entity;
  m ← gets em;
  let old := getProperty ent name in
  setProps entity (<[name := value]>);;
  match entityAspect ent with
  | None => mret ()
  | Some a =>
      if isLoading m || isDetached (entityState a) then mret ()
      else
        (match originalValues a !! name with
         | Some _ => mret ()
         | None => setAspect entity (λ a, with_originalValues (<[name := old]> (originalValues a)) a)
         end);;
        if isUnchanged (entityState a)
        then setAspect entity (with_entityState Modified);;
             _notifyStateChange entity true
        else mret ()
  end.

(** [getChangesCore(em, entityTypes)] *)
Definition getChangesCore (entityTypes : option (list EntityType)) (w : World) : list Ref :=
  concat (map (λ eg : option EntityGroup,
                 match eg with
                 | Some g => group_getChanges (heap w) g
                 | None => []
                 end)
              (getEntityGroups (em w) entityTypes)).

(** [proto.getChanges] *)
Definition getChanges (entityTypes : option (list EntityType)) : M (list Ref) :=
  gets (getChangesCore entityTypes).

(** [findOrCreateEntityGroup(em, entityType)] *)
Definition findOrCreateEntityGroup (entityType : EntityType) : M EntityGroup :=
  m ← gets em;
  match lookupGroup (et_name entityType) (_entityGroupMap m) with
  | Some group => mret group
  | None =>
      let group := {| eg_entityType := entityType; _entities := [] |} in
      modify_em (with_entityGroupMap
                   (_entityGroupMap m ++ [(et_name entityType, group)])%list);;
      mret group
  end.

(** [findOrCreateEntityGroups(em, entityType)] *)
Fixpoint mapM_groups (ets : list EntityType) : M (list EntityGroup) :=
  match ets with
  | [] => mret []
  | et :: ets' =>
      g ← findOrCreateEntityGroup et;
      gs ← mapM_groups ets';
      mret (g :: gs)
  end.

Definition findOrCreateEntityGroups (entityType : EntityType) : M (list EntityGroup) :=
  mapM_groups (getSelfAndSubtypes entityType).

(** [proto._linkRelatedEntities] *)
Definition _linkRelatedEntities (entity : Ref) : M unit :=
  using_isLoading (wireRelationships entity).

(** [keyGenerator.generateTempKeyValue(entityType, valueIfAvail)]: the
    generator picks a value and remembers it. *)
Definition keyGenerator_generateTempKeyValue (entityType : EntityType)
    (valueIfAvail : option Value) : M Value :=
  kg ← gets (λ w, keyGenerator (em w));
  let v := kg_next kg (kg_used kg) entityType valueIfAvail in
  modify_em (with_keyGenerator
               {| kg_used := (kg_used kg ++ [(et_name entityType, v)])%list;
                  kg_next := kg_next kg |});;
  mret v.

(** [proto.generateTempKeyValue] *)
Definition generateTempKeyValue (entity : Ref) : M Value :=
  ent ← getEntity entity;
  let entityType := entityType ent in
  nextKeyValue ← keyGenerator_generateTempKeyValue entityType None;
  match keyProperties entityType with
  | [] => throw "TypeError: cannot read a property of undefined"
  | keyProp :: _ =>
      setProperty entity (dp_name keyProp) nextKeyValue;;
      setAspect entity (with_hasTempKey true);;
      mret nextKeyValue
  end.

(** [checkEntityKey(em, entity)] *)
Definition checkEntityKey (entity : Ref) : M unit :=
  ent ← getEntity entity;
  _ ← getAspect entity;
  let ek_values := keyValues ent in
  let keyPropsWithDefaultValues :=
    filter (λ kp, defaultValue kp = getProperty ent (dp_name kp))
           (keyProperties (entityType ent)) in
  if bool_decide (keyPropsWithDefaultValues ≠ []) then
    if bool_decide (autoGeneratedKeyType (entityType ent) ≠ KeyType_None) then
      _ ← generateTempKeyValue entity; mret ()
    else if bool_decide (length keyPropsWithDefaultValues = length ek_values) then
      throw ("Cannot attach an object of type  (" ++ et_name (entityType ent)
             ++ ") to an EntityManager without first setting its key or setting its entityType 'AutoGeneratedKeyType' property to something other than 'None'")
    else mret ()
  else mret ().

(** [proto._attachEntityCore] *)
Definition _attachEntityCore (entity : Ref) (entityState : EntityState)
    (mergeStrategy : MergeStrategy) : M Ref :=
  ent ← getEntity entity;
  group ← findOrCreateEntityGroup (entityType ent);
  attachedEntity ← group_attachEntity (et_name (eg_entityType group)) entity entityState
                     (Some mergeStrategy);
  _linkRelatedEntities attachedEntity;;
  mret attachedEntity.

(** [attachRelatedEntities(em, entity, entityState, mergeStrategy)], over
    the call back into [em.attachEntity]. *)
Definition attachRelatedEntities
    (attach : Ref → option EntityState → option MergeStrategy → M Ref)
    (entity : Ref) (entityState : EntityState) (mergeStrategy : MergeStrategy) : M unit :=
  related ← gets (relatedEntities entity);
  forEach related (λ e, _ ← attach e (Some entityState) (Some mergeStrategy); mret ()).

(** The [finally] block of [attachEntity]: [aspect._inProcessEntity = null]
    on the aspect the entity was given above. *)
Definition clear_inProcessEntity (entity : Ref) : M unit :=
  modify (λ w,
    match heap w !! entity with
    | Some ent =>
        match entityAspect ent with
        | Some a =>
            with_heap (<[entity := with_entityAspect (Some (with_inProcessEntity None a)) ent]>
                         (heap w)) w
        | None => w
        end
    | None => w
    end).

(** [proto.attachEntity].  The recursion through the related entities ends
    because an entity in progress, or one the manager already owns, returns
    at once; [fuel] bounds its depth. *)
Fixpoint attachEntity (fuel : nat) (entity : Ref) (entityState : option EntityState)
    (mergeStrategy : option MergeStrategy) : M Ref :=
  match fuel with
  | O => λ _, OutOfFuel
  | S fuel' =>
      ent ← getEntity entity;
      m ← gets em;
      if negb (checkEntityType (metadataStore m) (entityType ent))
      then throw "TypeError: the entity has no known EntityType" else
      let entityState := default Unchanged entityState in
      let mergeStrategy := default Disallowed mergeStrategy in
      if negb (bool_decide (et_metadataStore (entityType ent) = ms_id (metadataStore m)))
      then throw ("Cannot attach this entity because the EntityType (" ++ et_name (entityType ent)
                  ++ ") and MetadataStore associated with this entity does not match this EntityManager's MetadataStore.")
      else
      inProcess ← match entityAspect ent with
                  | Some aspect => mret (_inProcessEntity aspect)
                  | None =>
                      (* created via new instead of via createEntity *)
                      modify (λ w, with_heap
                                (<[entity := with_entityAspect (Some new_EntityAspect) ent]> (heap w)) w);;
                      mret None
                  end;
      match inProcess with
      | Some inProcessEntity => mret inProcessEntity
      | None =>
          aspect ← getAspect entity;
          match entityManager aspect with
          | Some manager =>
              if bool_decide (manager = em_id m) then mret entity
              else throw "This entity already belongs to another EntityManager"
          | None =>
              attachedEntity ← using_isLoading (
                (if isAdded entityState then checkEntityKey entity else mret ());;
                attachedEntity ← _attachEntityCore entity entityState mergeStrategy;
                setAspect entity (with_inProcessEntity (Some attachedEntity));;
                try_finally
                  (attachRelatedEntities (attachEntity fuel') entity entityState mergeStrategy)
                  (clear_inProcessEntity entity);;
                mret attachedEntity);
              validationOptions ← gets (λ w, validationOptions (em w));
              (if validateOnAttach validationOptions
               then _ ← validateEntity attachedEntity; mret () else mret ());;
              (if negb (isUnchanged entityState)
               then _notifyStateChange attachedEntity true else mret ());;
              publish (EntityChanged Attach (Some attachedEntity));;
              mret attachedEntity
          end
      end
  end.

(** Modelled from the spec: EntityType.createEntity is not in this file;
    "an entity is created detached (no group membership)", with an aspect of
    its own and the initial values given. *)
Definition entityType_createEntity (entityType : EntityType)
    (initialValues : gmap string Value) : M Ref :=
  h ← gets heap;
  let entity := fresh (dom h) in
  modify (λ w, with_heap
            (<[entity := {| entityType := entityType; props := initialValues;
                            entityAspect := Some new_EntityAspect |}]> (heap w)) w);;
  mret entity.

(** [proto.createEntity]; the type name is taken as already resolved. *)
Definition createEntity (fuel : nat) (entityType : EntityType)
    (initialValues : gmap string Value) (entityState : option EntityState)
    (mergeStrategy : option MergeStrategy) : M Ref :=
  let entityState := default Added entityState in
  entity ← using_isLoading (entityType_createEntity entityType initialValues);
  if negb (bool_decide (entityState = Detached))
  then attachEntity fuel entity (Some entityState) mergeStrategy
  else mret entity.

(** [proto.detachEntity] *)
Definition detachEntity (entity : Ref) : M bool :=
  ent ← getEntity entity;
  m ← gets em;
  match entityAspect ent with
  | None =>
      (* no aspect means it couldn't appear in any group *)
      mret false
  | Some aspect =>
      if negb (bool_decide (entityManager aspect = Some (em_id m)))
      then throw "This entity does not belong to this EntityManager."
      else setDetached entity
  end.

(** Modelled from the spec: EntityAspect.acceptChanges is not in this file;
    "acceptChanges -> Unchanged (or removal if currently Deleted)".  The
    manager is told through [_notifyStateChange(entity, false)], the call
    the source describes as made "when rejecting a change or merging an
    unchanged record". *)
Definition aspect_acceptChanges (entity : Ref) : M unit :=
  a ← getAspect entity;
  (if isDeleted (entityState a) then _ ← setDetached entity; mret ()
   else
     setAspect entity (λ a, with_originalValues ∅ (with_entityState Unchanged a));;
     _notifyStateChange entity false);;
  publish (EntityChanged AcceptChanges (Some entity)).

(** Modelled from the spec: EntityAspect.rejectChanges is not in this file;
    "rejectChanges -> Unchanged (or Detached if was Added, reverting values
    if was Modified)". *)
Definition aspect_rejectChanges (entity : Ref) : M unit :=
  a ← getAspect entity;
  setProps entity (λ p, originalValues a ∪ p);;
  (if isAdded (entityState a) then
     _ ← setDetached entity;
     _notifyStateChange entity false
   else
     setAspect entity (λ a, with_originalValues ∅ (with_entityState Unchanged a));;
     _notifyStateChange entity false;;
     publish (EntityChanged RejectChanges (Some entity))).

(** [proto.acceptChanges] *)
Definition acceptChanges : M unit :=
  changes ← getChanges None;
  forEach changes (checkOperation "acceptChanges");;
  forEach changes aspect_acceptChanges.

(** [proto.rejectChanges] *)
Definition rejectChanges : M (list Ref) :=
  m ← gets em;
  if negb (_hasChanges m) then mret []
  else
    changes ← gets (getChangesCore None);
    (* next line stops individual reject changes from each calling _hasChangesCore *)
    forEach changes (checkOperation "rejectChanges");;
    modify_em (with_hasChanges false);;
    forEach changes aspect_rejectChanges;;
    publish (HasChangesChanged false);;
    mret changes.

(** *** Saving *)

(** [markIsBeingSaved(entities, flag)] *)
Definition markIsBeingSaved (entities : list Ref) (flag : bool) : M unit :=
  forEach entities (λ entity, setAspect entity (with_isBeingSaved flag)).

(** [getEntitiesToSave(em, entities)]; [None] is a [null] or omitted
    argument, and an array, even an empty one, is truthy. *)
Definition getEntitiesToSave (entities : option (list Ref)) : M (list Ref) :=
  match entities with
  | Some entities =>
      filterM (λ e,
                 a ← getAspect e;
                 m ← gets em;
                 if negb (bool_decide (entityManager a = Some (em_id m)))
                 then throw "Only entities in this entityManager may be saved"
                 else mret (negb (isDetached (entityState a))))
              entities
  | None => getChanges None
  end.

(** [clearServerErrors(entities)] *)
Definition clearServerErrors (entities : list Ref) : M unit :=
  forEach entities (λ entity,
    aspect ← getAspect entity;
    let serverKeys := filter (λ ve, isServerError ve = true) (_validationErrors aspect) in
    if bool_decide (length serverKeys = 0) then mret ()
    else
      setAspect entity (λ a,
        with_validationErrors
          (filter (λ ve, isServerError ve = false) (_validationErrors a)) a);;
      publish (ValidationErrorsChanged entity)).

(** [proto.saveChangesValidateOnClient] *)
Definition saveChangesValidateOnClient (entitiesToSave : list Ref) : M (option string) :=
  validationOptions ← gets (λ w, validationOptions (em w));
  if validateOnSave validationOptions then
    failedEntities ← filterM (λ entity,
                        aspect ← getAspect entity;
                        isValid ← (if isDeleted (entityState aspect) then mret true
                                   else validateEntity entity);
                        mret (negb isValid))
                      entitiesToSave;
    if bool_decide (0 < length failedEntities)
    then mret (Some "Client side validation errors encountered - see the entityErrors collection on this object for more detail")
    else mret None
  else mret None.

(** The double nearest to an integer, a tie going to the even significand:
    what JavaScript's arithmetic makes of an integer result that does not
    fit the 53 bits of a significand. *)
Definition toDouble (x : Z) : Z :=
  let a := Z.abs x in
  if (a <=? 2 ^ 53)%Z then x
  else
    let e := (Z.log2 a - 52)%Z in
    let q := Z.shiftr a e in
    let r := Z.land a (Z.ones e) in
    let half := Z.shiftl 1 (e - 1) in
    let q := if (half <? r)%Z || ((r =? half)%Z && Z.odd q) then (q + 1)%Z else q in
    (Z.sgn x * Z.shiftl q e)%Z.

(** [value + 1] on the values a data property can hold.  The sum of a
    number and 1 is the double nearest to it; a boolean and [null] count as
    numbers; a string is extended.  [undefined + 1] and the sum of a date
    and 1 are values that are not modelled, for which [VUndefined] stands. *)
Definition plus_one (value : Value) : Value :=
  match value with
  | VNum n => VNum (toDouble (n + 1))
  | VBool b => VNum (Z.b2z b + 1)
  | VNull => VNum 1
  | VStr s => VStr (s ++ "1")
  | VUndefined | VDate _ => VUndefined
  end.

(** [new Date().getTime()] *)
Definition now : M Z := λ w,
  Ok (clock (ticks w)) (with_ticks (S (ticks w)) w).

(** [while (dt.getTime() === dt2.getTime()) dt2 = new Date();], entered
    with the first [dt2] still to be drawn. *)
Fixpoint resample (fuel : nat) (dt : Z) : M Z :=
  match fuel with
  | O => λ _, OutOfFuel
  | S fuel' =>
      dt2 ← now;
      if bool_decide (dt = dt2) then resample fuel' dt else mret dt2
  end.

(** [updateConcurrencyProperty(entity, property)] *)
Definition updateConcurrencyProperty (fuel : nat) (entity : Ref) (property : DataProperty)
  : M unit :=
  ent ← getEntity entity;
  aspect ← getAspect entity;
  (* check if property has already been updated *)
  if truthy (read (originalValues aspect) (dp_name property)) then mret ()
  else
    let value := getProperty ent (dp_name property) in
    let value := if negb (truthy value) then dt_defaultValue (dataType property) else value in
    if isNumeric (dataType property) then
      setProperty entity (dp_name property) (plus_one value)
    else if isDate (dataType property) then
      dt ← now;
      dt2 ← resample fuel dt;
      setProperty entity (dp_name property) (VDate dt2)
    else if bool_decide (dt_id (dataType property) = Guid) then
      uuid ← (λ w, Ok (getUuid (ticks w)) (with_ticks (S (ticks w)) w));
      setProperty entity (dp_name property) (VStr uuid)
    else if bool_decide (dt_id (dataType property) = Binary) then
      mret ()
    else
      throw ("Unable to update the value of concurrency property before saving: "
             ++ dp_name property).

(** [updateConcurrencyProperties(entities)] *)
Definition updateConcurrencyProperties (fuel : nat) (entities : list Ref) : M unit :=
  candidates ← filterM (λ e,
                  setAspect e (with_isBeingSaved true);;
                  ent ← getEntity e;
                  aspect ← getAspect e;
                  mret (isModified (entityState aspect)
                        && bool_decide (0 < length (concurrencyProperties (entityType ent)))))
                entities;
  if bool_decide (length candidates = 0) then mret ()
  else
    forEach candidates (λ c,
      ent ← getEntity c;
      forEach (concurrencyProperties (entityType ent)) (updateConcurrencyProperty fuel c)).

Record SaveResult := {
  sr_entities : list Ref;
  keyMappings : list (string * Value * Value)
}.

(** What [saveChanges] hands back: a promise already settled, or the one
    chained on the adapter's call. *)
Inductive Promise :=
  | Resolved (result : SaveResult)
  | Rejected (message : string)
  | FromAdapter.

(** [proto.saveChanges], up to the point where the adapter has been called;
    [callback] and [errorCallback] say whether the caller passed one. *)
Definition saveChanges (fuel : nat) (entities : option (list Ref))
    (options : option SaveOptions) (callback errorCallback : bool) : M Promise :=
  m ← gets em;
  (* saveOptions || this.saveOptions || SaveOptions.defaultInstance *)
  let options := default (saveOptions m) options in
  entitiesToSave ← getEntitiesToSave entities;
  if bool_decide (length entitiesToSave = 0) then
    let result := {| sr_entities := []; keyMappings := [] |} in
    (if callback then emit (CallbackCalled (sr_entities result)) else mret ());;
    mret (Resolved result)
  else
    anyPendingSaves ←
      (if negb (allowConcurrentSaves options) then
         (* entitiesToSave.some(...); every entity of the set has an aspect,
            getEntitiesToSave has just read its state *)
         h ← gets heap;
         mret (existsb (λ entity,
                          match h !! entity with
                          | Some ent => from_option isBeingSaved false (entityAspect ent)
                          | None => false
                          end) entitiesToSave)
       else mret false);
    if (anyPendingSaves : bool) then
      let err := "Concurrent saves not allowed - SaveOptions.allowConcurrentSaves is false" in
      (if errorCallback then emit (ErrorCallbackCalled err) else mret ());;
      mret (Rejected err)
    else
      clearServerErrors entitiesToSave;;
      valError ← saveChangesValidateOnClient entitiesToSave;
      match valError with
      | Some valError =>
          (if errorCallback then emit (ErrorCallbackCalled valError) else mret ());;
          mret (Rejected valError)
      | None =>
          m ← gets em;
          (* an absent or empty resourceName is [None] *)
          let resource :=
            default "SaveChanges"
              (match resourceName options with
               | Some r => Some r
               | None => resourceName (saveOptions m)
               end) in
          (* Guard against exception thrown in dataservice adapter before it goes async *)
          try_catch
            (updateConcurrencyProperties fuel entitiesToSave;;
             emit (AdapterSaveChanges entitiesToSave resource);;
             match adapterThrows entitiesToSave with
             | Some err => throw err
             | None => mret FromAdapter
             end)
            (λ err,
               (* undo the marking by updateConcurrencyProperties *)
               markIsBeingSaved entitiesToSave false;;
               (if errorCallback then emit (ErrorCallbackCalled err) else mret ());;
               mret (Rejected err))
      end.

(** *** Querying the cache *)

(** An EntityQuery after its clauses have been compiled: [toFunction] and
    [getComparer] give functions of the entities, which read the store. *)
Record EntityQuery := {
  fromEntityType : EntityType;
  wherePredicate : option (gmap Ref Entity → Ref → bool);
  orderByClause : option (gmap Ref Entity → Ref → Ref → Z);
  skipCount : option nat;
  takeCount : option nat;
  selectClause : option (gmap Ref Entity → Ref → Value);
  inlineCountEnabled : bool;
  q_queryOptions : option QueryOptions
}.

(** A result of a query: an entity of the cache, or what the projection
    made of it. *)
Inductive QueryResult :=
  | AnEntity (entity : Ref)
  | Projected (value : Value).

(** Modelled from the spec: QueryOptions.resolve is not in this file; the
    source says of it: "'resolve' methods create a new typed object with all
    of its properties fully resolved against a list of sources". *)
Definition first_defined {A} (sources : list (option A)) : option A :=
  head (omap id sources).

Definition QueryOptions_resolve (sources : list (option QueryOptions)) : QueryOptions :=
  let defined := omap id sources in
  {| qo_fetchStrategy := first_defined (map qo_fetchStrategy defined);
     qo_mergeStrategy := first_defined (map qo_mergeStrategy defined);
     includeDeleted := first_defined (map includeDeleted defined) |}.

(** A count used as a condition: [undefined], [null] and [0] are falsy. *)
Definition count_truthy (n : option nat) : bool :=
  match n with Some (S _) => true | _ => false end.

(** The loop [groups.forEach(...)] of [executeQueryLocallyCore]: the
    entities of each group that pass the filter are appended to the result. *)
Fixpoint filterGroups (newFilterFunc : option Ref → M bool) (groups : list EntityGroup)
    (result : list Ref) : M (list Ref) :=
  match groups with
  | [] => mret result
  | group :: groups' =>
      entities ← filterM newFilterFunc (_entities group);
      filterGroups newFilterFunc groups' (result ++ omap id entities)%list
  end.

(** [executeQueryLocallyCore(em, query)] *)
Definition executeQueryLocallyCore (query : EntityQuery)
  : M (list QueryResult * option nat) :=
  let entityType := fromEntityType query in
  (* there may be multiple groups is this is a base entity type. *)
  groups ← findOrCreateEntityGroups entityType;
  (* filter then order then skip then take *)
  let filterFunc := wherePredicate query in
  m ← gets em;
  let queryOptions := QueryOptions_resolve
                        [q_queryOptions query; Some (queryOptions m);
                         Some QueryOptions_defaultInstance] in
  let includeDeleted := bool_decide (includeDeleted queryOptions = Some true) in
  let newFilterFunc (slot : option Ref) : M bool :=
    match slot with
    | None => mret false
    | Some entity =>
        notExcluded ← (if includeDeleted then mret true
                       else aspect ← getAspect entity;
                            mret (negb (isDeleted (entityState aspect))));
        h ← gets heap;
        mret (notExcluded && match filterFunc with
                             | Some f => f h entity
                             | None => true
                             end)
    end in
  result ← filterGroups newFilterFunc groups [];
  h ← gets heap;
  let result := match orderByClause query with
                | Some orderByComparer => array_sort (orderByComparer h) result
                | None => result
                end in
  let inlineCount := if inlineCountEnabled query then Some (length result) else None in
  let result := if count_truthy (skipCount query)
                then drop (default 0 (skipCount query)) result else result in
  let result := if count_truthy (takeCount query)
                then take (default 0 (takeCount query)) result else result in
  let result := match selectClause query with
                | Some selectFn => map (λ e, Projected (selectFn h e)) result
                | None => map AnEntity result
                end in
  mret (result, inlineCount).

(** [proto.executeQueryLocally] *)
Definition executeQueryLocally (query : EntityQuery) : M (list QueryResult) :=
  r ← executeQueryLocallyCore query; mret (fst r).

(** *** Importing *)

Record EntityKey := {
  ek_entityType : EntityType;
  ek_values : list Value
}.

(** Modelled from the spec: EntityKey is not in this file.  "Equality and
    indexing use a canonical string form"; [toString(altEntityType)] is that
    form for the key read as a key of another type of the hierarchy.  The
    form is kept as the pair it is made from. *)
Definition EntityKey_toString (key : EntityKey) (altEntityType : option EntityType)
  : string * list Value :=
  (et_name (default (ek_entityType key) altEntityType), ek_values key).

(** Modelled from the spec: "lookups additionally must consider
    type-hierarchy subtypes"; [key._subtypes] is set for a type that has
    subtypes. *)
Definition EntityKey_subtypes (key : EntityKey) : option (list EntityType) :=
  let l := getSelfAndSubtypes (ek_entityType key) in
  if bool_decide (1 < length l) then Some l else None.

Record ExportBundle := {
  entityGroupMap : list (string * list RawEntity);
  tempKeys : list (string * list Value)
}.

Record ImportConfig := {
  cfg_mergeStrategy : option MergeStrategy;
  cfg_tempKeyMap : gmap (string * list Value) EntityKey
}.

(** [getMappedKey(tempKeyMap, entityKey)] *)
Definition getMappedKey (tempKeyMap : gmap (string * list Value) EntityKey)
    (entityKey : EntityKey) : option EntityKey :=
  match tempKeyMap !! EntityKey_toString entityKey None with
  | Some newKey => Some newKey
  | None =>
      match EntityKey_subtypes entityKey with
      | None => None
      | Some subtypes =>
          head (omap (λ st, tempKeyMap !! EntityKey_toString entityKey (Some st)) subtypes)
      end
  end.

(** Modelled from the spec: EntityType._createInstanceCore is not in this
    file; "an entity is created detached (no group membership)". *)
Definition _createInstanceCore (entityType : EntityType) : M Ref :=
  entityType_createEntity entityType ∅.

(** [entityType.getEntityKeyFromRawEntity(rawEntity, rawValueFn)] *)
Definition getEntityKeyFromRawEntity (entityType : EntityType) (rawEntity : RawEntity)
  : EntityKey :=
  {| ek_entityType := entityType;
     ek_values := map (λ kp, read (raw_values rawEntity) (dp_name kp))
                      (keyProperties entityType) |}.

(** The body of [newAspect.tempNavPropNames.forEach(...)] in
    [importEntityGroup]: the foreign key behind one navigation property is
    replaced by the value the temp key map gives for it. *)
Definition fixupForeignKey (entityType : EntityType)
    (tempKeyMap : gmap (string * list Value) EntityKey) (targetEntity : Ref)
    (npName : string) : M unit :=
  m ← gets em;
  match List.find (λ np, bool_decide (np_name np = npName))
                  (navigationProperties entityType) with
  | None => throw "TypeError: cannot read a property of null"
  | Some np =>
      match head (relatedDataProperties np),
            ms_types (metadataStore m) !! np_entityType np with
      | Some fkPropName, Some npEntityType =>
          ent ← getEntity targetEntity;
          let oldFkValue := getProperty ent fkPropName in
          let fk := {| ek_entityType := npEntityType; ek_values := [oldFkValue] |} in
          match getMappedKey tempKeyMap fk with
          | Some newFk =>
              setProperty targetEntity fkPropName
                          (default VUndefined (head (ek_values newFk)))
          | None => throw "TypeError: cannot read a property of null"
          end
      | _, _ => throw "TypeError: cannot read a property of undefined"
      end
  end.

(** The body of the loop of [importEntityGroup] over the raw entities of a
    group. *)
Definition importRawEntity (entityGroup : EntityGroup) (config : ImportConfig)
    (rawEntity : RawEntity) : M Ref :=
  let tempKeyMap := cfg_tempKeyMap config in
  let entityType := eg_entityType entityGroup in
  let mergeStrategy := cfg_mergeStrategy config in
  let entityKey := getEntityKeyFromRawEntity entityType rawEntity in
  match raw_entityState rawEntity with
  | None | Some Detached =>
      throw "Only entities with a non detached entity state may be imported."
  | Some state =>
      (* Merge if raw entity is in cache UNLESS this is a new entity w/ a temp key *)
      let newTempKey := if isAdded state then getMappedKey tempKeyMap entityKey
                        else None in
      w ← gets id;
      let targetEntity :=
        match newTempKey with
        | Some _ => None
        | None =>
            group ← lookupGroup (et_name entityType) (_entityGroupMap (em w));
            group_findEntityByKey (heap w) group (ek_values entityKey)
        end in
      match targetEntity with
      | Some targetEntity =>
          (match mergeStrategy with
           | Some SkipMerge => mret ()  (* deliberate fall thru *)
           | Some Disallowed =>
               (* the message shows [entityKey.toString()], whose text is
                  made in another file; the type name stands for it *)
               throw ("A MergeStrategy of 'Disallowed' prevents "
                      ++ et_name entityType ++ " from being merged")
           | _ =>
               targetAspect ← getAspect targetEntity;
               let wasUnchanged := isUnchanged (entityState targetAspect) in
               if bool_decide (mergeStrategy = Some OverwriteChanges) || wasUnchanged then
                 _updateTargetFromRaw targetEntity rawEntity;;
                 setEntityState targetEntity state;;
                 publish (EntityChanged MergeOnImport (Some targetEntity))
               else mret ()
           end);;
          mret targetEntity
      | None =>
          targetEntity ← _createInstanceCore entityType;
          _updateTargetFromRaw targetEntity rawEntity;;
          (match newTempKey with
           | Some newTempKey =>
               setAspect targetEntity (with_hasTempKey true);;
               (* fixup pk *)
               (match keyProperties entityType with
                | keyProp :: _ =>
                    setProperty targetEntity (dp_name keyProp)
                                (default VUndefined (head (ek_values newTempKey)))
                | [] => throw "TypeError: cannot read a property of undefined"
                end);;
               (* fixup foreign keys *)
               forEach (default [] (tempNavPropNames rawEntity))
                       (fixupForeignKey entityType tempKeyMap targetEntity)
           | None => mret ()
           end);;
          (* Now performed in attachEntity *)
          targetEntity ← group_attachEntity (et_name entityType) targetEntity state None;
          publish (EntityChanged AttachOnImport (Some targetEntity));;
          (if negb (isUnchanged state)
           then _notifyStateChange targetEntity true else mret ());;
          mret targetEntity
      end
  end.

(** [importEntityGroup(entityGroup, jsonGroup, config)] *)
Fixpoint importEntityGroup (entityGroup : EntityGroup) (jsonGroup : list RawEntity)
    (config : ImportConfig) : M (list Ref) :=
  match jsonGroup with
  | [] => mret []
  | rawEntity :: rest =>
      targetEntity ← importRawEntity entityGroup config rawEntity;
      entitiesToLink ← importEntityGroup entityGroup rest config;
      mret (targetEntity :: entitiesToLink)
  end.

(** The first loop of [importEntities]: every temp key of the bundle is
    given a key made by this manager's generator, which is offered the
    imported value ("try to use oldKey if not already used in this
    keyGenerator"). *)
Fixpoint makeTempKeyMap (tempKeys : list (string * list Value))
    (tempKeyMap : gmap (string * list Value) EntityKey)
  : M (gmap (string * list Value) EntityKey) :=
  match tempKeys with
  | [] => mret tempKeyMap
  | k :: rest =>
      m ← gets em;
      match ms_types (metadataStore m) !! fst k with
      | None => throw "Unable to locate a 'Type' by the name given"
      | Some oldType =>
          let oldKey := {| ek_entityType := oldType; ek_values := snd k |} in
          v ← keyGenerator_generateTempKeyValue oldType (head (ek_values oldKey));
          makeTempKeyMap rest
            (<[EntityKey_toString oldKey None :=
                 {| ek_entityType := oldType; ek_values := [v] |}]> tempKeyMap)
      end
  end.

(** The loop of [importEntities] over [json.entityGroupMap]. *)
Fixpoint importGroups (groups : list (string * list RawEntity)) (config : ImportConfig)
  : M (list Ref) :=
  match groups with
  | [] => mret []
  | (entityTypeName, jsonGroup) :: groups' =>
      m ← gets em;
      match ms_types (metadataStore m) !! entityTypeName with
      | None => throw "TypeError: cannot read a property of null"
      | Some entityType =>
          targetEntityGroup ← findOrCreateEntityGroup entityType;
          entities ← importEntityGroup targetEntityGroup jsonGroup config;
          others ← importGroups groups' config;
          mret (entities ++ others)%list
      end
  end.

(** [proto.importEntities], for a bundle exported without its metadata;
    [mergeStrategy] is the one of the config, if any. *)
Definition importEntities (json : ExportBundle) (mergeStrategy : option MergeStrategy)
  : M (list Ref * gmap (string * list Value) EntityKey) :=
  m ← gets em;
  (* withDefault(this.queryOptions.mergeStrategy) *)
  let mergeStrategy :=
    match mergeStrategy with
    | Some s => Some s
    | None => qo_mergeStrategy (queryOptions m)
    end in
  tempKeyMap ← makeTempKeyMap (tempKeys json) ∅;
  let config := {| cfg_mergeStrategy := mergeStrategy; cfg_tempKeyMap := tempKeyMap |} in
  modify_em (with_pendingPubs (Some []));;
  entitiesToLink ←
    try_finally
      (entitiesToLink ← importGroups (entityGroupMap json) config;
       forEach entitiesToLink (λ entity,
         aspect ← getAspect entity;
         if negb (isDeleted (entityState aspect))
         then _linkRelatedEntities entity else mret ());;
       mret entitiesToLink)
      (m ← gets em;
       forEach (default [] (_pendingPubs m)) publish;;
       modify_em (with_pendingPubs None);;
       m ← gets em;
       match _hasChangesAction m with
       | Some entity => run_hasChangesAction entity
       | None => mret ()
       end);
  mret (entitiesToLink, tempKeyMap).

End Manager.

(** ** A concrete setting

    Entity types without navigation properties, validators that accept
    everything, an adapter that goes asynchronous without throwing, and an
    overwrite that writes the raw values and the state as they are. *)

(** A stable insertion sort, for [Array.prototype.sort]. *)
Fixpoint insert_by (comparer : Ref → Ref → Z) (x : Ref) (l : list Ref) : list Ref :=
  match l with
  | [] => [x]
  | y :: l' => if (comparer x y <=? 0)%Z then x :: y :: l' else y :: insert_by comparer x l'
  end.

Definition plainCollaborators : Collaborators :=
  {| checkEntityType := λ _ _, true;
     wireRelationships := λ _, mret ();
     relatedEntities := λ _ _, [];
     validateEntity := λ _, mret true;
     checkOperation := λ _ _, mret ();
     _updateTargetFromRaw := λ target rawEntity,
       setProps target (λ p, raw_values rawEntity ∪ p);
     setEntityState := λ entity state, setAspect entity (with_entityState state);
     clock := λ n, Z.of_nat n;
     getUuid := λ _, "00000000-0000-4000-8000-000000000000";
     adapterThrows := λ _, None;
     QueryOptions_defaultInstance :=
       {| qo_fetchStrategy := Some FromServer; qo_mergeStrategy := Some PreserveChanges;
          includeDeleted := Some false |};
     array_sort := λ comparer, foldr (insert_by comparer) [] |}.

Definition Int32 : DataType :=
  {| dt_id := OtherType "Int32"; isNumeric := true; isDate := false;
     dt_defaultValue := VNum 0 |}.

Definition String_ : DataType :=
  {| dt_id := OtherType "String"; isNumeric := false; isDate := false;
     dt_defaultValue := VStr "" |}.

Definition Customer : EntityType :=
  {| et_name := "Customer"; et_metadataStore := 1;
     keyProperties := [ {| dp_name := "id"; dataType := Int32; defaultValue := VNum 0 |} ];
     concurrencyProperties :=
       [ {| dp_name := "rowVersion"; dataType := Int32; defaultValue := VNum 0 |} ];
     navigationProperties := [];
     autoGeneratedKeyType := KeyType_Identity;
     subtypes := [] |}.

(** A key generator in the style of the library's default one: a preferred
    value is used when the generator has not handed it out yet, otherwise
    the next negative number is. *)
Definition counting_next (used : list (string * Value)) (et : EntityType)
    (valueIfAvail : option Value) : Value :=
  let fresh_value := VNum (- Z.of_nat (S (length used))) in
  match valueIfAvail with
  | Some v => if bool_decide ((et_name et, v) ∈ used) then fresh_value else v
  | None => fresh_value
  end.

Definition emptyManager : EntityManager :=
  {| em_id := 1;
     metadataStore := {| ms_id := 1; ms_types := {[ "Customer" := Customer ]} |};
     queryOptions := {| qo_fetchStrategy := Some FromServer;
                        qo_mergeStrategy := Some PreserveChanges;
                        includeDeleted := Some false |};
     saveOptions := {| allowConcurrentSaves := false; resourceName := None |};
     validationOptions := {| validateOnAttach := true; validateOnSave := true;
                             validateOnQuery := false |};
     keyGenerator := {| kg_used := []; kg_next := counting_next |};
     _entityGroupMap := [];
     _hasChanges := false;
     _hasChangesAction := None;
     isLoading := false;
     _pendingPubs := None |}.

Definition emptyWorld : World :=
  {| heap := ∅; em := emptyManager; trace := []; ticks := 0 |}.

Definition run {A} (c : M A) (w : World) : option (A * World) :=
  match c w with Ok a w' => Some (a, w') | _ => None end.

Definition world_after {A} (c : M A) (w : World) : World :=
  match c w with Ok _ w' => w' | Throw _ w' => w' | OutOfFuel => w end.

(** ** Notions used in the statements *)

(** A computation that reads the world without changing it. *)
Definition read_only {A} (c : M A) : Prop :=
  ∀ w a w', c w = Ok a w' → w' = w.

(** What decides how [attachEntity] treats an entity it is handed: its type,
    and the owner and the in-progress mark of its aspect. *)
Definition coreOf (ent : Entity)
  : EntityType * option (option ManagerId * option Ref) :=
  (entityType ent, (λ a, (entityManager a, _inProcessEntity a)) <$> entityAspect ent).

(** The entity at [e] shows [c] to [attachEntity], in the manager [id] over
    the metadata store [ms]. *)
Definition Core (e : Ref) (c : EntityType * option (option ManagerId * option Ref))
    (id : ManagerId) (ms : MetadataStore) (w : World) : Prop :=
  em_id (em w) = id ∧ metadataStore (em w) = ms ∧ coreOf <$> heap w !! e = Some c.

(** [c] keeps [P] whenever it returns. *)
Definition preserves {A} (P : World → Prop) (c : M A) : Prop :=
  ∀ w a w', P w → c w = Ok a w' → P w'.

(** From a world in [P], whenever [c] returns [a], the world is in [Q a]. *)
Definition hoare {A} (P : World → Prop) (c : M A) (Q : A → World → Prop) : Prop :=
  ∀ w a w', P w → c w = Ok a w' → Q a w'.

(** What is assumed of relationship wiring and of validation: they change
    no entity's type, owner or in-progress mark, and leave the identity of
    the manager and of its metadata store alone. *)
Class CollaboratorLaws `{Collaborators} : Prop := {
  wireRelationships_keeps_core e c id ms entity :
    preserves (Core e c id ms) (wireRelationships entity);
  validateEntity_keeps_core e c id ms entity :
    preserves (Core e c id ms) (validateEntity entity)
}.

(** The manager works over the metadata store [ms], and each of its entity
    groups holds the type that [ms] files under the group's name. *)
Definition typedGroups (ms : MetadataStore) (m : EntityManager) : Prop :=
  metadataStore m = ms
  ∧ ∀ name group T,
      lookupGroup name (_entityGroupMap m) = Some group →
      ms_types ms !! name = Some T →
      eg_entityType group = T.

Definition groupsTyped (ms : MetadataStore) (w : World) : Prop :=
  typedGroups ms (em w).

(** What is assumed of the two calls by which an import writes an entity:
    on an entity that is still detached, as the one an import has just
    created, [_updateTargetFromRaw] writes the values the raw entity carries
    and does nothing else; and neither call changes the metadata store of
    the manager or the type of one of its groups. *)
Class ImportLaws `{Collaborators} : Prop := {
  _updateTargetFromRaw_detached target rawEntity w ent a :
    heap w !! target = Some ent →
    entityAspect ent = Some a →
    entityState a = Detached →
    _updateTargetFromRaw target rawEntity w
    = Ok () (with_heap (<[target := with_props (raw_values rawEntity ∪ props ent) ent]>
                          (heap w)) w);
  _updateTargetFromRaw_keeps_types ms target rawEntity :
    preserves (groupsTyped ms) (_updateTargetFromRaw target rawEntity);
  setEntityState_keeps_types ms entity state :
    preserves (groupsTyped ms) (setEntityState entity state)
}.

(** What a caller reads back from an entity. *)
Definition propertyOf (w : World) (entity : Ref) (name : string) : option Value :=
  ent ← heap w !! entity; Some (getProperty ent name).

Definition originalValueOf (w : World) (entity : Ref) (name : string) : option Value :=
  ent ← heap w !! entity; a ← entityAspect ent; originalValues a !! name.

(** The plain setting with an adapter that throws before it goes
    asynchronous. *)
Definition offlineCollaborators : Collaborators :=
  {| checkEntityType := checkEntityType (Collaborators := plainCollaborators);
     wireRelationships := wireRelationships (Collaborators := plainCollaborators);
     relatedEntities := relatedEntities (Collaborators := plainCollaborators);
     validateEntity := validateEntity (Collaborators := plainCollaborators);
     checkOperation := checkOperation (Collaborators := plainCollaborators);
     _updateTargetFromRaw := _updateTargetFromRaw (Collaborators := plainCollaborators);
     setEntityState := setEntityState (Collaborators := plainCollaborators);
     clock := clock (Collaborators := plainCollaborators);
     getUuid := getUuid (Collaborators := plainCollaborators);
     adapterThrows := λ _, Some "NetworkError";
     QueryOptions_defaultInstance :=
       QueryOptions_defaultInstance (Collaborators := plainCollaborators);
     array_sort := array_sort (Collaborators := plainCollaborators) |}.

(** *** The local query, stage by stage *)

Section QueryStages.
Context `{Collaborators}.

(** The entities in the group of one type; a type that has no group yet
    has none. *)
Definition entitiesOfType (w : World) (et : EntityType) : list Ref :=
  match lookupGroup (et_name et) (_entityGroupMap (em w)) with
  | Some group => omap id (_entities group)
  | None => []
  end.

(** The entities cached for a type and all its subtypes, group after
    group. *)
Definition cachedEntities (w : World) (entityType : EntityType) : list Ref :=
  concat (map (entitiesOfType w) (getSelfAndSubtypes entityType)).

(** The options a query runs under: its own, then the manager's, then the
    defaults. *)
Definition resolvedOptions (query : EntityQuery) (w : World) : QueryOptions :=
  QueryOptions_resolve [q_queryOptions query; Some (queryOptions (em w));
                        Some QueryOptions_defaultInstance].

Definition isDeletedIn (w : World) (entity : Ref) : bool :=
  bool_decide (stateOf (heap w) entity = Some Deleted).

Definition satisfiesWhere (query : EntityQuery) (w : World) (entity : Ref) : bool :=
  match wherePredicate query with
  | Some f => f (heap w) entity
  | None => true
  end.

(** The filter as the specification words it: a Deleted entity is excluded "unless
    the query's resolved options include deleted or the effective merge
    strategy would overwrite local deletions anyway". *)
Definition passesFilter_as_specified (query : EntityQuery) (w : World) (entity : Ref) : bool :=
  (bool_decide (includeDeleted (resolvedOptions query w) = Some true)
   || bool_decide (qo_mergeStrategy (resolvedOptions query w) = Some OverwriteChanges)
   || negb (isDeletedIn w entity))
  && satisfiesWhere query w entity.

(** The local query as the specification words it: filter, then order, then skip,
    then take, then project, over the cached entities of the type and its
    subtypes. *)
Definition executeQueryLocally_as_specified (query : EntityQuery) (w : World)
  : list QueryResult :=
  let filtered := List.filter (passesFilter_as_specified query w)
                              (cachedEntities w (fromEntityType query)) in
  let ordered := match orderByClause query with
                 | Some comparer => array_sort (comparer (heap w)) filtered
                 | None => filtered
                 end in
  let skipped := drop (default 0 (skipCount query)) ordered in
  let taken := match takeCount query with
               | Some n => take n skipped
               | None => skipped
               end in
  match selectClause query with
  | Some selectFn => map (λ e, Projected (selectFn (heap w) e)) taken
  | None => map AnEntity taken
  end.

(** An entry of the group map made for one of the types [ets] that had no
    entity group in [w]: the type's name with an empty group of the type. *)
Definition createdAmong (w : World) (ets : list EntityType) (p : string * EntityGroup)
  : Prop :=
  ∃ T, T ∈ ets
       ∧ p = (et_name T, {| eg_entityType := T; _entities := [] |})
       ∧ lookupGroup (et_name T) (_entityGroupMap (em w)) = None.

(** A world that differs from [w] by entity groups that were created empty. *)
Definition withGroupsCreated (created : list (string * EntityGroup)) (w : World) : World :=
  with_em (with_entityGroupMap (_entityGroupMap (em w) ++ created)%list (em w)) w.

End QueryStages.

(** Contacts, of which the customers are a subtype. *)
Definition Contact : EntityType :=
  {| et_name := "Contact"; et_metadataStore := 1;
     keyProperties := [ {| dp_name := "id"; dataType := Int32; defaultValue := VNum 0 |} ];
     concurrencyProperties := [];
     navigationProperties := [];
     autoGeneratedKeyType := KeyType_Identity;
     subtypes := [Customer] |}.

(** A query for the customers that names OverwriteChanges as its merge
    strategy and leaves deleted entities out. *)
Definition customersOverwriting : EntityQuery :=
  {| fromEntityType := Customer;
     wherePredicate := None;
     orderByClause := None;
     skipCount := None;
     takeCount := None;
     selectClause := None;
     inlineCountEnabled := false;
     q_queryOptions := Some {| qo_fetchStrategy := Some FromLocalCache;
                               qo_mergeStrategy := Some OverwriteChanges;
                               includeDeleted := Some false |} |}.

(** The same query for the contacts. *)
Definition contactsOverwriting : EntityQuery :=
  {| fromEntityType := Contact;
     wherePredicate := None;
     orderByClause := None;
     skipCount := None;
     takeCount := None;
     selectClause := None;
     inlineCountEnabled := false;
     q_queryOptions := Some {| qo_fetchStrategy := Some FromLocalCache;
                               qo_mergeStrategy := Some OverwriteChanges;
                               includeDeleted := Some false |} |}.

(** *** The temp keys of an import *)

(** The foreign-key property behind a navigation property of a type, and the
    name of the type the navigation leads to. *)
Definition foreignKeyOf (entityType : EntityType) (npName : string)
  : option (string * string) :=
  np ← List.find (λ np, bool_decide (np_name np = npName))
                 (navigationProperties entityType);
  fkPropName ← head (relatedDataProperties np);
  Some (fkPropName, np_entityType np).

(** The value the temp key map gives for the key [old] of the type named
    [parent]. *)
Definition remintedForeignKey (ms : MetadataStore)
    (tempKeyMap : gmap (string * list Value) EntityKey)
    (parent : string) (old : Value) : option Value :=
  parentType ← ms_types ms !! parent;
  newFk ← getMappedKey tempKeyMap {| ek_entityType := parentType; ek_values := [old] |};
  Some (default VUndefined (head (ek_values newFk))).

(** A metadata store files every type under its own name. *)
Definition namesItsTypes (ms : MetadataStore) : Prop :=
  ∀ name T, ms_types ms !! name = Some T → et_name T = name.

(** What the key generator remembers once it has made a key for each temp
    key of a list, in their order: every key it makes is added to what it
    has handed out. *)
Fixpoint usedAfter (next : list (string * Value) → EntityType → option Value → Value)
    (ms : MetadataStore) (tempKeys : list (string * list Value))
    (used : list (string * Value)) : list (string * Value) :=
  match tempKeys with
  | [] => used
  | k :: rest =>
      match ms_types ms !! k.1 with
      | Some T => usedAfter next ms rest (used ++ [(et_name T, next used T (head k.2))])%list
      | None => used
      end
  end.

(** A world that differs from [w] by what the key generator remembers. *)
Definition withKeysUsed (used : list (string * Value)) (w : World) : World :=
  with_em (with_keyGenerator {| kg_used := used;
                                kg_next := kg_next (keyGenerator (em w)) |} (em w)) w.

(** A customer that belongs to another manager. *)
Definition foreignWorld : World :=
  with_heap {[ 0 := {| entityType := Customer;
                       props := {[ "id" := VNum 7 ]};
                       entityAspect := Some (with_entityManager (Some 2)
                                               (with_entityState Unchanged new_EntityAspect)) |} ]}
            emptyWorld.

(** One new customer, created and attached as Added. *)
Definition oneAddedCustomer : World :=
  world_after (createEntity (H := plainCollaborators) 2 Customer {[ "id" := VNum 0 ]}
                 (Some Added) None) emptyWorld.

(** The same, after a save has been handed to the adapter. *)
Definition oneCustomerBeingSaved : World :=
  world_after (saveChanges (H := plainCollaborators) 1 None None false false)
              oneAddedCustomer.

(** One customer, created and not attached. *)
Definition oneDetachedCustomer : World :=
  world_after (entityType_createEntity Customer {[ "id" := VNum 1 ]}) emptyWorld.

(** One customer with key 1, attached as Unchanged. *)
Definition oneUnchangedCustomer : World :=
  world_after (createEntity (H := plainCollaborators) 2 Customer {[ "id" := VNum 1 ]}
                 (Some Unchanged) None) emptyWorld.

(** A bundle exported by a manager that had added one customer under the
    temp key -1. *)
Definition importedCustomer : RawEntity :=
  {| raw_values := {[ "id" := VNum (-1); "name" := VStr "imported" ]};
     raw_entityState := Some Added;
     tempNavPropNames := None |}.

Definition bundleWithTempKey : ExportBundle :=
  {| entityGroupMap := [("Customer", [importedCustomer])];
     tempKeys := [("Customer", [VNum (-1)])] |}.

(** A raw customer with key 1, exported as Modified. *)
Definition modifiedCustomer : RawEntity :=
  {| raw_values := {[ "id" := VNum 1; "name" := VStr "renamed" ]};
     raw_entityState := Some Modified;
     tempNavPropNames := None |}.

(** The group of the customers in a world. *)
Definition customers (w : World) : EntityGroup :=
  default {| eg_entityType := Customer; _entities := [] |}
          (lookupGroup "Customer" (_entityGroupMap (em w))).

(** Orders, each with a navigation property to its customer behind the
    foreign key [customerId]. *)
Definition Order : EntityType :=
  {| et_name := "Order"; et_metadataStore := 1;
     keyProperties := [ {| dp_name := "id"; dataType := Int32; defaultValue := VNum 0 |} ];
     concurrencyProperties := [];
     navigationProperties :=
       [ {| np_name := "customer"; np_entityType := "Customer";
            relatedDataProperties := ["customerId"] |} ];
     autoGeneratedKeyType := KeyType_Identity;
     subtypes := [] |}.

(** An empty manager whose metadata store knows customers and orders and
    that has a group for the orders. *)
Definition shopWorld : World :=
  with_em
    {| em_id := 1;
       metadataStore := {| ms_id := 1;
                           ms_types := {[ "Customer" := Customer; "Order" := Order ]} |};
       queryOptions := queryOptions emptyManager;
       saveOptions := saveOptions emptyManager;
       validationOptions := validationOptions emptyManager;
       keyGenerator := keyGenerator emptyManager;
       _entityGroupMap := [("Order", {| eg_entityType := Order; _entities := [] |})];
       _hasChanges := false;
       _hasChangesAction := None;
       isLoading := false;
       _pendingPubs := None |}
    emptyWorld.

(** A new order of a new customer, as exported: both keys are temp keys. *)
Definition importedOrder : RawEntity :=
  {| raw_values := {[ "id" := VNum (-1); "customerId" := VNum (-1) ]};
     raw_entityState := Some Added;
     tempNavPropNames := Some ["customer"] |}.

(** The shop after a customer has been created in it: the key generator
    has handed out customer -1. *)
Definition shopWithCustomer : World :=
  world_after (createEntity (H := plainCollaborators) 2 Customer {[ "id" := VNum 0 ]}
                 (Some Added) None) shopWorld.

(** A bundle exported by another manager: a new customer and a new order of
    that customer, both under the temp key -1 of their type. *)
Definition shopBundle : ExportBundle :=
  {| entityGroupMap := [("Customer", [importedCustomer]); ("Order", [importedOrder])];
     tempKeys := [("Customer", [VNum (-1)]); ("Order", [VNum (-1)])] |}.

(** ** Further methods of the manager *)

(** *** Looking an entity up by its key *)

(** [proto._findEntityGroup] *)
Definition _findEntityGroup (entityType : EntityType) (m : EntityManager)
  : option EntityGroup :=
  lookupGroup (et_name entityType) (_entityGroupMap m).

(** [proto.getEntityByKey], for the overload that is handed an EntityKey. *)
Definition getEntityByKey (entityKey : EntityKey) (w : World) : option Ref :=
  let entityTypes := default [ek_entityType entityKey] (EntityKey_subtypes entityKey) in
  (* hack use of some to simulate mapFirst logic. *)
  head (omap (λ et,
                group ← _findEntityGroup et (em w);
                (* group version of findEntityByKey doesn't care about entityType *)
                group_findEntityByKey (heap w) group (ek_values entityKey))
             entityTypes).

(** [proto.findEntityByKey] (deprecated) *)
Definition findEntityByKey (entityKey : EntityKey) (w : World) : option Ref :=
  getEntityByKey entityKey w.

(** What [fetchEntityByKeyCore] returns: a promise already resolved with
    [{ entity, entityKey, fromCache: true }], or the promise chained on the
    one that the execution of the key's query returns. *)
Inductive FetchByKey (P : Type) :=
  | ResolvedFromCache (entity : option Ref)
  | FromQuery (promise : P).
Arguments ResolvedFromCache {P} entity.
Arguments FromQuery {P} promise.

(** [fetchEntityByKeyCore(em, args)], after [createEntityKey] has read the
    arguments: [checkLocalCacheFirst] is [false] when it was not passed.
    [execute] is [EntityQuery.fromEntityKey(entityKey).using(em).execute()];
    EntityQuery is declared in another file, and the call is made, for
    whatever it does to the manager before it hands back its promise, when
    the cache has not answered. *)
Definition fetchEntityByKeyCore {P} (execute : EntityKey → M P)
    (entityKey : EntityKey) (checkLocalCacheFirst : bool) : M (FetchByKey P) :=
  found ←
    (if checkLocalCacheFirst then
       entity ← gets (getEntityByKey entityKey);
       m ← gets em;
       match entity with
       | Some cached =>
           excluded ←
             (if negb (bool_decide (includeDeleted (queryOptions m) = Some true)) then
                aspect ← getAspect cached;
                mret (isDeleted (entityState aspect))
              else mret false);
           if (excluded : bool) then
             (* null the entity if it is deleted and we should exclude deleted
                entities, but resume looking if we'd overwrite deleted entity
                with a remote entity *)
             mret (None, negb (bool_decide (qo_mergeStrategy (queryOptions m)
                                            = Some OverwriteChanges)))
           else mret (Some cached, true)
       | None => mret (None, false)
       end
     else mret (None, false));
  let '(entity, foundIt) := found in
  if (foundIt : bool) then mret (ResolvedFromCache entity)
  else
    promise ← execute entityKey;
    mret (FromQuery promise).

Section More.
Context `{Collaborators}.

(** [proto.addEntity] *)
Definition addEntity (fuel : nat) (entity : Ref) : M Ref :=
  attachEntity fuel entity (Some Added) None.

(** *** Clearing the cache *)

(** Modelled from the spec: EntityGroup._clear is not in this file; an
    entity is "destroyed (removed from its EntityGroup, aspect's manager
    reference cleared) on detach, successful deletion-save, or manager
    clear", and the clearing as a whole is "a cache-wide event". *)
Definition group__clear (group : EntityGroup) : M unit :=
  forEach (omap id (_entities group))
          (λ entity, setAspect entity
                       (λ a, with_entityManager None (with_entityState Detached a))).

(** The first statement of [proto.clear]: every group is checked, then
    every group is cleared.  [group_checkOperation] is
    [entityGroup._checkOperation()], declared with EntityGroup in another
    file; it returns the group it is called on. *)
Definition checkAndClearGroups (group_checkOperation : EntityGroup → M unit) : M unit :=
  groups ← gets (λ w, _entityGroupMap (em w));
  forEach (map snd groups) group_checkOperation;;
  forEach (map fst groups)
          (λ name,
             group ← gets (λ w, lookupGroup name (_entityGroupMap (em w)));
             match group with
             | Some group => group__clear group
             | None => mret ()
             end).

(** [proto.clear].  The buffer of unattached children, which [clear]
    replaces by an empty one, is state of the relationship wiring. *)
Definition clear (group_checkOperation : EntityGroup → M unit) : M unit :=
  checkAndClearGroups group_checkOperation;;
  modify_em (with_entityGroupMap []);;
  (* this.keyGenerator = new this.keyGeneratorCtor() *)
  modify_em (λ m, with_keyGenerator
                    {| kg_used := []; kg_next := kg_next (keyGenerator m) |} m);;
  publish (EntityChanged Clear None);;
  _setHasChanges (Some false).

End More.

(** *** Exporting: the groups that are exported *)

(** The argument [entities] of [exportEntities]: omitted, an array of
    entities, or an array of entity types (names are resolved by
    [checkEntityTypes]). *)
Inductive ExportSelection :=
  | ExportAll
  | ExportEntities (entities : list Ref)
  | ExportTypes (entityTypes : list EntityType).

(** The loop of [exportEntityGroups] over an array of entities: "group
    entities by entityType and create 'groups' that look like
    entityGroups". *)
Fixpoint groupForExport (entities : list Ref) (entityGroupMap : list (string * EntityGroup))
  : M (list (string * EntityGroup)) :=
  match entities with
  | [] => mret entityGroupMap
  | e :: entities' =>
      ent ← getEntity e;
      aspect ← getAspect e;
      if bool_decide (entityState aspect = Detached)
      then throw "Unable to export an entity with an EntityState of 'Detached'"
      else
        let name := et_name (entityType ent) in
        let group := default {| eg_entityType := entityType ent; _entities := [] |}
                             (lookupGroup name entityGroupMap) in
        groupForExport entities'
          (storeGroup name (with_entities (_entities group ++ [Some e])%list group)
                      entityGroupMap)
  end.

(** The loop of [exportEntityGroups] over an array of entity types: the
    group of each type, if the manager has one that is not empty. *)
Fixpoint groupsOfTypes (groupMap : list (string * EntityGroup)) (entityTypes : list EntityType)
    (entityGroupMap : list (string * EntityGroup)) : list (string * EntityGroup) :=
  match entityTypes with
  | [] => entityGroupMap
  | et :: entityTypes' =>
      groupsOfTypes groupMap entityTypes'
        (match lookupGroup (et_name et) groupMap with
         | Some group =>
             if bool_decide (0 < length (_entities group))
             then storeGroup (et_name et) group entityGroupMap
             else entityGroupMap
         | None => entityGroupMap
         end)
  end.

(** The first part of [exportEntityGroups(em, entities)], which chooses the
    [entityGroupMap] that is then serialized group by group. *)
Definition exportedGroups (entities : ExportSelection) : M (list (string * EntityGroup)) :=
  match entities with
  | ExportEntities ((_ :: _) as entities) => groupForExport entities []
  | ExportTypes ((_ :: _) as entityTypes) =>
      groupMap ← gets (λ w, _entityGroupMap (em w));
      mret (groupsOfTypes groupMap entityTypes [])
  | ExportEntities [] | ExportTypes [] =>
      (* empty array = export nothing *)
      mret []
  | ExportAll => gets (λ w, _entityGroupMap (em w))
  end.

(** ** UnattachedChildrenMap

    Navigation properties are objects of the metadata and the buffer
    compares them by identity ([===]); [NP] is the type of these
    identities.  [baseTypes] gives, for an entity type, the chain of its
    [baseEntityType]s, nearest first. *)

Section UnattachedChildren.
Context {NP : Type} `{EqDecision NP}.
Variable baseTypes : EntityType → list EntityType.

(** [{ navigationProperty, children }] *)
Record Tuple := {
  navigationProperty : NP;
  children : list Ref
}.

(** [new UnattachedChildrenMap()]; of [this.map], key is
    EntityKey.toString(), value is array of { navigationProperty, children } *)
Definition new_UnattachedChildrenMap : gmap (string * list Value) (list Tuple) := ∅.

(** The loop of [getTuples]: while no array has been found and there is a
    base type left, the key is read as a key of that base type. *)
Fixpoint getTuples_loop (map : gmap (string * list Value) (list Tuple)) (parentEntityKey : EntityKey)
    (tuples : option (list Tuple)) (bases : list EntityType) : option (list Tuple) :=
  match tuples, bases with
  | None, entityType :: bases' =>
      let baseKey := EntityKey_toString parentEntityKey (Some entityType) in
      getTuples_loop map parentEntityKey (map !! baseKey) bases'
  | _, _ => tuples
  end.

(** [UnattachedChildrenMap.prototype.getTuples] *)
Definition getTuples (map : gmap (string * list Value) (list Tuple)) (parentEntityKey : EntityKey)
  : option (list Tuple) :=
  getTuples_loop map parentEntityKey
    (map !! EntityKey_toString parentEntityKey None)
    (baseTypes (ek_entityType parentEntityKey)).

(** The array that [getTuples] returns is the one held by the map; this is
    the key it is held under, so that what is done to the array is done to
    the map. *)
Fixpoint tuplesKey_loop (map : gmap (string * list Value) (list Tuple)) (parentEntityKey : EntityKey)
    (key : string * list Value) (bases : list EntityType) : option (string * list Value) :=
  match map !! key, bases with
  | None, entityType :: bases' =>
      tuplesKey_loop map parentEntityKey
        (EntityKey_toString parentEntityKey (Some entityType)) bases'
  | None, [] => None
  | Some _, _ => Some key
  end.

Definition tuplesKey (map : gmap (string * list Value) (list Tuple)) (parentEntityKey : EntityKey)
  : option (string * list Value) :=
  tuplesKey_loop map parentEntityKey (EntityKey_toString parentEntityKey None)
    (baseTypes (ek_entityType parentEntityKey)).

(** [function (t) { return t.navigationProperty === navigationProperty; }] *)
Definition isFor (np : NP) (t : Tuple) : bool :=
  bool_decide (navigationProperty t = np).

(** [UnattachedChildrenMap.prototype.getTuple] *)
Definition getTuple (map : gmap (string * list Value) (list Tuple)) (parentEntityKey : EntityKey)
    (np : NP) : option Tuple :=
  tuples ← getTuples map parentEntityKey;
  (* __arrayFirst *)
  List.find (isFor np) tuples.

(** [tuple.children.push(child)] on the tuple that [getTuple] found in an
    array. *)
Fixpoint pushChild (np : NP) (child : Ref) (tuples : list Tuple) : list Tuple :=
  match tuples with
  | [] => []
  | t :: tuples' =>
      if isFor np t
      then {| navigationProperty := np; children := (children t ++ [child])%list |} :: tuples'
      else t :: pushChild np child tuples'
  end.

(** [UnattachedChildrenMap.prototype.addChild] *)
Definition addChild (map : gmap (string * list Value) (list Tuple)) (parentEntityKey : EntityKey)
    (np : NP) (child : Ref) : gmap (string * list Value) (list Tuple) :=
  match getTuple map parentEntityKey np with
  | None =>
      let key := EntityKey_toString parentEntityKey None in
      (* __getArray(this.map, key).push(tuple); tuple.children.push(child) *)
      <[key := (default [] (map !! key)
                ++ [{| navigationProperty := np; children := [child] |}])%list]> map
  | Some _ =>
      match tuplesKey map parentEntityKey with
      | Some key => alter (pushChild np child) key map
      | None => map
      end
  end.

(** Modelled from the spec: __arrayRemoveItem is not in this file; "remove
    the drained tuple from the buffer".  Of several items that satisfy the
    predicate the last one is removed. *)
Fixpoint arrayRemoveItem {A} (p : A → bool) (l : list A) : list A :=
  match l with
  | [] => []
  | x :: l' => if p x && negb (existsb p l') then l' else x :: arrayRemoveItem p l'
  end.

(** [UnattachedChildrenMap.prototype.removeChildren] *)
Definition removeChildren (map : gmap (string * list Value) (list Tuple)) (parentEntityKey : EntityKey)
    (np : NP) : gmap (string * list Value) (list Tuple) :=
  match tuplesKey map parentEntityKey with
  | None => map
  | Some key =>
      let map' := alter (arrayRemoveItem (isFor np)) key map in
      match map' !! key with
      | Some [] => delete (EntityKey_toString parentEntityKey None) map'
      | _ => map'
      end
  end.

(** [UnattachedChildrenMap.prototype.getChildren]; [None] is [null]. *)
Definition getChildren (map : gmap (string * list Value) (list Tuple)) (parentEntityKey : EntityKey)
    (np : NP) : M (option (list Ref)) :=
  match getTuple map parentEntityKey np with
  | Some tuple =>
      attached ← filterM (λ child,
                    (* it may have later been detached. *)
                    aspect ← getAspect child;
                    mret (negb (isDetached (entityState aspect))))
                  (children tuple);
      mret (Some attached)
  | None => mret None
  end.

End UnattachedChildren.

(** ** Notions used in the further statements *)

(** The aspect of an entity, if the entity is in the store and has one. *)
Definition aspectOf (w : World) (entity : Ref) : option EntityAspect :=
  ent ← heap w !! entity; entityAspect ent.

(** Whether an aspect holds a validation error that came from the server. *)
Definition hasServerError (a : EntityAspect) : bool :=
  existsb isServerError (_validationErrors a).

(** Two states of a manager that differ at most by the cached flag
    [_hasChanges] and the deferred recomputation [_hasChangesAction]. *)
Definition sameButFlag (m m' : EntityManager) : Prop :=
  em_id m' = em_id m
  ∧ metadataStore m' = metadataStore m
  ∧ queryOptions m' = queryOptions m
  ∧ saveOptions m' = saveOptions m
  ∧ validationOptions m' = validationOptions m
  ∧ keyGenerator m' = keyGenerator m
  ∧ _entityGroupMap m' = _entityGroupMap m
  ∧ isLoading m' = isLoading m
  ∧ _pendingPubs m' = _pendingPubs m.

(** A buffer in which no array lists a navigation property twice and no
    tuple is without children. *)
Definition wellFormed {NP : Type}
    (map : gmap (string * list Value) (list (Tuple (NP := NP)))) : Prop :=
  ∀ key tuples,
    map !! key = Some tuples →
    NoDup (navigationProperty <$> tuples) ∧ Forall (λ t, children t ≠ []) tuples.

(** The children buffered for a navigation property of a parent key. *)
Definition buffered {NP : Type} `{EqDecision NP} (baseTypes : EntityType → list EntityType)
    (map : gmap (string * list Value) (list (Tuple (NP := NP))))
    (parentEntityKey : EntityKey) (np : NP) : list Ref :=
  from_option children [] (getTuple baseTypes map parentEntityKey np).

(** The entity has an aspect whose [isBeingSaved] is the flag. *)
Definition Marked (entity : Ref) (flag : bool) (w : World) : Prop :=
  isBeingSaved <$> aspectOf w entity = Some flag.

(** The name of the type of an entity of the store. *)
Definition typeNameOf (w : World) (entity : Ref) : option string :=
  (λ ent, et_name (entityType ent)) <$> heap w !! entity.

(** The slots of the group filed under a name, none if there is no such
    group. *)
Definition slotsOf (name : string) (groups : list (string * EntityGroup))
  : list (option Ref) :=
  from_option _entities [] (lookupGroup name groups).

(** ** Further concrete settings *)

(** The customer with key 1 of [oneUnchangedCustomer], marked Deleted. *)
Definition oneDeletedCustomer : World :=
  world_after (setAspect 0 (with_entityState Deleted)) oneUnchangedCustomer.

(** The same customer with one validation error of each origin. *)
Definition customerWithServerError : World :=
  world_after (setAspect 0 (with_validationErrors
                              [ {| ve_key := "required:name"; isServerError := false |};
                                {| ve_key := "server:name"; isServerError := true |} ]))
              oneUnchangedCustomer.

(** The aspect and the entity that [oneUnchangedCustomer] holds. *)
Definition unchangedAspect : EntityAspect :=
  with_entityManager (Some 1) (with_entityState Unchanged new_EntityAspect).

Definition unchangedCustomer : Entity :=
  {| entityType := Customer; props := {[ "id" := VNum 1 ]};
     entityAspect := Some unchangedAspect |}.

Definition rowVersion : DataProperty :=
  {| dp_name := "rowVersion"; dataType := Int32; defaultValue := VNum 0 |}.

Definition DateTime : DataType :=
  {| dt_id := OtherType "DateTime"; isNumeric := false; isDate := true;
     dt_defaultValue := VDate 0 |}.

Definition lastModified : DataProperty :=
  {| dp_name := "lastModified"; dataType := DateTime; defaultValue := VDate 0 |}.

(** A manager that has changes, in the middle of a load. *)
Definition loadingWithChanges : World :=
  with_em (with_isLoading true (em oneAddedCustomer)) oneAddedCustomer.

(** Products, whose keys are not generated. *)
Definition Product : EntityType :=
  {| et_name := "Product"; et_metadataStore := 1;
     keyProperties := [ {| dp_name := "id"; dataType := Int32; defaultValue := VNum 0 |} ];
     concurrencyProperties := [];
     navigationProperties := [];
     autoGeneratedKeyType := KeyType_None;
     subtypes := [] |}.

(** One product whose key was never set, created and not attached. *)
Definition oneDetachedProduct : World :=
  world_after (entityType_createEntity Product {[ "id" := VNum 0 ]}) emptyWorld.

Definition productAspect : EntityAspect := new_EntityAspect.

Definition unsetProduct : Entity :=
  {| entityType := Product; props := {[ "id" := VNum 0 ]};
     entityAspect := Some productAspect |}.

Definition customerOne : EntityKey :=
  {| ek_entityType := Customer; ek_values := [VNum 1] |}.

(** Employees are persons. *)
Definition Person : EntityType :=
  {| et_name := "Person"; et_metadataStore := 1;
     keyProperties := [ {| dp_name := "id"; dataType := Int32; defaultValue := VNum 0 |} ];
     concurrencyProperties := [];
     navigationProperties := [];
     autoGeneratedKeyType := KeyType_Identity;
     subtypes := [] |}.

Definition Employee : EntityType :=
  {| et_name := "Employee"; et_metadataStore := 1;
     keyProperties := [ {| dp_name := "id"; dataType := Int32; defaultValue := VNum 0 |} ];
     concurrencyProperties := [];
     navigationProperties := [];
     autoGeneratedKeyType := KeyType_Identity;
     subtypes := [] |}.

Definition personnel (et : EntityType) : list EntityType :=
  if bool_decide (et_name et = "Employee") then [Person] else [].

Definition flat (et : EntityType) : list EntityType := [].

Definition employeeOne : EntityKey :=
  {| ek_entityType := Employee; ek_values := [VNum 1] |}.

(** A buffer that holds entity 0 as a child, behind the navigation property
    [orders], of the person with key 1. *)
Definition ordersOfPersonOne : gmap (string * list Value) (list (Tuple (NP := string))) :=
  {[ ("Person", [VNum 1]) := [ {| navigationProperty := "orders"; children := [0] |} ] ]}.

(** The same for the customer with key 1. *)
Definition ordersOfCustomerOne : gmap (string * list Value) (list (Tuple (NP := string))) :=
  {[ ("Customer", [VNum 1]) := [ {| navigationProperty := "orders"; children := [0] |} ] ]}.

(** * Properties *)

Open Scope list_scope.

(** ** Reasoning about the monad *)

Lemma bind_Ok {A B} (c : M A) (f : A → M B) w a w' :
  c w = Ok a w' → (c ≫= f) w = f a w'.
Proof. intros Hc. unfold mbind, M_bind. by rewrite Hc. Qed.

Lemma bind_Throw {A B} (c : M A) (f : A → M B) w msg w' :
  c w = Throw msg w' → (c ≫= f) w = Throw msg w'.
Proof. intros Hc. unfold mbind, M_bind. by rewrite Hc. Qed.

Lemma bind_inv_Ok {A B} (c : M A) (f : A → M B) w b w' :
  (c ≫= f) w = Ok b w' → ∃ a w1, c w = Ok a w1 ∧ f a w1 = Ok b w'.
Proof.
  unfold mbind, M_bind. destruct (c w) as [a w1| |]; [eauto|done|done].
Qed.

(** A call that returns, by its result and the world it leaves. *)
Lemma run_Ok {A} (c : M A) (w : World) (a : A) :
  fst <$> run c w = Some a → c w = Ok a (world_after c w).
Proof.
  unfold run, world_after. destruct (c w); simpl; [|done|done].
  by intros [= ->].
Qed.

Lemma getEntity_Ok e w ent : heap w !! e = Some ent → getEntity e w = Ok ent w.
Proof. intros Hl. unfold getEntity. by rewrite Hl. Qed.

Lemma getEntity_inv e w ent w' :
  getEntity e w = Ok ent w' → w' = w ∧ heap w !! e = Some ent.
Proof. unfold getEntity. destruct (heap w !! e); naive_solver. Qed.

Lemma getAspect_Ok e w ent a :
  heap w !! e = Some ent → entityAspect ent = Some a → getAspect e w = Ok a w.
Proof.
  intros Hl Ha. unfold getAspect. rewrite (bind_Ok _ _ _ _ _ (getEntity_Ok _ _ _ Hl)).
  by rewrite Ha.
Qed.

Lemma getAspect_inv e w a w' :
  getAspect e w = Ok a w' →
  w' = w ∧ ∃ ent, heap w !! e = Some ent ∧ entityAspect ent = Some a.
Proof.
  intros Hg. apply bind_inv_Ok in Hg as (ent & w1 & Hent & Hrest).
  apply getEntity_inv in Hent as [-> Hl].
  destruct (entityAspect ent) eqn:Ha; [|done].
  injection Hrest as -> ->. eauto.
Qed.

Lemma read_only_filterM {A} (f : A → M bool) (l : list A) :
  (∀ x, read_only (f x)) → read_only (filterM f l).
Proof.
  intros Hf. induction l as [|x l IH]; intros w r w' Hr; simpl in Hr.
  - by injection Hr as _ ->.
  - apply bind_inv_Ok in Hr as (keep & w1 & Hx & Hr).
    apply Hf in Hx as ->.
    apply bind_inv_Ok in Hr as (rest & w2 & Hl & Hr).
    apply IH in Hl as ->. by injection Hr as _ ->.
Qed.

(** ** Frame rules: what a call keeps of an entity it is not attaching *)

Lemma preserves_ret {A} P (a : A) : preserves P (mret a).
Proof. intros w a' w' HP Hr. by injection Hr as _ <-. Qed.

Lemma preserves_throw {A} P message : preserves P (@throw A message).
Proof. by intros w a w' HP Hr. Qed.

Lemma preserves_gets {A} P (f : World → A) : preserves P (gets f).
Proof. intros w a w' HP Hr. by injection Hr as _ <-. Qed.

Lemma preserves_bind {A B} P (c : M A) (f : A → M B) :
  preserves P c → (∀ a, preserves P (f a)) → preserves P (c ≫= f).
Proof.
  intros Hc Hf w b w' HP Hr.
  apply bind_inv_Ok in Hr as (a & w1 & Hc1 & Hf1).
  eapply Hf; [|done]. by eapply Hc.
Qed.

Lemma preserves_modify P (f : World → World) :
  (∀ w, P w → P (f w)) → preserves P (modify f).
Proof. intros Hf w a w' HP Hr. injection Hr as _ <-. by apply Hf. Qed.

Lemma preserves_try_finally {A} P (body : M A) (cleanup : M unit) :
  preserves P body → preserves P cleanup → preserves P (try_finally body cleanup).
Proof.
  intros Hb Hc w a w' HP Hr. unfold try_finally in Hr.
  destruct (body w) as [a1 w1|msg w1|] eqn:Hbody; [| |done].
  - destruct (cleanup w1) as [[] w2| |] eqn:Hclean; [|done|done].
    injection Hr as _ <-. eapply Hc; [|done]. by eapply Hb.
  - by destruct (cleanup w1).
Qed.

Lemma preserves_forEach {A} P (l : list A) (f : A → M unit) :
  (∀ x, preserves P (f x)) → preserves P (forEach l f).
Proof.
  intros Hf. induction l as [|x l IH]; simpl.
  - apply preserves_ret.
  - apply preserves_bind; [apply Hf|]. by intros _.
Qed.

Lemma preserves_filterM {A} P (f : A → M bool) (l : list A) :
  (∀ x, preserves P (f x)) → preserves P (filterM f l).
Proof.
  intros Hf. induction l as [|x l IH]; simpl.
  - apply preserves_ret.
  - apply preserves_bind; [apply Hf|]. intros keep.
    apply preserves_bind; [apply IH|]. intros rest. apply preserves_ret.
Qed.

Lemma hoare_bind {A B} P (c : M A) (f : A → M B) Q R :
  hoare P c Q → (∀ a, hoare (Q a) (f a) R) → hoare P (c ≫= f) R.
Proof.
  intros Hc Hf w b w' HP Hr.
  apply bind_inv_Ok in Hr as (a & w1 & Hc1 & Hf1).
  eapply Hf; [|done]. by eapply Hc.
Qed.

Lemma hoare_preserves {A} P (c : M A) : preserves P c → hoare P c (λ _, P).
Proof. done. Qed.

Lemma hoare_try_finally {A} P (body : M A) (cleanup : M unit) Q R :
  hoare P body Q → (∀ a, hoare (Q a) cleanup (λ _, R a)) →
  hoare P (try_finally body cleanup) R.
Proof.
  intros Hb Hc w a w' HP Hr. unfold try_finally in Hr.
  destruct (body w) as [a1 w1|msg w1|] eqn:Hbody; [| |done].
  - destruct (cleanup w1) as [[] w2| |] eqn:Hclean; [|done|done].
    injection Hr as <- <-. eapply Hc; [|done]. by eapply Hb.
  - by destruct (cleanup w1).
Qed.

(** What a call that goes through the store keeps of the manager. *)

Lemma preserves_em_getEntity (P : EntityManager → Prop) e :
  preserves (λ w, P (em w)) (getEntity e).
Proof. intros w a w' HP Hr. by apply getEntity_inv in Hr as [-> _]. Qed.

Lemma preserves_em_getAspect (P : EntityManager → Prop) e :
  preserves (λ w, P (em w)) (getAspect e).
Proof. intros w a w' HP Hr. by apply getAspect_inv in Hr as [-> _]. Qed.

Lemma preserves_em_setProps (P : EntityManager → Prop) e f :
  preserves (λ w, P (em w)) (setProps e f).
Proof.
  intros w a w' HP Hr.
  apply bind_inv_Ok in Hr as (ent & w1 & Hent & Hr).
  apply getEntity_inv in Hent as [-> Hent]. by injection Hr as _ <-.
Qed.

Lemma preserves_em_setAspect (P : EntityManager → Prop) e f :
  preserves (λ w, P (em w)) (setAspect e f).
Proof.
  intros w u w' HP Hr.
  apply bind_inv_Ok in Hr as (ent & w1 & Hent & Hr).
  apply getEntity_inv in Hent as [-> Hent].
  apply bind_inv_Ok in Hr as (a & w1 & Ha & Hr).
  apply getAspect_inv in Ha as [-> _]. by injection Hr as _ <-.
Qed.

Lemma preserves_em_publish (P : EntityManager → Prop) p :
  preserves (λ w, P (em w)) (publish p).
Proof. intros w u w' HP Hr. by injection Hr as _ <-. Qed.

Lemma preserves_em_modify_em (P : EntityManager → Prop) f :
  (∀ m, P m → P (f m)) → preserves (λ w, P (em w)) (modify_em f).
Proof. intros Hf w u w' HP Hr. injection Hr as _ <-. by apply Hf. Qed.

Section Frame.
Context (e : Ref) (c : EntityType * option (option ManagerId * option Ref))
        (id : ManagerId) (ms : MetadataStore).

Lemma Core_with_em (f : EntityManager → EntityManager) w :
  (∀ m, em_id (f m) = em_id m ∧ metadataStore (f m) = metadataStore m) →
  Core e c id ms w → Core e c id ms (with_em (f (em w)) w).
Proof.
  intros Hf (Hid & Hms & Hcore). destruct (Hf (em w)) as [Hid' Hms'].
  split_and!; simpl; [by rewrite Hid'|by rewrite Hms'|done].
Qed.

Lemma preserves_modify_em (f : EntityManager → EntityManager) :
  (∀ m, em_id (f m) = em_id m ∧ metadataStore (f m) = metadataStore m) →
  preserves (Core e c id ms) (modify_em f).
Proof. intros Hf. apply preserves_modify. intros w. by apply Core_with_em. Qed.

Lemma Core_insert_ne e' ent' w :
  e' ≠ e → Core e c id ms w → Core e c id ms (with_heap (<[e' := ent']> (heap w)) w).
Proof.
  intros Hne (Hid & Hms & Hcore). split_and!; [done|done|].
  simpl. by rewrite lookup_insert_ne.
Qed.

Lemma Core_insert_same e' ent ent' w :
  heap w !! e' = Some ent → coreOf ent' = coreOf ent →
  Core e c id ms w → Core e c id ms (with_heap (<[e' := ent']> (heap w)) w).
Proof.
  intros Hent Hsame (Hid & Hms & Hcore). split_and!; [done|done|].
  simpl. destruct (decide (e' = e)) as [->|Hne].
  - rewrite lookup_insert_eq. rewrite Hent in Hcore. simpl in *. by rewrite Hsame.
  - by rewrite lookup_insert_ne.
Qed.

Lemma preserves_emit x : preserves (Core e c id ms) (emit x).
Proof. apply preserves_modify. by intros w (? & ? & ?). Qed.

Lemma preserves_publish p : preserves (Core e c id ms) (publish p).
Proof. apply preserves_emit. Qed.

Lemma preserves_getEntity e' : preserves (Core e c id ms) (getEntity e').
Proof. intros w a w' HP Hr. by apply getEntity_inv in Hr as [-> _]. Qed.

Lemma preserves_getAspect e' : preserves (Core e c id ms) (getAspect e').
Proof. intros w a w' HP Hr. by apply getAspect_inv in Hr as [-> _]. Qed.

Lemma preserves_setProps e' f : preserves (Core e c id ms) (setProps e' f).
Proof.
  intros w a w' HP Hr.
  apply bind_inv_Ok in Hr as (ent & w1 & Hent & Hr).
  apply getEntity_inv in Hent as [-> Hent].
  injection Hr as _ <-. by eapply Core_insert_same.
Qed.

Lemma preserves_setAspect e' (f : EntityAspect → EntityAspect) :
  e' ≠ e ∨ (∀ a, entityManager (f a) = entityManager a
                 ∧ _inProcessEntity (f a) = _inProcessEntity a) →
  preserves (Core e c id ms) (setAspect e' f).
Proof.
  intros Hf w u w' HP Hr.
  apply bind_inv_Ok in Hr as (ent & w1 & Hent & Hr).
  apply getEntity_inv in Hent as [-> Hent].
  apply bind_inv_Ok in Hr as (a & w1 & Ha & Hr).
  apply getAspect_inv in Ha as [-> (ent' & Hent' & Ha)].
  assert (ent' = ent) as -> by congruence.
  injection Hr as _ <-.
  destruct Hf as [Hne|Hf]; [by apply Core_insert_ne|].
  eapply Core_insert_same; [done| |done].
  unfold coreOf. simpl. rewrite Ha. simpl. by destruct (Hf a) as [-> ->].
Qed.

End Frame.

Lemma setProps_Ok e f w ent :
  heap w !! e = Some ent →
  setProps e f w = Ok () (with_heap (<[e := with_props (f (props ent)) ent]> (heap w)) w).
Proof.
  intros Hent. unfold setProps.
  by rewrite (bind_Ok _ _ _ _ _ (getEntity_Ok _ _ _ Hent)).
Qed.

Lemma setAspect_Ok e f w ent a :
  heap w !! e = Some ent → entityAspect ent = Some a →
  setAspect e f w
  = Ok () (with_heap (<[e := with_entityAspect (Some (f a)) ent]> (heap w)) w).
Proof.
  intros Hent Ha. unfold setAspect.
  rewrite (bind_Ok _ _ _ _ _ (getEntity_Ok _ _ _ Hent)).
  by rewrite (bind_Ok _ _ _ _ _ (getAspect_Ok _ _ _ _ Hent Ha)).
Qed.

Section Properties.
Context `{Collaborators}.

Lemma getEntitiesToSave_read_only entities : read_only (getEntitiesToSave entities).
Proof.
  destruct entities as [l|]; simpl.
  - apply read_only_filterM. intros e w b w' Hb.
    apply bind_inv_Ok in Hb as (a & w1 & Ha & Hb).
    apply getAspect_inv in Ha as [-> _].
    apply bind_inv_Ok in Hb as (m & w2 & Hm & Hb).
    injection Hm as _ <-.
    destruct (negb _); [done|]. by injection Hb as _ ->.
  - intros w a w' Hg. by injection Hg as _ ->.
Qed.


(** ** rejectChanges without changes *)

(** C10. When the cached flag [_hasChanges] is false, [rejectChanges()]
    returns the empty array and leaves the whole world as it was: no entity
    and no group is touched, and nothing is published (the trace of
    publications is part of the world). *)
Theorem rejectChanges_without_changes (w : World) :
  _hasChanges (em w) = false → rejectChanges w = Ok [] w.
Proof.
  intros Hflag. unfold rejectChanges.
  rewrite (bind_Ok _ _ w (em w) w) by done.
  by rewrite Hflag.
Qed.

(** ** saveChanges before the adapter is called *)


(** C5. With [allowConcurrentSaves] false, a save whose set of entities to
    save contains an entity that is already being saved is rejected with the
    concurrency error.  The world after the call is the world before it,
    plus the call of the error callback when one was passed: no entity is
    changed and the adapter is not called. *)
Theorem saveChanges_rejects_concurrent_save (fuel : nat) (entities : option (list Ref))
    (options : option SaveOptions) (callback errorCallback : bool) (w w' : World)
    (entitiesToSave : list Ref) (entity : Ref) (ent : Entity) (aspect : EntityAspect) :
  let err := "Concurrent saves not allowed - SaveOptions.allowConcurrentSaves is false" in
  getEntitiesToSave entities w = Ok entitiesToSave w' →
  allowConcurrentSaves (default (saveOptions (em w)) options) = false →
  entity ∈ entitiesToSave →
  heap w !! entity = Some ent →
  entityAspect ent = Some aspect →
  isBeingSaved aspect = true →
  saveChanges fuel entities options callback errorCallback w
  = Ok (Rejected err)
       (if errorCallback then with_trace (trace w ++ [ErrorCallbackCalled err]) w else w).
Proof.
  intros err Hsave Hallow Hin Hent Haspect Hsaving.
  pose proof (getEntitiesToSave_read_only _ _ _ _ Hsave) as ->.
  unfold saveChanges.
  rewrite (bind_Ok _ _ w (em w) w) by done.
  rewrite (bind_Ok _ _ _ _ _ Hsave).
  rewrite bool_decide_eq_false_2; last first.
  { intros Hlen. destruct entitiesToSave; [by apply elem_of_nil in Hin|done]. }
  rewrite Hallow. simpl.
  erewrite bind_Ok; last reflexivity.
  assert (existsb (λ entity0, match heap w !! entity0 with
                              | Some ent0 => from_option isBeingSaved false (entityAspect ent0)
                              | None => false
                              end) entitiesToSave = true) as ->.
  { apply existsb_exists. exists entity. split; [by apply list_elem_of_In|].
    by rewrite Hent, Haspect. }
  by destruct errorCallback.
Qed.

(** ** detachEntity *)

(** C9, at the input where the code departs from it.  An entity made by
    [createEntity] with state Detached has an aspect and was never attached;
    [detachEntity] does not return false for it but throws. *)
Theorem detachEntity_throws_for_never_attached (fuel : nat) (w : World)
    (entityType : EntityType) (initialValues : gmap string Value) :
  ∃ w1, createEntity fuel entityType initialValues (Some Detached) None w
        = Ok (fresh (dom (heap w))) w1
      ∧ detachEntity (fresh (dom (heap w))) w1
        = Throw "This entity does not belong to this EntityManager." w1.
Proof.
  eexists. split; [reflexivity|].
  unfold detachEntity.
  erewrite bind_Ok; last first.
  { apply getEntity_Ok. simpl. apply lookup_insert_eq. }
  reflexivity.
Qed.

(** ** The local query, stage by stage *)

Lemma lookupGroup_app name gm gm' :
  lookupGroup name (gm ++ gm') =
  match lookupGroup name gm with
  | Some g => Some g
  | None => lookupGroup name gm'
  end.
Proof.
  induction gm as [|[n g] gm IH]; simpl; [done|].
  by case_bool_decide.
Qed.

Lemma lookupGroup_storeGroup name group gm :
  lookupGroup name (storeGroup name group gm) = Some group.
Proof.
  induction gm as [|[n g] gm IH]; simpl.
  - by rewrite bool_decide_eq_true_2.
  - case_bool_decide as Hn; simpl.
    + by rewrite bool_decide_eq_true_2.
    + by rewrite bool_decide_eq_false_2.
Qed.

Lemma lookupGroup_storeGroup_ne name name' group gm :
  name' ≠ name → lookupGroup name' (storeGroup name group gm) = lookupGroup name' gm.
Proof.
  intros Hne. induction gm as [|[n g] gm IH]; simpl.
  - by rewrite bool_decide_eq_false_2.
  - case_bool_decide as Hn; simpl.
    + subst n. by rewrite !bool_decide_eq_false_2 by done.
    + case_bool_decide; [done|exact IH].
Qed.

Lemma withGroupsCreated_nil w : withGroupsCreated [] w = w.
Proof.
  unfold withGroupsCreated. rewrite app_nil_r. by destruct w as [? []].
Qed.

Lemma withGroupsCreated_app created created' w :
  withGroupsCreated created' (withGroupsCreated created w)
  = withGroupsCreated (created ++ created') w.
Proof. unfold withGroupsCreated. simpl. by rewrite app_assoc. Qed.

Lemma findOrCreateEntityGroup_eq entityType w :
  findOrCreateEntityGroup entityType w =
  match lookupGroup (et_name entityType) (_entityGroupMap (em w)) with
  | Some group => Ok group w
  | None =>
      let group := {| eg_entityType := entityType; _entities := [] |} in
      Ok group (withGroupsCreated [(et_name entityType, group)] w)
  end.
Proof.
  unfold findOrCreateEntityGroup.
  rewrite (bind_Ok _ _ w (em w) w) by done.
  by destruct (lookupGroup _ _).
Qed.

Lemma entitiesOfType_created name g w :
  _entities g = [] →
  ∀ et', entitiesOfType (withGroupsCreated [(name, g)] w) et' = entitiesOfType w et'.
Proof.
  intros Hempty et'. unfold entitiesOfType, withGroupsCreated. simpl.
  rewrite lookupGroup_app. destruct (lookupGroup (et_name et') _); [done|].
  simpl. case_bool_decide; [by rewrite Hempty|done].
Qed.

Lemma mapM_groups_spec ets : ∀ w,
  ∃ created groups,
    Forall (createdAmong w ets) created
    ∧ mapM_groups ets w = Ok groups (withGroupsCreated created w)
    ∧ map (λ g, omap id (_entities g)) groups = map (entitiesOfType w) ets.
Proof.
  induction ets as [|et ets IH]; intros w.
  - exists [], []. by rewrite withGroupsCreated_nil.
  - simpl. unfold mbind at 1, M_bind. rewrite findOrCreateEntityGroup_eq.
    unfold entitiesOfType at 1.
    destruct (lookupGroup (et_name et) (_entityGroupMap (em w))) as [g|] eqn:Hl.
    + destruct (IH w) as (created & groups & Hempty & Hrun & Hmap).
      exists created, (g :: groups). split.
      { eapply Forall_impl; [exact Hempty|].
        intros p (T & HT & Hp & Hnone). exists T. split; [by right|done]. }
      rewrite (bind_Ok _ _ _ _ _ Hrun). simpl. by rewrite Hmap.
    + set (g := {| eg_entityType := et; _entities := [] |}).
      destruct (IH (withGroupsCreated [(et_name et, g)] w))
        as (created & groups & Hempty & Hrun & Hmap).
      exists ((et_name et, g) :: created), (g :: groups).
      split.
      { constructor.
        - exists et. split; [by left|done].
        - eapply Forall_impl; [exact Hempty|].
          intros p (T & HT & Hp & Hnone). exists T. split; [by right|]. split; [done|].
          simpl in Hnone. rewrite lookupGroup_app in Hnone.
          by destruct (lookupGroup (et_name T) (_entityGroupMap (em w))). }
      simpl. rewrite (bind_Ok _ _ _ _ _ Hrun). simpl.
      rewrite withGroupsCreated_app. split; [done|].
      rewrite Hmap. f_equal. apply map_ext.
      intros et'. by apply entitiesOfType_created.
Qed.

Lemma filterM_pure {A} (f : A → M bool) (p : A → bool) (l : list A) (w : World) :
  (∀ x, x ∈ l → f x w = Ok (p x) w) → filterM f l w = Ok (List.filter p l) w.
Proof.
  induction l as [|x l IH]; intros Hf; [done|].
  simpl. rewrite (bind_Ok _ _ _ _ _ (Hf x ltac:(left))).
  rewrite (bind_Ok _ _ _ _ _ (IH (λ y Hy, Hf y ltac:(by right)))).
  by destruct (p x).
Qed.

Lemma omap_id_filter (p : Ref → bool) (slots : list (option Ref)) :
  omap id (List.filter (λ slot, match slot with Some e => p e | None => false end) slots)
  = List.filter p (omap id slots).
Proof.
  induction slots as [|[e|] slots IH]; simpl; [done| |done].
  destruct (p e); simpl; [f_equal|]; apply IH.
Qed.

Lemma filterGroups_pure (f : option Ref → M bool) (p : Ref → bool) (w : World) groups :
  (∀ g e, g ∈ groups → Some e ∈ _entities g → f (Some e) w = Ok (p e) w) →
  f None w = Ok false w →
  ∀ result,
    filterGroups f groups result w
    = Ok (result ++ List.filter p (concat (map (λ g, omap id (_entities g)) groups))) w.
Proof.
  intros Hf Hnone. induction groups as [|g groups IH]; intros result; simpl.
  - by rewrite app_nil_r.
  - erewrite bind_Ok; last first.
    { apply (filterM_pure _ (λ slot, match slot with Some e => p e | None => false end)).
      intros [e|] Hin; [|done]. apply (Hf g); [left|done]. }
    rewrite IH; last first.
    { intros g' e Hg'. apply Hf. by right. }
    rewrite omap_id_filter, List.filter_app. by rewrite app_assoc.
Qed.

(** C7, amended.  Take a query whose take count is not 0, and let every
    cached entity of the target type and its subtypes have an aspect.  Then
    [executeQueryLocally] returns what these stages give, in this order,
    over those entities: the filter, which drops a Deleted entity unless the
    resolved options include deleted ones; the comparer's sort; the skip
    count; the take count; the projection.  The call reaches neither the
    adapter nor any entity or group that is cached: the world after it is
    the world before it, except that the types of the hierarchy that had no
    entity group have been given an empty one. *)
Theorem executeQueryLocally_stages (query : EntityQuery) (w : World) :
  takeCount query ≠ Some 0 →
  (∀ e, e ∈ cachedEntities w (fromEntityType query) → is_Some (stateOf (heap w) e)) →
  let filtered :=
    List.filter (λ e, (bool_decide (includeDeleted (resolvedOptions query w) = Some true)
                       || negb (isDeletedIn w e))
                      && satisfiesWhere query w e)
                (cachedEntities w (fromEntityType query)) in
  let ordered := match orderByClause query with
                 | Some comparer => array_sort (comparer (heap w)) filtered
                 | None => filtered
                 end in
  let skipped := drop (default 0 (skipCount query)) ordered in
  let taken := match takeCount query with
               | Some n => take n skipped
               | None => skipped
               end in
  let results := match selectClause query with
                 | Some selectFn => map (λ e, Projected (selectFn (heap w) e)) taken
                 | None => map AnEntity taken
                 end in
  ∃ created,
    Forall (createdAmong w (getSelfAndSubtypes (fromEntityType query))) created
    ∧ executeQueryLocally query w = Ok results (withGroupsCreated created w).
Proof.
  intros Htake Hwf filtered ordered skipped taken results.
  destruct (mapM_groups_spec (getSelfAndSubtypes (fromEntityType query)) w)
    as (created & groups & Hempty & Hrun & Hmap).
  exists created. split; [done|].
  set (w' := withGroupsCreated created w) in *.
  assert (Hheap : heap w' = heap w) by done.
  assert (Hopts : queryOptions (em w') = queryOptions (em w)) by done.
  enough (Hcore : executeQueryLocallyCore query w
                  = Ok (results, if inlineCountEnabled query
                                 then Some (length ordered) else None) w').
  { unfold executeQueryLocally. by rewrite (bind_Ok _ _ _ _ _ Hcore). }
  unfold executeQueryLocallyCore, findOrCreateEntityGroups.
  rewrite (bind_Ok _ _ _ _ _ Hrun).
  rewrite (bind_Ok _ _ w' (em w') w') by done.
  erewrite bind_Ok; last first.
  { apply (filterGroups_pure _
             (λ e, (bool_decide (includeDeleted (resolvedOptions query w) = Some true)
                    || negb (isDeletedIn w e))
                   && satisfiesWhere query w e)).
    - intros g e Hg He.
      assert (e ∈ cachedEntities w (fromEntityType query)) as Hcached.
      { unfold cachedEntities. rewrite <- Hmap.
        apply list_elem_of_In, in_concat. exists (omap id (_entities g)). split.
        - apply in_map_iff. exists g. split; [done|]. by apply list_elem_of_In.
        - apply list_elem_of_In, list_elem_of_omap. by exists (Some e). }
      destruct (Hwf e Hcached) as [s Hs].
      unfold resolvedOptions. rewrite Hopts.
      unfold isDeletedIn, satisfiesWhere. rewrite Hs.
      unfold stateOf in Hs.
      destruct (heap w !! e) as [ent|] eqn:Hent; [|done]. simpl in Hs.
      destruct (entityAspect ent) as [a|] eqn:Ha; [|done]. simpl in Hs.
      injection Hs as <-.
      assert (bool_decide (Some (entityState a) = Some Deleted)
              = bool_decide (entityState a = Deleted)) as ->.
      { apply bool_decide_ext. split; [by intros [=]|by intros ->]. }
      rewrite <- Hheap.
      destruct (bool_decide (includeDeleted _ = Some true)); simpl; [reflexivity|].
      erewrite bind_Ok; last first.
      { erewrite bind_Ok; [reflexivity|].
        apply (getAspect_Ok e w' ent a); [by rewrite Hheap|done]. }
      reflexivity.
    - done. }
  rewrite app_nil_l, Hmap.
  rewrite (bind_Ok _ _ w' (heap w') w') by done. rewrite Hheap.
  unfold mret, M_ret. simpl. f_equal.
  unfold results, taken, skipped, ordered, filtered, cachedEntities.
  destruct (skipCount query) as [[|s]|], (takeCount query) as [[|t]|]; done.
Qed.

(** ** What attaching keeps of the other entities *)

Section AttachFrame.
Context `{!CollaboratorLaws}.
Context (e : Ref) (c : EntityType * option (option ManagerId * option Ref))
        (id : ManagerId) (ms : MetadataStore).

Ltac pres_step :=
  lazymatch goal with
  | |- preserves _ (mret _) => apply preserves_ret
  | |- preserves _ (throw _) => apply preserves_throw
  | |- preserves _ (gets _) => apply preserves_gets
  | |- preserves _ (getEntity _) => apply preserves_getEntity
  | |- preserves _ (getAspect _) => apply preserves_getAspect
  | |- preserves _ (publish _) => apply preserves_publish
  | |- preserves _ (emit _) => apply preserves_emit
  | |- preserves _ (setProps _ _) => apply preserves_setProps
  | |- preserves _ (setAspect _ (with_entityState _)) =>
      apply preserves_setAspect; right; intros ?; split; reflexivity
  | |- preserves _ (modify_em _) =>
      apply preserves_modify_em; intros ?; split; reflexivity
  | |- preserves _ (forEach _ _) => apply preserves_forEach; intros ?
  | |- preserves _ (_ ≫= _) => apply preserves_bind; [|intros ?]
  | |- preserves _ (if ?b then _ else _) => destruct b
  | |- preserves _ (match ?x with _ => _ end) => destruct x
  end.

Ltac pres := repeat pres_step.

Lemma preserves__setHasChanges hasChanges :
  preserves (Core e c id ms) (_setHasChanges hasChanges).
Proof. unfold _setHasChanges. pres. Qed.

Lemma preserves__notifyStateChange entity needsSave :
  preserves (Core e c id ms) (_notifyStateChange entity needsSave).
Proof. unfold _notifyStateChange. pres; apply preserves__setHasChanges. Qed.

Lemma preserves_setProperty entity name value :
  preserves (Core e c id ms) (setProperty entity name value).
Proof.
  unfold setProperty. pres;
    first [ apply preserves__notifyStateChange
          | apply preserves_setAspect; by right ].
Qed.

Lemma preserves_keyGenerator_generateTempKeyValue entityType valueIfAvail :
  preserves (Core e c id ms) (keyGenerator_generateTempKeyValue entityType valueIfAvail).
Proof. unfold keyGenerator_generateTempKeyValue. pres. Qed.

Lemma preserves_generateTempKeyValue entity :
  preserves (Core e c id ms) (generateTempKeyValue entity).
Proof.
  unfold generateTempKeyValue. pres;
    first [ apply preserves_keyGenerator_generateTempKeyValue
          | apply preserves_setProperty
          | apply preserves_setAspect; by right ].
Qed.

Lemma preserves_checkEntityKey entity :
  preserves (Core e c id ms) (checkEntityKey entity).
Proof. unfold checkEntityKey. pres; apply preserves_generateTempKeyValue. Qed.

Lemma preserves_findOrCreateEntityGroup entityType :
  preserves (Core e c id ms) (findOrCreateEntityGroup entityType).
Proof. unfold findOrCreateEntityGroup. pres. Qed.

Lemma preserves_using_isLoading {A} (fn : M A) :
  preserves (Core e c id ms) fn → preserves (Core e c id ms) (using_isLoading fn).
Proof.
  intros Hfn. unfold using_isLoading. pres.
  apply preserves_try_finally; [done|]. pres.
Qed.

Lemma preserves__linkRelatedEntities entity :
  preserves (Core e c id ms) (_linkRelatedEntities entity).
Proof. apply preserves_using_isLoading, wireRelationships_keeps_core. Qed.

Lemma preserves_group_attachEntity typeName entity state mergeStrategy :
  entity ≠ e →
  preserves (Core e c id ms) (group_attachEntity typeName entity state mergeStrategy).
Proof.
  intros Hne. unfold group_attachEntity. pres.
  apply preserves_setAspect. by left.
Qed.

Lemma preserves__attachEntityCore entity entityState mergeStrategy :
  entity ≠ e →
  preserves (Core e c id ms) (_attachEntityCore entity entityState mergeStrategy).
Proof.
  intros Hne. unfold _attachEntityCore. pres;
    first [ apply preserves_findOrCreateEntityGroup
          | by apply preserves_group_attachEntity
          | apply preserves__linkRelatedEntities ].
Qed.

Lemma preserves_clear_inProcessEntity entity :
  entity ≠ e → preserves (Core e c id ms) (clear_inProcessEntity entity).
Proof.
  intros Hne. apply preserves_modify. intros w HP.
  destruct (heap w !! entity) as [ent|]; [|done].
  destruct (entityAspect ent); [|done]. by apply Core_insert_ne.
Qed.

Lemma preserves_attachRelatedEntities attach entity entityState mergeStrategy :
  (∀ e' s m, preserves (Core e c id ms) (attach e' s m)) →
  preserves (Core e c id ms) (attachRelatedEntities attach entity entityState mergeStrategy).
Proof. intros Hattach. unfold attachRelatedEntities. pres. apply Hattach. Qed.

Lemma Core_inv T owner w :
  Core e (T, Some owner) id ms w →
  ∃ ent a, heap w !! e = Some ent ∧ entityType ent = T ∧ entityAspect ent = Some a
           ∧ (entityManager a, _inProcessEntity a) = owner
           ∧ em_id (em w) = id ∧ metadataStore (em w) = ms.
Proof.
  intros (Hid & Hms & Hcore).
  destruct (heap w !! e) as [ent|]; [|done]. simpl in Hcore.
  injection Hcore as HT Ha.
  destruct (entityAspect ent) as [a|] eqn:Hasp; [|done]. simpl in Ha.
  injection Ha as Ha. by exists ent, a.
Qed.

(** An entity the manager owns goes through [attachEntity] unchanged. *)
Lemma attachEntity_owned fuel T ip entityState mergeStrategy w :
  Core e (T, Some (Some id, ip)) id ms w →
  checkEntityType ms T = true →
  et_metadataStore T = ms_id ms →
  attachEntity (S fuel) e entityState mergeStrategy w = Ok (default e ip) w.
Proof.
  intros HP Hcheck Hstore.
  apply Core_inv in HP as (ent & a & Hent & HT & Ha & Hown & Hid & Hms).
  injection Hown as Hman Hip.
  simpl. rewrite (bind_Ok _ _ _ _ _ (getEntity_Ok _ _ _ Hent)).
  rewrite (bind_Ok _ _ w (em w) w) by done.
  rewrite Hms, HT, Hcheck, Hstore. simpl.
  rewrite bool_decide_eq_true_2 by done. simpl.
  rewrite Ha. erewrite bind_Ok; [|reflexivity].
  rewrite Hip. destruct ip as [r|]; [done|]. simpl.
  rewrite (bind_Ok _ _ _ _ _ (getAspect_Ok _ _ _ _ Hent Ha)).
  rewrite Hman, Hid. by rewrite bool_decide_eq_true_2.
Qed.

Lemma attachEntity_owned_inv fuel T ip entityState mergeStrategy w r w' :
  Core e (T, Some (Some id, ip)) id ms w →
  attachEntity fuel e entityState mergeStrategy w = Ok r w' → w' = w.
Proof.
  intros HP Hr. destruct fuel as [|fuel]; [done|].
  apply Core_inv in HP as (ent & a & Hent & HT & Ha & Hown & Hid & Hms).
  injection Hown as Hman Hip.
  simpl in Hr. rewrite (bind_Ok _ _ _ _ _ (getEntity_Ok _ _ _ Hent)) in Hr.
  rewrite (bind_Ok _ _ w (em w) w) in Hr by done.
  destruct (negb (checkEntityType _ _)); [done|].
  destruct (negb (bool_decide _)); [done|].
  rewrite Ha in Hr. erewrite bind_Ok in Hr; [|reflexivity].
  destruct (_inProcessEntity a) as [r'|]; [by injection Hr as _ ->|].
  rewrite (bind_Ok _ _ _ _ _ (getAspect_Ok _ _ _ _ Hent Ha)) in Hr.
  rewrite Hman in Hr. destruct (bool_decide _); [|done]. by injection Hr as _ ->.
Qed.

(** Attaching any entity keeps what the manager already owns. *)
Lemma preserves_attachEntity T ip :
  c = (T, Some (Some id, ip)) →
  ∀ fuel entity entityState mergeStrategy,
    preserves (Core e c id ms) (attachEntity fuel entity entityState mergeStrategy).
Proof.
  intros Hc. induction fuel as [|fuel IH]; intros entity entityState mergeStrategy.
  { by intros w a w' HP Hr. }
  destruct (decide (entity = e)) as [->|Hne].
  { intros w a w' HP Hr. rewrite Hc in HP.
    by rewrite (attachEntity_owned_inv _ _ _ _ _ _ _ _ HP Hr), Hc. }
  cbn [attachEntity].
  pres;
    first [ apply preserves_modify; intros w HP; by apply Core_insert_ne
          | apply preserves_using_isLoading; pres;
            first [ apply preserves_checkEntityKey
                  | by apply preserves__attachEntityCore
                  | apply preserves_setAspect; by left
                  | apply preserves_try_finally;
                    [ by apply preserves_attachRelatedEntities
                    | by apply preserves_clear_inProcessEntity ] ]
          | apply validateEntity_keeps_core
          | apply preserves__notifyStateChange ].
Qed.

End AttachFrame.

(** ** The steps of [attachEntity] on the entity that is being attached *)

Section AttachSteps.
Context `{!CollaboratorLaws}.
Context (e : Ref) (id : ManagerId) (ms : MetadataStore).

Lemma group_attachEntity_owns typeName T ip state w r w' :
  Core e (T, Some (None, ip)) id ms w →
  group_attachEntity typeName e state (Some Disallowed) w = Ok r w' →
  r = e ∧ Core e (T, Some (Some id, ip)) id ms w'.
Proof.
  intros HP Hr.
  apply Core_inv in HP as (ent & a & Hent & HT & Ha & Hown & Hid & Hms).
  injection Hown as Hman Hip.
  unfold group_attachEntity in Hr.
  rewrite (bind_Ok _ _ _ _ _ (getEntity_Ok _ _ _ Hent)) in Hr.
  rewrite (bind_Ok _ _ w (_entityGroupMap (em w)) w) in Hr by done.
  rewrite (bind_Ok _ _ w (heap w) w) in Hr by done.
  destruct (lookupGroup typeName _) as [group|]; [|done].
  destruct (group_findEntityByKey _ _ _) as [target|]; [done|].
  erewrite bind_Ok in Hr; [|reflexivity].
  erewrite bind_Ok in Hr; [|reflexivity].
  erewrite bind_Ok in Hr; last first.
  { eapply setAspect_Ok; [exact Hent|exact Ha]. }
  injection Hr as <- <-. split; [done|].
  split_and!; simpl; [done|done|].
  rewrite lookup_insert_eq. simpl. unfold coreOf. simpl.
  by rewrite HT, Hid, Hip.
Qed.

Lemma setAspect_inProcessEntity T owner ip p :
  hoare (Core e (T, Some (owner, ip)) id ms)
        (setAspect e (with_inProcessEntity p))
        (λ _, Core e (T, Some (owner, p)) id ms).
Proof.
  intros w u w' HP Hr.
  apply Core_inv in HP as (ent & a & Hent & HT & Ha & Hown & Hid & Hms).
  injection Hown as Hman Hip.
  rewrite (setAspect_Ok _ _ _ _ _ Hent Ha) in Hr. injection Hr as _ <-.
  split_and!; simpl; [done|done|].
  rewrite lookup_insert_eq. simpl. unfold coreOf. simpl. by rewrite HT, Hman.
Qed.

Lemma clear_inProcessEntity_clears T owner ip :
  hoare (Core e (T, Some (owner, ip)) id ms)
        (clear_inProcessEntity e)
        (λ _, Core e (T, Some (owner, None)) id ms).
Proof.
  intros w u w' HP Hr.
  apply Core_inv in HP as (ent & a & Hent & HT & Ha & Hown & Hid & Hms).
  injection Hown as Hman Hip.
  unfold clear_inProcessEntity, modify in Hr. rewrite Hent, Ha in Hr.
  injection Hr as _ <-.
  split_and!; simpl; [done|done|].
  rewrite lookup_insert_eq. simpl. unfold coreOf. simpl. by rewrite HT, Hman.
Qed.

Lemma _attachEntityCore_owns T ip state :
  hoare (Core e (T, Some (None, ip)) id ms)
        (_attachEntityCore e state Disallowed)
        (λ r, λ w', r = e ∧ Core e (T, Some (Some id, ip)) id ms w').
Proof.
  unfold _attachEntityCore.
  eapply hoare_bind; [apply hoare_preserves, preserves_getEntity|]. intros ent.
  eapply hoare_bind; [apply hoare_preserves, preserves_findOrCreateEntityGroup|].
  intros group.
  eapply hoare_bind.
  { intros w r w' HP Hr. exact (group_attachEntity_owns _ _ _ _ _ _ _ HP Hr). }
  intros r. simpl.
  intros w a w' [-> HP] Hr.
  apply bind_inv_Ok in Hr as ([] & w1 & Hlink & Hr). injection Hr as <- <-.
  split; [done|]. by eapply preserves__linkRelatedEntities.
Qed.

Lemma try_finally_inv_Ok {A} (body : M A) (cleanup : M unit) w a w' :
  try_finally body cleanup w = Ok a w' →
  ∃ w1, body w = Ok a w1 ∧ cleanup w1 = Ok () w'.
Proof.
  unfold try_finally. intros Hr.
  destruct (body w) as [a1 w1|msg w1|]; [| |done].
  - destruct (cleanup w1) as [[] w2| |] eqn:Hclean; [|done|done].
    injection Hr as <- <-. eauto.
  - by destruct (cleanup w1).
Qed.

Lemma using_isLoading_inv_Ok {A} (fn : M A) w a w' :
  using_isLoading fn w = Ok a w' →
  ∃ w1, fn (with_em (with_isLoading true (em w)) w) = Ok a w1
        ∧ w' = with_em (with_isLoading (isLoading (em w)) (em w1)) w1.
Proof.
  unfold using_isLoading. intros Hr.
  erewrite bind_Ok in Hr; [|reflexivity].
  erewrite bind_Ok in Hr; [|reflexivity].
  apply try_finally_inv_Ok in Hr as (w1 & Hfn & Hc).
  injection Hc as <-. eauto.
Qed.

(** A first attach of an entity that no manager owns, under the default
    strategy: when it returns, it returns the entity itself, owned by this
    manager and no longer in progress. *)
Lemma attachEntity_fresh T fuel entityState :
  hoare (Core e (T, Some (None, None)) id ms)
        (attachEntity (S fuel) e entityState None)
        (λ r, λ w', r = e ∧ Core e (T, Some (Some id, None)) id ms w').
Proof.
  intros w r w' HP Hr.
  pose proof HP as HP0.
  apply Core_inv in HP0 as (ent & a & Hent & HT & Ha & Hown & Hid & Hms).
  injection Hown as Hman Hip.
  simpl in Hr. rewrite (bind_Ok _ _ _ _ _ (getEntity_Ok _ _ _ Hent)) in Hr.
  rewrite (bind_Ok _ _ w (em w) w) in Hr by done.
  destruct (negb (checkEntityType _ _)); [done|].
  destruct (negb (bool_decide _)); [done|].
  rewrite Ha in Hr. erewrite bind_Ok in Hr; [|reflexivity].
  rewrite Hip in Hr.
  rewrite (bind_Ok _ _ _ _ _ (getAspect_Ok _ _ _ _ Hent Ha)) in Hr.
  rewrite Hman in Hr.
  apply bind_inv_Ok in Hr as (att & w1 & Hload & Hr).
  (* under the loading scope *)
  apply using_isLoading_inv_Ok in Hload as (w2 & Hbody & ->).
  assert (HP1 : Core e (T, Some (None, None)) id ms
                  (with_em (with_isLoading true (em w)) w)).
  { by apply (Core_with_em _ _ _ _ (with_isLoading true)). }
  apply bind_inv_Ok in Hbody as ([] & w3 & Hkey & Hbody).
  assert (HP3 : Core e (T, Some (None, None)) id ms w3).
  { destruct (isAdded _).
    - by eapply preserves_checkEntityKey.
    - by injection Hkey as <-. }
  apply bind_inv_Ok in Hbody as (att' & w4 & Hcore & Hbody).
  destruct (_attachEntityCore_owns T None _ _ _ _ HP3 Hcore) as [-> HP4].
  apply bind_inv_Ok in Hbody as ([] & w5 & Hmark & Hbody).
  pose proof (setAspect_inProcessEntity T (Some id) None (Some e) _ _ _ HP4 Hmark) as HP5.
  apply bind_inv_Ok in Hbody as ([] & w6 & Hrelated & Hbody).
  injection Hbody as <- <-.
  apply try_finally_inv_Ok in Hrelated as (w7 & Hrelated & Hclear).
  assert (HP7 : Core e (T, Some (Some id, Some e)) id ms w7).
  { eapply preserves_attachRelatedEntities; [|exact HP5|exact Hrelated].
    intros e' s m. by eapply preserves_attachEntity. }
  pose proof (clear_inProcessEntity_clears T (Some id) (Some e) _ _ _ HP7 Hclear) as HP6.
  assert (HP8 : Core e (T, Some (Some id, None)) id ms
                  (with_em (with_isLoading (isLoading (em w)) (em w6)) w6)).
  { by apply (Core_with_em _ _ _ _ (with_isLoading (isLoading (em w)))). }
  (* after the loading scope *)
  apply bind_inv_Ok in Hr as (vo & w8 & Hvo & Hr). injection Hvo as <- <-.
  apply bind_inv_Ok in Hr as ([] & w9 & Hval & Hr).
  assert (HP9 : Core e (T, Some (Some id, None)) id ms w9).
  { destruct (validateOnAttach _).
    - apply bind_inv_Ok in Hval as (valid & w10 & Hval & Hret).
      injection Hret as <-. by eapply validateEntity_keeps_core.
    - by injection Hval as <-. }
  apply bind_inv_Ok in Hr as ([] & w10 & Hnotify & Hr).
  assert (HP10 : Core e (T, Some (Some id, None)) id ms w10).
  { destruct (negb _).
    - by eapply preserves__notifyStateChange.
    - by injection Hnotify as <-. }
  apply bind_inv_Ok in Hr as ([] & w11 & Hpub & Hr).
  injection Hr as <- <-. split; [done|].
  by eapply preserves_publish.
Qed.

End AttachSteps.

(** ** attachEntity called twice *)

(** C2.  Under the default merge strategy, whenever [attachEntity(e, s)]
    returns an entity, calling it again on the same manager returns the same
    reference and changes nothing at all: the world after the second call
    is the world before it.  And an entity whose aspect names another
    manager as its owner (and that is not in the middle of an attach) makes
    [attachEntity] throw, whatever the state and the strategy asked for;
    the world is left as it was. *)
Theorem attachEntity_twice (laws : CollaboratorLaws) (fuel : nat) (entity : Ref)
    (entityState : option EntityState) (w : World) :
  (∀ attached w',
     attachEntity fuel entity entityState None w = Ok attached w' →
     attachEntity fuel entity entityState None w' = Ok attached w')
  ∧ (∀ ent aspect other mergeStrategy,
       heap w !! entity = Some ent →
       entityAspect ent = Some aspect →
       _inProcessEntity aspect = None →
       entityManager aspect = Some other →
       other ≠ em_id (em w) →
       ∃ message,
         attachEntity (S fuel) entity entityState mergeStrategy w = Throw message w).
Proof.
  split.
  - intros attached w' Hr. destruct fuel as [|fuel]; [done|].
    pose proof Hr as Hfirst.
    simpl in Hr.
    apply bind_inv_Ok in Hr as (ent & w0 & Hent & Hr).
    apply getEntity_inv in Hent as [-> Hent].
    rewrite (bind_Ok _ _ w (em w) w) in Hr by done.
    destruct (checkEntityType _ _) eqn:Hcheck; [|done].
    destruct (bool_decide _) eqn:Hstore; [|done].
    apply bool_decide_eq_true_1 in Hstore. simpl in Hr.
    destruct (entityAspect ent) as [a|] eqn:Ha.
    + erewrite bind_Ok in Hr; [|reflexivity].
      assert (HP : Core entity (entityType ent, Some (entityManager a, _inProcessEntity a))
                     (em_id (em w)) (metadataStore (em w)) w).
      { split_and!; [done|done|]. rewrite Hent. simpl. unfold coreOf. by rewrite Ha. }
      destruct (_inProcessEntity a) as [r|] eqn:Hip.
      { injection Hr as -> ->. exact Hfirst. }
      rewrite (bind_Ok _ _ _ _ _ (getAspect_Ok _ _ _ _ Hent Ha)) in Hr.
      destruct (entityManager a) as [manager|] eqn:Hman.
      { destruct (bool_decide _); [|done]. injection Hr as -> ->. exact Hfirst. }
      destruct (attachEntity_fresh _ _ _ _ _ _ _ _ _ HP Hfirst) as [-> HP'].
      eapply (attachEntity_owned _ _ _ _ _ None); [exact HP'|done|done].
    + set (w1 := with_heap (<[entity := with_entityAspect (Some new_EntityAspect) ent]>
                             (heap w)) w) in *.
      assert (HP : Core entity (entityType ent, Some (None, None))
                     (em_id (em w)) (metadataStore (em w)) w1).
      { split_and!; [done|done|]. simpl. by rewrite lookup_insert_eq. }
      assert (Hagain : attachEntity (S fuel) entity entityState None w1 = Ok attached w').
      { simpl. erewrite bind_Ok; last first.
        { apply getEntity_Ok. simpl. apply lookup_insert_eq. }
        rewrite (bind_Ok _ _ w1 (em w) w1) by done.
        simpl. rewrite Hcheck. rewrite bool_decide_eq_true_2 by done. simpl.
        erewrite bind_Ok; [|reflexivity].
        erewrite bind_Ok in Hr; [|reflexivity]. exact Hr. }
      destruct (attachEntity_fresh _ _ _ _ _ _ _ _ _ HP Hagain) as [-> HP'].
      eapply (attachEntity_owned _ _ _ _ _ None); [exact HP'|done|done].
  - intros ent aspect other mergeStrategy Hent Ha Hip Hman Hother.
    simpl. rewrite (bind_Ok _ _ _ _ _ (getEntity_Ok _ _ _ Hent)).
    rewrite (bind_Ok _ _ w (em w) w) by done.
    destruct (negb (checkEntityType _ _)); [by eexists|].
    destruct (negb (bool_decide _)); [by eexists|].
    rewrite Ha. erewrite bind_Ok; [|reflexivity]. rewrite Hip.
    rewrite (bind_Ok _ _ _ _ _ (getAspect_Ok _ _ _ _ Hent Ha)).
    rewrite Hman. rewrite bool_decide_eq_false_2 by done. by eexists.
Qed.

(** ** Import: a raw entity whose key is already cached *)


(** ** Import: what it keeps of the manager's groups *)

Section Typed.
Context `{!ImportLaws}.
Context (ms : MetadataStore).

Ltac typed_step :=
  lazymatch goal with
  | |- preserves _ (mret _) => apply preserves_ret
  | |- preserves _ (throw _) => apply preserves_throw
  | |- preserves _ (gets _) => apply preserves_gets
  | |- preserves _ (getEntity _) => apply (preserves_em_getEntity (typedGroups ms))
  | |- preserves _ (getAspect _) => apply (preserves_em_getAspect (typedGroups ms))
  | |- preserves _ (publish _) => apply (preserves_em_publish (typedGroups ms))
  | |- preserves _ (setProps _ _) => apply (preserves_em_setProps (typedGroups ms))
  | |- preserves _ (setAspect _ _) => apply (preserves_em_setAspect (typedGroups ms))
  | |- preserves _ (_updateTargetFromRaw _ _) => apply _updateTargetFromRaw_keeps_types
  | |- preserves _ (setEntityState _ _) => apply setEntityState_keeps_types
  | |- preserves _ (modify_em _) =>
      apply (preserves_em_modify_em (typedGroups ms)); intros m Hm; exact Hm
  | |- preserves _ (modify _) => apply preserves_modify; intros w Hw; exact Hw
  | |- preserves _ (forEach _ _) => apply preserves_forEach; intros ?
  | |- preserves _ (_ ≫= _) => apply preserves_bind; [|intros ?]
  | |- preserves _ (if ?b then _ else _) => destruct b
  | |- preserves _ (match ?x with _ => _ end) => destruct x
  end.

Ltac typed := repeat typed_step.

Lemma typed__setHasChanges hasChanges :
  preserves (groupsTyped ms) (_setHasChanges hasChanges).
Proof. unfold _setHasChanges. typed. Qed.

Lemma typed__notifyStateChange entity needsSave :
  preserves (groupsTyped ms) (_notifyStateChange entity needsSave).
Proof. unfold _notifyStateChange. typed; apply typed__setHasChanges. Qed.

Lemma typed_setProperty entity name value :
  preserves (groupsTyped ms) (setProperty entity name value).
Proof. unfold setProperty. typed; apply typed__notifyStateChange. Qed.

Lemma typed__createInstanceCore entityType :
  preserves (groupsTyped ms) (_createInstanceCore entityType).
Proof. unfold _createInstanceCore, entityType_createEntity. typed. Qed.

Lemma typed_fixupForeignKey entityType tempKeyMap targetEntity npName :
  preserves (groupsTyped ms) (fixupForeignKey entityType tempKeyMap targetEntity npName).
Proof. unfold fixupForeignKey. typed; apply typed_setProperty. Qed.

Lemma typedGroups_storeGroup m typeName group entities :
  typedGroups ms m →
  lookupGroup typeName (_entityGroupMap m) = Some group →
  typedGroups ms (with_entityGroupMap
                    (storeGroup typeName (with_entities entities group) (_entityGroupMap m)) m).
Proof.
  intros [Hms Htyped] Hgroup. split; [exact Hms|].
  intros name g T Hl HT. simpl in Hl.
  destruct (decide (name = typeName)) as [->|Hne].
  - rewrite lookupGroup_storeGroup in Hl. injection Hl as <-. simpl.
    by apply (Htyped typeName).
  - rewrite lookupGroup_storeGroup_ne in Hl by done. by apply (Htyped name).
Qed.

Lemma typed_group_attachEntity typeName entity state mergeStrategy :
  preserves (groupsTyped ms) (group_attachEntity typeName entity state mergeStrategy).
Proof.
  intros w a w' Hw Hr. unfold group_attachEntity in Hr.
  apply bind_inv_Ok in Hr as (ent & w0 & Hent & Hr).
  apply getEntity_inv in Hent as [-> Hent].
  rewrite (bind_Ok _ _ w (_entityGroupMap (em w)) w) in Hr by done.
  rewrite (bind_Ok _ _ w (heap w) w) in Hr by done.
  destruct (lookupGroup typeName (_entityGroupMap (em w))) as [group|] eqn:Hgroup; [|done].
  destruct (group_findEntityByKey (heap w) group (keyValues ent)) as [target|].
  - revert Hr. generalize w a w' Hw.
    change (preserves (groupsTyped ms)
              (match mergeStrategy with
               | Some Disallowed =>
                   throw "A MergeStrategy of 'Disallowed' does not allow you to attach an entity when an entity with the same key is already attached"
               | Some OverwriteChanges =>
                   (setProps target (λ _, props ent);;
                    setAspect target (with_entityState state));; mret target
               | Some PreserveChanges =>
                   targetAspect ← getAspect target;
                   (if isUnchanged (entityState targetAspect)
                    then setProps target (λ _, props ent);;
                         setAspect target (with_entityState state)
                    else mret ());;
                   mret target
               | Some SkipMerge | None => mret target
               end)).
    typed.
  - apply bind_inv_Ok in Hr as ([] & w1 & Hstore & Hr).
    injection Hstore as <-.
    assert (Hw1 : groupsTyped ms
                    (with_em (with_entityGroupMap
                                (storeGroup typeName
                                   (with_entities (_entities group ++ [Some entity]) group)
                                   (_entityGroupMap (em w))) (em w)) w)).
    { by apply typedGroups_storeGroup. }
    revert Hr. generalize Hw1. generalize a w'.
    generalize (with_em (with_entityGroupMap
                           (storeGroup typeName
                              (with_entities (_entities group ++ [Some entity]) group)
                              (_entityGroupMap (em w))) (em w)) w).
    change (preserves (groupsTyped ms)
              (m ← gets em;
               setAspect entity (λ a, with_entityManager (Some (em_id m))
                                        (with_entityState state a));;
               mret entity)).
    typed.
Qed.

Lemma typed_findOrCreateEntityGroup entityType :
  (∀ T, ms_types ms !! et_name entityType = Some T → T = entityType) →
  preserves (groupsTyped ms) (findOrCreateEntityGroup entityType).
Proof.
  intros Hfiled w group w' [Hms Htyped] Hr. rewrite findOrCreateEntityGroup_eq in Hr.
  destruct (lookupGroup (et_name entityType) (_entityGroupMap (em w))) eqn:Hgroup.
  - injection Hr as _ <-. by split.
  - injection Hr as _ <-. split; [exact Hms|].
    intros name g T Hl HT. simpl in Hl. rewrite lookupGroup_app in Hl.
    destruct (lookupGroup name (_entityGroupMap (em w))) as [g0|] eqn:Hg0.
    + injection Hl as <-. by apply (Htyped name).
    + simpl in Hl. case_bool_decide as Hname; [|done].
      injection Hl as <-. simpl. subst name. symmetry. by apply Hfiled.
Qed.

Lemma typed_importRawEntity entityGroup config rawEntity :
  preserves (groupsTyped ms) (importRawEntity entityGroup config rawEntity).
Proof.
  unfold importRawEntity.
  repeat first
    [ apply typed__createInstanceCore
    | apply typed_group_attachEntity
    | apply typed__notifyStateChange
    | apply typed_setProperty
    | apply typed_fixupForeignKey
    | typed_step ].
Qed.

Lemma typed_importEntityGroup entityGroup config jsonGroup :
  preserves (groupsTyped ms) (importEntityGroup entityGroup jsonGroup config).
Proof.
  induction jsonGroup as [|rawEntity rest IH]; simpl; [apply preserves_ret|].
  apply preserves_bind; [apply typed_importRawEntity|]. intros targetEntity.
  apply preserves_bind; [exact IH|]. intros entitiesToLink. apply preserves_ret.
Qed.

End Typed.

(** ** Import: the temp keys of the bundle *)

Lemma keyGenerator_generateTempKeyValue_eq entityType valueIfAvail w :
  keyGenerator_generateTempKeyValue entityType valueIfAvail w =
  Ok (kg_next (keyGenerator (em w)) (kg_used (keyGenerator (em w))) entityType valueIfAvail)
     (withKeysUsed
        (kg_used (keyGenerator (em w))
         ++ [(et_name entityType,
              kg_next (keyGenerator (em w)) (kg_used (keyGenerator (em w)))
                      entityType valueIfAvail)]) w).
Proof. reflexivity. Qed.

Lemma withKeysUsed_same w : withKeysUsed (kg_used (keyGenerator (em w))) w = w.
Proof.
  destruct w as [h m t n]. destruct m as [? ? ? ? ? kg ? ? ? ? ?]. by destruct kg.
Qed.

(** The table that the first loop of [importEntities] builds, and what the
    key generator remembers afterwards. *)
Lemma makeTempKeyMap_table tempKeys : ∀ tempKeyMap w tempKeyMap' w',
  namesItsTypes (metadataStore (em w)) →
  makeTempKeyMap tempKeys tempKeyMap w = Ok tempKeyMap' w' →
  let kg := keyGenerator (em w) in
  let ms := metadataStore (em w) in
  w' = withKeysUsed (usedAfter (kg_next kg) ms tempKeys (kg_used kg)) w
  ∧ (∀ before k after,
       tempKeys = before ++ k :: after → k ∉ after →
       ∃ T, ms_types ms !! k.1 = Some T
            ∧ tempKeyMap' !! k
              = Some {| ek_entityType := T;
                        ek_values := [kg_next kg (usedAfter (kg_next kg) ms before (kg_used kg))
                                              T (head k.2)] |})
  ∧ (∀ k, k ∉ tempKeys → tempKeyMap' !! k = tempKeyMap !! k).
Proof.
  induction tempKeys as [|k0 rest IH]; intros tempKeyMap w tempKeyMap' w' Hnames Hrun kg ms.
  - injection Hrun as <- <-. split; [exact (eq_sym (withKeysUsed_same w))|]. split; [|done].
    intros before k after Heq. by destruct before.
  - simpl in Hrun. rewrite (bind_Ok _ _ w (em w) w) in Hrun by done.
    fold ms in Hrun.
    destruct (ms_types ms !! k0.1) as [T0|] eqn:HT0; [|done].
    pose proof (Hnames _ _ HT0) as Hname.
    rewrite (bind_Ok _ _ _ _ _ (keyGenerator_generateTempKeyValue_eq _ _ _)) in Hrun.
    fold kg in Hrun.
    set (v0 := kg_next kg (kg_used kg) T0 (head k0.2)) in *.
    apply IH in Hrun as (Hw' & Hin & Hout); [|exact Hnames].
    simpl in Hw', Hin, Hout. fold kg ms in Hw', Hin.
    assert (Hkey : EntityKey_toString {| ek_entityType := T0; ek_values := k0.2 |} None = k0).
    { unfold EntityKey_toString. simpl. rewrite Hname. by destruct k0. }
    rewrite Hkey in Hout.
    split; [|split].
    + simpl. rewrite HT0. exact Hw'.
    + intros before k after Heq Hlast. destruct before as [|b before].
      * simpl in Heq. injection Heq as <- <-. exists T0. split; [done|].
        rewrite (Hout _ Hlast). by rewrite lookup_insert_eq.
      * simpl in Heq. injection Heq as <- ->.
        destruct (Hin before k after eq_refl Hlast) as (T & HT & Hk).
        exists T. split; [done|]. simpl. rewrite HT0. exact Hk.
    + intros k Hk. apply not_elem_of_cons in Hk as [Hne Hrest].
      rewrite (Hout _ Hrest). by rewrite lookup_insert_ne.
Qed.

Lemma setProperty_detached entity name value w ent a :
  heap w !! entity = Some ent →
  entityAspect ent = Some a →
  entityState a = Detached →
  setProperty entity name value w
  = Ok () (with_heap (<[entity := with_props (<[name := value]> (props ent)) ent]> (heap w)) w).
Proof.
  intros Hent Ha Hstate. unfold setProperty.
  rewrite (bind_Ok _ _ _ _ _ (getEntity_Ok _ _ _ Hent)).
  rewrite (bind_Ok _ _ w (em w) w) by done.
  rewrite (bind_Ok _ _ _ _ _ (setProps_Ok _ _ _ _ Hent)).
  rewrite Ha, Hstate. simpl. by rewrite orb_true_r.
Qed.

(** One step of the foreign-key pass that returns, on an entity that is
    still detached. *)
Lemma fixupForeignKey_inv entityType tempKeyMap entity n w w' ent a :
  heap w !! entity = Some ent →
  entityAspect ent = Some a →
  entityState a = Detached →
  fixupForeignKey entityType tempKeyMap entity n w = Ok () w' →
  ∃ fk parent v,
    foreignKeyOf entityType n = Some (fk, parent)
    ∧ remintedForeignKey (metadataStore (em w)) tempKeyMap parent (read (props ent) fk)
      = Some v
    ∧ w' = with_heap (<[entity := with_props (<[fk := v]> (props ent)) ent]> (heap w)) w.
Proof.
  intros Hent Ha Hstate Hrun. unfold fixupForeignKey in Hrun.
  rewrite (bind_Ok _ _ w (em w) w) in Hrun by done.
  unfold foreignKeyOf, remintedForeignKey.
  destruct (List.find _ _) as [np|]; [|done]. simpl.
  destruct (head (relatedDataProperties np)) as [fk|]; [|done]. simpl.
  destruct (ms_types (metadataStore (em w)) !! np_entityType np)
    as [parentType|] eqn:Hparent; [|done].
  rewrite (bind_Ok _ _ _ _ _ (getEntity_Ok _ _ _ Hent)) in Hrun.
  unfold getProperty in Hrun.
  destruct (getMappedKey _ _) as [newFk|] eqn:Hmapped; [|done].
  rewrite (setProperty_detached _ _ _ _ _ a Hent Ha Hstate) in Hrun.
  injection Hrun as <-.
  exists fk, (np_entityType np), (default VUndefined (head (ek_values newFk))).
  split; [done|]. split; [|done].
  rewrite Hparent. simpl. by rewrite Hmapped.
Qed.

(** The foreign-key pass over the navigation properties named by the raw
    entity, when it returns, for an entity that is still detached. *)
Lemma fixupForeignKeys_inv entityType tempKeyMap entity names : ∀ w w' ent a,
  heap w !! entity = Some ent →
  entityAspect ent = Some a →
  entityState a = Detached →
  NoDup (omap (λ n, fst <$> foreignKeyOf entityType n) names) →
  forEach names (fixupForeignKey entityType tempKeyMap entity) w = Ok () w' →
  ∃ p',
    w' = with_heap (<[entity := with_props p' ent]> (heap w)) w
    ∧ (∀ n, n ∈ names →
         ∃ fk parent v,
           foreignKeyOf entityType n = Some (fk, parent)
           ∧ remintedForeignKey (metadataStore (em w)) tempKeyMap parent
               (read (props ent) fk) = Some v
           ∧ p' !! fk = Some v)
    ∧ (∀ x, x ∉ omap (λ n, fst <$> foreignKeyOf entityType n) names →
            p' !! x = props ent !! x).
Proof.
  induction names as [|n rest IH]; intros w w' ent a Hent Ha Hstate Hnodup Hrun.
  - injection Hrun as <-. exists (props ent). split; [|split].
    + rewrite insert_id; [by destruct w|]. rewrite Hent. by destruct ent.
    + intros n Hn. by apply elem_of_nil in Hn.
    + done.
  - simpl in Hrun. apply bind_inv_Ok in Hrun as ([] & w1 & Hstep & Hrun).
    destruct (fixupForeignKey_inv _ _ _ _ _ _ _ _ Hent Ha Hstate Hstep)
      as (fk & parent & v & Hfk & Hv & ->).
    simpl in Hnodup. rewrite Hfk in Hnodup. simpl in Hnodup.
    apply NoDup_cons in Hnodup as [Hfresh Hnodup].
    set (ent1 := with_props (<[fk := v]> (props ent)) ent) in *.
    destruct (IH _ _ ent1 a (lookup_insert_eq _ _ _) Ha Hstate Hnodup Hrun)
      as (p' & -> & Hin & Hout).
    exists p'. split; [|split].
    + unfold with_heap. simpl. by rewrite insert_insert_eq.
    + intros n' Hn'. apply elem_of_cons in Hn' as [->|Hn'].
      * exists fk, parent, v. split; [done|]. split; [done|].
        rewrite (Hout _ Hfresh). unfold ent1. simpl. by rewrite lookup_insert_eq.
      * destruct (Hin _ Hn') as (fk' & parent' & v' & Hfk' & Hv' & Hp').
        exists fk', parent', v'. split; [done|]. split; [|done].
        assert (fk' ≠ fk) as Hne.
        { intros ->. apply Hfresh. apply list_elem_of_omap.
          exists n'. split; [done|]. by rewrite Hfk'. }
        simpl in Hv'. unfold ent1, read in Hv'. simpl in Hv'.
        by rewrite lookup_insert_ne in Hv'.
    + intros x Hx. simpl in Hx. rewrite Hfk in Hx. simpl in Hx.
      apply not_elem_of_cons in Hx as [Hne Hx].
      rewrite (Hout _ Hx). unfold ent1. simpl. by rewrite lookup_insert_ne.
Qed.

Lemma _notifyStateChange_needsSave entity w :
  ∃ w', _notifyStateChange entity true w = Ok () w' ∧ heap w' = heap w.
Proof.
  unfold _notifyStateChange, _setHasChanges.
  rewrite (bind_Ok _ _ w (em w) w) by done.
  destruct (_hasChanges (em w)) eqn:Hflag; simpl.
  - eexists. split; [reflexivity|done].
  - erewrite bind_Ok; last first.
    { erewrite bind_Ok; [|reflexivity]. simpl. rewrite Hflag. reflexivity. }
    eexists. split; [reflexivity|done].
Qed.

Lemma _createInstanceCore_eq entityType w :
  _createInstanceCore entityType w
  = Ok (fresh (dom (heap w)))
       (with_heap (<[fresh (dom (heap w)) :=
                       {| entityType := entityType; props := ∅;
                          entityAspect := Some new_EntityAspect |}]> (heap w)) w).
Proof. reflexivity. Qed.

(** A raw entity in state Added whose key the table maps: what the loop of
    [importEntityGroup] has made of it when it returns. *)
Lemma importRawEntity_new_temp_key `{!ImportLaws} (entityGroup : EntityGroup)
    (config : ImportConfig) (rawEntity : RawEntity) (w : World) (newTempKey : EntityKey)
    (keyProp : DataProperty) (otherKeyProps : list DataProperty)
    (attached : Ref) (w' : World) :
  let importedType := eg_entityType entityGroup in
  let names := default [] (tempNavPropNames rawEntity) in
  let created := fresh (dom (heap w)) in
  raw_entityState rawEntity = Some Added →
  getMappedKey (cfg_tempKeyMap config)
               (getEntityKeyFromRawEntity importedType rawEntity) = Some newTempKey →
  keyProperties importedType = keyProp :: otherKeyProps →
  NoDup (dp_name keyProp :: omap (λ n, fst <$> foreignKeyOf importedType n) names) →
  importRawEntity entityGroup config rawEntity w = Ok attached w' →
  propertyOf w' created (dp_name keyProp)
  = Some (default VUndefined (head (ek_values newTempKey)))
  ∧ hasTempKey <$> aspectOf w' created = Some true
  ∧ (∀ n, n ∈ names →
       ∃ fk parent v,
         foreignKeyOf importedType n = Some (fk, parent)
         ∧ remintedForeignKey (metadataStore (em w)) (cfg_tempKeyMap config) parent
             (read (raw_values rawEntity) fk) = Some v
         ∧ propertyOf w' created fk = Some v)
  ∧ ((attached = created
      ∧ stateOf (heap w') created = Some Added
      ∧ ownerOf (heap w') created = Some (em_id (em w)))
     ∨ (∃ group ent,
          lookupGroup (et_name importedType) (_entityGroupMap (em w)) = Some group
          ∧ heap w' !! created = Some ent
          ∧ group_findEntityByKey (heap w') group (keyValues ent) = Some attached)).
Proof.
  intros importedType names created Hstate Hmapped Hkey Hnodup Hrun.
  apply NoDup_cons in Hnodup as [Hpk Hnodup].
  set (newPk := default VUndefined (head (ek_values newTempKey))).
  set (aspect5 := with_hasTempKey true new_EntityAspect).
  set (ent5 := {| entityType := importedType;
                  props := <[dp_name keyProp := newPk]> (raw_values rawEntity ∪ ∅);
                  entityAspect := Some aspect5 |}).
  set (w5 := with_heap (<[created := ent5]> (heap w)) w).
  unfold importRawEntity in Hrun. fold importedType in Hrun.
  rewrite Hstate in Hrun. cbv beta iota in Hrun. unfold isAdded at 1 in Hrun.
  rewrite bool_decide_eq_true_2 in Hrun by done. rewrite Hmapped in Hrun.
  rewrite (bind_Ok _ _ w w w) in Hrun by done.
  rewrite (bind_Ok _ _ _ _ _ (_createInstanceCore_eq _ _)) in Hrun.
  fold created in Hrun.
  erewrite bind_Ok in Hrun; last first.
  { eapply (_updateTargetFromRaw_detached created rawEntity _ _ new_EntityAspect);
      [apply lookup_insert_eq|reflexivity|reflexivity]. }
  unfold with_heap at 1 2 in Hrun. simpl in Hrun. rewrite insert_insert_eq in Hrun.
  rewrite Hkey in Hrun.
  apply bind_inv_Ok in Hrun as ([] & w6 & Hblock & Hrun).
  erewrite bind_Ok in Hblock; last first.
  { eapply setAspect_Ok; [apply lookup_insert_eq|reflexivity]. }
  erewrite bind_Ok in Hblock; last first.
  { eapply (setProperty_detached _ _ _ _ _ aspect5);
      [apply lookup_insert_eq|reflexivity|reflexivity]. }
  unfold with_heap in Hblock. simpl in Hblock. rewrite !insert_insert_eq in Hblock.
  destruct (fixupForeignKeys_inv importedType (cfg_tempKeyMap config) created names
              w5 w6 ent5 aspect5) as (p' & -> & Hin & Hout).
  { apply lookup_insert_eq. }
  { done. }
  { done. }
  { done. }
  { exact Hblock. }
  clear Hblock.
  set (ent6 := with_props p' ent5) in *.
  set (w6 := with_heap (<[created := ent6]> (heap w5)) w5) in *.
  assert (Hent6 : heap w6 !! created = Some ent6) by apply lookup_insert_eq.
  assert (Hraw : ∀ fk, fk ∈ omap (λ n, fst <$> foreignKeyOf importedType n) names →
                       read (props ent5) fk = read (raw_values rawEntity) fk).
  { intros fk Hfk. unfold read. simpl.
    rewrite lookup_insert_ne; [|intros Heq; apply Hpk; by rewrite Heq].
    by rewrite (right_id ∅ (∪)). }
  assert (Hfacts : ∀ w2 ent2,
            heap w2 !! created = Some ent2 → props ent2 = p' →
            hasTempKey <$> entityAspect ent2 = Some true →
            propertyOf w2 created (dp_name keyProp) = Some newPk
            ∧ hasTempKey <$> aspectOf w2 created = Some true
            ∧ (∀ n, n ∈ names →
                 ∃ fk parent v,
                   foreignKeyOf importedType n = Some (fk, parent)
                   ∧ remintedForeignKey (metadataStore (em w)) (cfg_tempKeyMap config)
                       parent (read (raw_values rawEntity) fk) = Some v
                   ∧ propertyOf w2 created fk = Some v)).
  { intros w2 ent2 Hent2 Hprops Htemp. unfold propertyOf, aspectOf, getProperty.
    rewrite Hent2. simpl. rewrite Hprops. split; [|split].
    - unfold read. rewrite (Hout _ Hpk). simpl. by rewrite lookup_insert_eq.
    - exact Htemp.
    - intros n Hn. destruct (Hin _ Hn) as (fk & parent & v & Hfk & Hv & Hp').
      exists fk, parent, v. split; [done|]. split.
      + rewrite <- (Hraw fk); [exact Hv|].
        apply list_elem_of_omap. exists n. split; [done|]. by rewrite Hfk.
      + unfold read. by rewrite Hp'. }
  apply bind_inv_Ok in Hrun as (target & w7 & Hattach & Hrun).
  apply bind_inv_Ok in Hrun as ([] & w8 & Hpub & Hrun).
  injection Hpub as <-.
  apply bind_inv_Ok in Hrun as ([] & w9 & Hnotify & Hrun).
  injection Hrun as <- <-.
  assert (Hheap : heap w9 = heap w7).
  { change (negb (isUnchanged Added)) with true in Hnotify. cbv iota in Hnotify.
    match type of Hnotify with
    | _notifyStateChange ?e true ?w0 = _ =>
        destruct (_notifyStateChange_needsSave e w0) as (w0' & Hn & Hh)
    end.
    rewrite Hn in Hnotify. injection Hnotify as <-. exact Hh. }
  unfold group_attachEntity in Hattach.
  rewrite (bind_Ok _ _ _ _ _ (getEntity_Ok _ _ _ Hent6)) in Hattach.
  rewrite (bind_Ok _ _ w6 (_entityGroupMap (em w)) w6) in Hattach by done.
  rewrite (bind_Ok _ _ w6 (heap w6) w6) in Hattach by done.
  destruct (lookupGroup (et_name importedType) (_entityGroupMap (em w)))
    as [group|] eqn:Hgroup; [|done].
  destruct (group_findEntityByKey (heap w6) group (keyValues ent6))
    as [cached|] eqn:Hfind.
  - injection Hattach as <- <-.
    destruct (Hfacts w9 ent6) as (Hpkfact & Htempfact & Hfkfact);
      [by rewrite Hheap|done|done|].
    split; [done|]. split; [done|]. split; [done|].
    right. exists group, ent6. rewrite Hheap. done.
  - erewrite bind_Ok in Hattach; [|reflexivity].
    erewrite bind_Ok in Hattach; [|reflexivity].
    erewrite bind_Ok in Hattach; last first.
    { eapply setAspect_Ok; [exact Hent6|reflexivity]. }
    injection Hattach as <- <-. simpl in Hheap.
    edestruct (Hfacts w9) as (Hpkfact & Htempfact & Hfkfact).
    { rewrite Hheap. apply lookup_insert_eq. }
    { reflexivity. }
    { reflexivity. }
    split; [done|]. split; [done|]. split; [done|].
    left. split; [done|].
    unfold stateOf, ownerOf. rewrite Hheap, lookup_insert_eq. done.
Qed.

(** The loops of an import, cut at one raw entity: what came before it has
    been imported when the loop comes to it. *)
Lemma importEntityGroup_split entityGroup config raws1 rawEntity raws2 : ∀ w entities w',
  importEntityGroup entityGroup (raws1 ++ rawEntity :: raws2) config w = Ok entities w' →
  ∃ before w1 attached w2,
    importEntityGroup entityGroup raws1 config w = Ok before w1
    ∧ importRawEntity entityGroup config rawEntity w1 = Ok attached w2
    ∧ entities !! length before = Some attached
    ∧ length before < length entities.
Proof.
  induction raws1 as [|r raws1 IH]; intros w entities w' Hrun; simpl in Hrun.
  - apply bind_inv_Ok in Hrun as (attached & w2 & Hraw & Hrun).
    apply bind_inv_Ok in Hrun as (rest & w3 & _ & Hrun).
    injection Hrun as <- <-.
    exists [], w, attached, w2. split_and!; [done|done|done|simpl; lia].
  - apply bind_inv_Ok in Hrun as (first & wa & Hfirst & Hrun).
    apply bind_inv_Ok in Hrun as (rest & wb & Hrest & Hrun).
    injection Hrun as <- <-.
    destruct (IH _ _ _ Hrest) as (before & w1 & attached & w2 & Hbefore & Hraw & Hat & Hlen).
    exists (first :: before), w1, attached, w2. split_and!; [|done|done|simpl; lia].
    simpl. rewrite (bind_Ok _ _ _ _ _ Hfirst). by rewrite (bind_Ok _ _ _ _ _ Hbefore).
Qed.

Lemma importGroups_split `{!ImportLaws} config ms name raws1 rawEntity raws2 groups2 T :
  namesItsTypes ms →
  ms_types ms !! name = Some T →
  ∀ groups1 w entities w',
    groupsTyped ms w →
    importGroups (groups1 ++ (name, raws1 ++ rawEntity :: raws2) :: groups2) config w
    = Ok entities w' →
    ∃ before w1 entityGroup attached w2,
      importGroups (groups1 ++ [(name, raws1)]) config w = Ok before w1
      ∧ groupsTyped ms w1
      ∧ eg_entityType entityGroup = T
      ∧ importRawEntity entityGroup config rawEntity w1 = Ok attached w2
      ∧ entities !! length before = Some attached.
Proof.
  intros Hnames HT.
  assert (Hfiled : ∀ n T0, ms_types ms !! n = Some T0 →
                           ∀ T', ms_types ms !! et_name T0 = Some T' → T' = T0).
  { intros n T0 HT0 T' HT'. rewrite (Hnames _ _ HT0) in HT'. congruence. }
  induction groups1 as [|[name0 raws0] groups1 IH]; intros w entities w' Hw Hrun;
    simpl in Hrun.
  - rewrite (bind_Ok _ _ w (em w) w) in Hrun by done.
    destruct Hw as [Hms Htyped]. rewrite Hms, HT in Hrun.
    apply bind_inv_Ok in Hrun as (entityGroup & wa & Hgroup & Hrun).
    apply bind_inv_Ok in Hrun as (imported & wb & Himported & Hrun).
    apply bind_inv_Ok in Hrun as (others & wc & _ & Hrun).
    injection Hrun as <- <-.
    assert (Hwa : groupsTyped ms wa).
    { eapply (typed_findOrCreateEntityGroup ms T); [by eapply Hfiled| |exact Hgroup].
      by split. }
    assert (HG : eg_entityType entityGroup = T).
    { rewrite findOrCreateEntityGroup_eq in Hgroup.
      destruct (lookupGroup (et_name T) (_entityGroupMap (em w))) as [g|] eqn:Hg.
      - injection Hgroup as <- <-. apply (Htyped (et_name T)); [done|].
        by rewrite (Hnames _ _ HT).
      - by injection Hgroup as <- <-. }
    destruct (importEntityGroup_split _ _ _ _ _ _ _ _ Himported)
      as (before & w1 & attached & w2 & Hbefore & Hraw & Hat & Hlen).
    exists (before ++ []), w1, entityGroup, attached, w2. split_and!.
    + simpl. rewrite (bind_Ok _ _ w (em w) w) by done. rewrite Hms, HT.
      rewrite (bind_Ok _ _ _ _ _ Hgroup). rewrite (bind_Ok _ _ _ _ _ Hbefore).
      reflexivity.
    + by eapply (typed_importEntityGroup ms); [|exact Hbefore].
    + exact HG.
    + exact Hraw.
    + rewrite app_nil_r. by rewrite lookup_app_l.
  - rewrite (bind_Ok _ _ w (em w) w) in Hrun by done.
    pose proof Hw as [Hms Htyped]. rewrite Hms in Hrun.
    destruct (ms_types ms !! name0) as [T0|] eqn:HT0; [|done].
    apply bind_inv_Ok in Hrun as (entityGroup0 & wa & Hgroup & Hrun).
    apply bind_inv_Ok in Hrun as (imported & wb & Himported & Hrun).
    apply bind_inv_Ok in Hrun as (others & wc & Hothers & Hrun).
    injection Hrun as <- <-.
    assert (Hwb : groupsTyped ms wb).
    { eapply (typed_importEntityGroup ms); [|exact Himported].
      eapply (typed_findOrCreateEntityGroup ms T0); [by eapply Hfiled|exact Hw|exact Hgroup]. }
    destruct (IH _ _ _ Hwb Hothers)
      as (before & w1 & entityGroup & attached & w2 & Hbefore & Hw1 & HG & Hraw & Hat).
    exists (imported ++ before), w1, entityGroup, attached, w2. split_and!; try done.
    + simpl. rewrite (bind_Ok _ _ w (em w) w) by done. rewrite Hms, HT0.
      rewrite (bind_Ok _ _ _ _ _ Hgroup). rewrite (bind_Ok _ _ _ _ _ Himported).
      by rewrite (bind_Ok _ _ _ _ _ Hbefore).
    + rewrite length_app. by rewrite lookup_app_r, Nat.add_comm, Nat.add_sub by lia.
Qed.

(** C8, amended.  Let [importEntities] return, on a manager whose metadata
    store files every type under its name and whose groups hold the types
    of their names.  First, the table it returns: every temp key of the
    bundle is given a key of its type whose value this manager's key
    generator made when it was handed the imported value as the value to
    prefer (so the new value can be the imported one), the generator
    remembering by then what it had handed out before the import and for
    the temp keys that come earlier in the bundle.  Second, the use of that
    table: when the import comes to a raw entity in state Added whose key
    the table maps, after it has imported what comes before it in the
    bundle, it creates an entity, marks it as having a temp key, writes the
    mapped value to its first key property and, for every navigation
    property the raw entity lists in [tempNavPropNames], writes to the
    foreign-key property the value the table gives for the foreign key the
    raw entity carries (the properties written being distinct); the entity
    is then attached as Added and is the one returned for the raw entity,
    unless its new key is itself the key of a cached entity, which is then
    the one returned. *)
Theorem importEntities_remints_temp_keys (laws : ImportLaws) (json : ExportBundle)
    (mergeStrategy : option MergeStrategy) (w : World) (entities : list Ref)
    (tempKeyMapping : gmap (string * list Value) EntityKey) (w' : World) :
  let ms := metadataStore (em w) in
  let kg := keyGenerator (em w) in
  let handedOut tempKeys := usedAfter (kg_next kg) ms tempKeys (kg_used kg) in
  let config :=
    {| cfg_mergeStrategy := match mergeStrategy with
                            | Some s => Some s
                            | None => qo_mergeStrategy (queryOptions (em w))
                            end;
       cfg_tempKeyMap := tempKeyMapping |} in
  let begun :=
    with_em (with_pendingPubs (Some [])
               (em (withKeysUsed (handedOut (tempKeys json)) w)))
            (withKeysUsed (handedOut (tempKeys json)) w) in
  namesItsTypes ms →
  groupsTyped ms w →
  importEntities json mergeStrategy w = Ok (entities, tempKeyMapping) w' →
  (∀ before k after,
     tempKeys json = before ++ k :: after → k ∉ after →
     ∃ T, ms_types ms !! k.1 = Some T
          ∧ tempKeyMapping !! k
            = Some {| ek_entityType := T;
                      ek_values := [kg_next kg (handedOut before) T (head k.2)] |})
  ∧ (∀ groups1 name raws1 rawEntity raws2 groups2 T keyProp otherKeyProps newTempKey,
       let names := default [] (tempNavPropNames rawEntity) in
       entityGroupMap json = groups1 ++ (name, raws1 ++ rawEntity :: raws2) :: groups2 →
       ms_types ms !! name = Some T →
       keyProperties T = keyProp :: otherKeyProps →
       raw_entityState rawEntity = Some Added →
       getMappedKey tempKeyMapping (getEntityKeyFromRawEntity T rawEntity)
       = Some newTempKey →
       NoDup (dp_name keyProp :: omap (λ n, fst <$> foreignKeyOf T n) names) →
       ∃ before w1 entityGroup attached w2,
         importGroups (groups1 ++ [(name, raws1)]) config begun = Ok before w1
         ∧ eg_entityType entityGroup = T
         ∧ importRawEntity entityGroup config rawEntity w1 = Ok attached w2
         ∧ entities !! length before = Some attached
         ∧ let created := fresh (dom (heap w1)) in
           propertyOf w2 created (dp_name keyProp)
           = Some (default VUndefined (head (ek_values newTempKey)))
           ∧ hasTempKey <$> aspectOf w2 created = Some true
           ∧ (∀ n, n ∈ names →
                ∃ fk parent v,
                  foreignKeyOf T n = Some (fk, parent)
                  ∧ remintedForeignKey ms tempKeyMapping parent
                      (read (raw_values rawEntity) fk) = Some v
                  ∧ propertyOf w2 created fk = Some v)
           ∧ ((attached = created
               ∧ stateOf (heap w2) created = Some Added
               ∧ ownerOf (heap w2) created = Some (em_id (em w1)))
              ∨ (∃ group ent,
                   lookupGroup name (_entityGroupMap (em w1)) = Some group
                   ∧ heap w2 !! created = Some ent
                   ∧ group_findEntityByKey (heap w2) group (keyValues ent)
                     = Some attached))).
Proof.
  intros ms kg handedOut config begun Hnames Htyped Himport.
  unfold importEntities in Himport.
  rewrite (bind_Ok _ _ w (em w) w) in Himport by done.
  apply bind_inv_Ok in Himport as (table & wt & Htable & Himport).
  apply bind_inv_Ok in Himport as ([] & wp & Hbegin & Himport).
  injection Hbegin as <-.
  apply bind_inv_Ok in Himport as (linked & w3 & Hbody & Himport).
  injection Himport as <- <- <-.
  destruct (makeTempKeyMap_table _ _ _ _ _ Hnames Htable) as (-> & Hin & _).
  fold kg ms in Hin, Hbody. fold (handedOut (tempKeys json)) in Hbody. fold begun in Hbody.
  fold config in Hbody.
  split; [exact Hin|].
  intros groups1 name raws1 rawEntity raws2 groups2 T keyProp otherKeyProps newTempKey
         names Hgroups HT Hkey Hstate Hmapped Hnodup.
  apply try_finally_inv_Ok in Hbody as (wb & Hbody & _).
  apply bind_inv_Ok in Hbody as (imported & wg & Hloop & Hbody).
  apply bind_inv_Ok in Hbody as ([] & wl & _ & Hbody).
  injection Hbody as <- <-.
  rewrite Hgroups in Hloop.
  destruct (importGroups_split config ms name raws1 rawEntity raws2 groups2 T Hnames HT
              groups1 begun imported wg)
    as (before & w1 & entityGroup & attached & w2 & Hbefore & Hw1 & HG & Hraw & Hat).
  { exact Htyped. }
  { exact Hloop. }
  exists before, w1, entityGroup, attached, w2.
  split; [exact Hbefore|]. split; [exact HG|]. split; [exact Hraw|]. split; [exact Hat|].
  subst T.
  destruct (importRawEntity_new_temp_key entityGroup config rawEntity w1 newTempKey
              keyProp otherKeyProps attached w2 Hstate Hmapped Hkey Hnodup Hraw)
    as (Hpk & Htemp & Hfk & Hcase).
  destruct Hw1 as [Hms1 _]. rewrite Hms1 in Hfk.
  rewrite (Hnames _ _ HT) in Hcase.
  split; [exact Hpk|]. split; [exact Htemp|]. split; [exact Hfk|]. exact Hcase.
Qed.

End Properties.

(** ** The cached flag against the entities *)

(** C1, at an input where the code departs from it.  A manager caches an
    Unchanged customer with key 1; a second customer object with the same
    key is attached as Modified under SkipMerge.  The merge leaves the
    cached entity as it is and returns it, yet [attachEntity] reports a state
    change for the state that was asked for: [hasChanges()] answers true
    while no entity of the manager is Added, Modified or Deleted. *)
Theorem hasChanges_true_without_changed_entity :
  ∃ (cached : Ref) (w1 w2 : World),
    createEntity (H := plainCollaborators) 2 Customer {[ "id" := VNum 1 ]}
      (Some Unchanged) None emptyWorld = Ok cached w1
    ∧ createEntity (H := plainCollaborators) 2 Customer {[ "id" := VNum 1 ]}
        (Some Modified) (Some SkipMerge) w1 = Ok cached w2
    ∧ hasChanges None w2 = true
    ∧ _hasChangesCore None w2 = false
    ∧ getChangesCore None w2 = []
    ∧ map (λ p, (fst p, omap (λ slot, slot ≫= stateOf (heap w2)) (_entities (snd p))))
          (_entityGroupMap (em w2))
      = [("Customer", [Unchanged])].
Proof.
  exists 0.
  eexists. eexists.
  split; [vm_compute; reflexivity|].
  split; [vm_compute; reflexivity|].
  vm_compute. done.
Qed.

(** ** Concurrency properties across save attempts *)

(** C4, at an input where the code departs from it.  A customer whose
    numeric concurrency property [rowVersion] is 0 is edited and saved
    twice, the adapter failing both times.  The first attempt bumps
    [rowVersion] to 1 and records 0 as its original value; the second
    attempt finds that recorded value, which is falsy, and bumps the
    property again. *)
Theorem rowVersion_bumped_again_on_second_attempt :
  ∃ (customer : Ref) (w0 w1 w2 : World),
    (customer ← createEntity (H := offlineCollaborators) 2 Customer
                  {[ "id" := VNum 1; "rowVersion" := VNum 0; "name" := VStr "a" ]}
                  (Some Unchanged) None;
     setProperty customer "name" (VStr "b");;
     mret customer) emptyWorld = Ok customer w0
    ∧ stateOf (heap w0) customer = Some Modified
    ∧ originalValueOf w0 customer "rowVersion" = None
    ∧ saveChanges (H := offlineCollaborators) 1 None None false false w0
      = Ok (Rejected "NetworkError") w1
    ∧ propertyOf w1 customer "rowVersion" = Some (VNum 1)
    ∧ originalValueOf w1 customer "rowVersion" = Some (VNum 0)
    ∧ saveChanges (H := offlineCollaborators) 1 None None false false w1
      = Ok (Rejected "NetworkError") w2
    ∧ propertyOf w2 customer "rowVersion" = Some (VNum 2).
Proof.
  exists 0.
  eexists. eexists. eexists.
  split; [vm_compute; reflexivity|].
  split; [vm_compute; reflexivity|].
  split; [vm_compute; reflexivity|].
  split; [vm_compute; reflexivity|].
  split; [vm_compute; reflexivity|].
  split; [vm_compute; reflexivity|].
  split; [vm_compute; reflexivity|].
  vm_compute; reflexivity.
Qed.

(** ** The local query *)

(** C7 as stated fails.  One contact is cached in state Deleted, no customer
    is cached, and the query for the contacts resolves to merge strategy
    OverwriteChanges without [includeDeleted].  The claim lets the entity
    through the filter and leaves the cache alone; the code leaves the
    entity out, because [executeQueryLocallyCore] looks at [includeDeleted]
    only, and it gives the manager an entity group for the customers, the
    subtype, which it did not have. *)
Lemma executeQueryLocally_ignores_merge_strategy :
  ∃ (deleted : Ref) (w w' : World),
    createEntity (H := plainCollaborators) 2 Contact {[ "id" := VNum 1 ]}
      (Some Deleted) None emptyWorld = Ok deleted w
    ∧ executeQueryLocally (H := plainCollaborators) contactsOverwriting w = Ok [] w'
    ∧ executeQueryLocally_as_specified (H := plainCollaborators) contactsOverwriting w
      = [AnEntity deleted]
    ∧ lookupGroup "Customer" (_entityGroupMap (em w)) = None
    ∧ lookupGroup "Customer" (_entityGroupMap (em w'))
      = Some {| eg_entityType := Customer; _entities := [] |}.
Proof.
  exists 0. eexists. eexists.
  split; [vm_compute; reflexivity|].
  split; [vm_compute; reflexivity|].
  split; [vm_compute; reflexivity|].
  split; vm_compute; reflexivity.
Qed.

(** ** Import against the claims on collisions and temp keys *)

(** An equation between closed terms, settled by evaluating its two sides. *)
Ltac evaluated :=
  lazymatch goal with
  | |- ?l = ?r => vm_cast_no_check (@eq_refl _ r)
  end.


(** C8 as stated fails.  A fresh manager imports a bundle whose one temp key
    is customer -1.  Its key generator, offered -1 and not having handed it
    out, gives -1 back: the table maps the imported key to itself and the
    imported customer is attached under the imported value. *)
Lemma importEntities_reuses_temp_key_value :
  ∃ (imported : Ref) (tempKeyMapping : gmap (string * list Value) EntityKey) (w' : World),
    importEntities (H := plainCollaborators) bundleWithTempKey None emptyWorld
    = Ok ([imported], tempKeyMapping) w'
    ∧ tempKeyMapping !! ("Customer", [VNum (-1)])
      = Some {| ek_entityType := Customer; ek_values := [VNum (-1)] |}
    ∧ propertyOf w' imported "id" = Some (VNum (-1))
    ∧ ownerOf (heap w') imported = Some (em_id (em emptyWorld)).
Proof.
  exists 0,
    {[ ("Customer", [VNum (-1)]) := {| ek_entityType := Customer; ek_values := [VNum (-1)] |} ]},
    (world_after (importEntities (H := plainCollaborators) bundleWithTempKey None) emptyWorld).
  split; [apply run_Ok; evaluated|].
  split; [evaluated|].
  split; vm_compute; reflexivity.
Qed.

(** ** The statements above, at concrete inputs *)

Lemma plainCollaborators_laws : CollaboratorLaws (H := plainCollaborators).
Proof. split; intros; apply preserves_ret. Qed.

Lemma rejectChanges_without_changes_witness :
  _hasChanges (em emptyWorld) = false
  ∧ rejectChanges (H := plainCollaborators) emptyWorld = Ok [] emptyWorld.
Proof.
  split; [reflexivity|].
  apply (rejectChanges_without_changes (H := plainCollaborators) emptyWorld).
  reflexivity.
Defined.


Lemma saveChanges_rejects_concurrent_save_witness :
  ∃ err,
    saveChanges (H := plainCollaborators) 1 None None false true oneCustomerBeingSaved
    = Ok (Rejected err)
         (with_trace (trace oneCustomerBeingSaved ++ [ErrorCallbackCalled err])
                     oneCustomerBeingSaved).
Proof.
  eexists.
  eapply (saveChanges_rejects_concurrent_save (H := plainCollaborators)
            1 None None false true oneCustomerBeingSaved oneCustomerBeingSaved [0] 0).
  - vm_compute; reflexivity.
  - vm_compute; reflexivity.
  - vm_compute. apply list_elem_of_here.
  - vm_compute; reflexivity.
  - vm_compute; reflexivity.
  - vm_compute; reflexivity.
Defined.

Lemma executeQueryLocally_stages_witness :
  ∃ created,
    executeQueryLocally (H := plainCollaborators) customersOverwriting oneAddedCustomer
    = Ok [AnEntity 0] (withGroupsCreated created oneAddedCustomer).
Proof.
  destruct (executeQueryLocally_stages (H := plainCollaborators)
              customersOverwriting oneAddedCustomer) as (created & _ & Hrun).
  - discriminate.
  - intros e He. vm_compute in He.
    apply list_elem_of_singleton in He as ->. vm_compute. eauto.
  - exists created. exact Hrun.
Defined.

Lemma attachEntity_twice_witness :
  (∃ w', attachEntity (H := plainCollaborators) 2 0 (Some Added) None oneDetachedCustomer
         = Ok 0 w'
       ∧ attachEntity (H := plainCollaborators) 2 0 (Some Added) None w' = Ok 0 w')
  ∧ (∃ message, attachEntity (H := plainCollaborators) 1 0 None None foreignWorld
                = Throw message foreignWorld).
Proof.
  split.
  - eexists. split; [vm_compute; reflexivity|].
    apply (proj1 (attachEntity_twice (H := plainCollaborators)
                    plainCollaborators_laws 2 0 (Some Added) oneDetachedCustomer)).
    vm_compute; reflexivity.
  - eapply (proj2 (attachEntity_twice (H := plainCollaborators)
                     plainCollaborators_laws 0 0 None foreignWorld)).
    + vm_compute; reflexivity.
    + reflexivity.
    + reflexivity.
    + reflexivity.
    + vm_compute. discriminate.
Defined.


Lemma plainCollaborators_importLaws : ImportLaws (H := plainCollaborators).
Proof.
  split.
  - intros target rawEntity w ent a Hent _ _. by apply setProps_Ok.
  - intros ms target rawEntity. apply (preserves_em_setProps (typedGroups ms)).
  - intros ms entity state. apply (preserves_em_setAspect (typedGroups ms)).
Qed.

Lemma importEntities_remints_temp_keys_witness :
  ∃ entities tempKeyMapping w',
    importEntities (H := plainCollaborators) shopBundle None shopWithCustomer
    = Ok (entities, tempKeyMapping) w'
    ∧ tempKeyMapping !! ("Customer", [VNum (-1)])
      = Some {| ek_entityType := Customer; ek_values := [VNum (-2)] |}
    ∧ ∃ order w2,
        propertyOf w2 order "id" = Some (VNum (-1))
        ∧ propertyOf w2 order "customerId" = Some (VNum (-2)).
Proof.
  set (table := {[ ("Customer", [VNum (-1)])
                     := {| ek_entityType := Customer; ek_values := [VNum (-2)] |};
                   ("Order", [VNum (-1)])
                     := {| ek_entityType := Order; ek_values := [VNum (-1)] |} ]}
                : gmap (string * list Value) EntityKey).
  set (w' := world_after (importEntities (H := plainCollaborators) shopBundle None)
                         shopWithCustomer).
  assert (Hrun : importEntities (H := plainCollaborators) shopBundle None shopWithCustomer
                 = Ok ([1; 2], table) w').
  { apply (run_Ok (importEntities (H := plainCollaborators) shopBundle None)
                  shopWithCustomer).
    evaluated. }
  assert (Hms : metadataStore (em shopWithCustomer)
                = {| ms_id := 1;
                     ms_types := {[ "Customer" := Customer; "Order" := Order ]} |})
    by evaluated.
  assert (Hgroups : _entityGroupMap (em shopWithCustomer)
                    = [("Order", {| eg_entityType := Order; _entities := [] |});
                       ("Customer", {| eg_entityType := Customer; _entities := [Some 0] |})])
    by evaluated.
  assert (Hfiled : ∀ name T,
            ({[ "Customer" := Customer; "Order" := Order ]} : gmap string EntityType) !! name
            = Some T → name = et_name T ∧ (T = Customer ∨ T = Order)).
  { intros name T Hl. apply lookup_insert_Some in Hl as [[<- <-]|[_ Hl]]; [by auto|].
    apply lookup_singleton_Some in Hl as [<- <-]. by auto. }
  destruct (importEntities_remints_temp_keys (H := plainCollaborators)
              plainCollaborators_importLaws shopBundle None shopWithCustomer
              [1; 2] table w') as [Htable Huse].
  - rewrite Hms. intros name T Hl. by destruct (Hfiled _ _ Hl) as [-> _].
  - split; [reflexivity|]. rewrite Hms, Hgroups. intros name group T Hl HT.
    destruct (Hfiled _ _ HT) as [-> HT'].
    simpl in Hl. destruct HT' as [->| ->]; simpl in Hl; by injection Hl as <-.
  - exact Hrun.
  - exists [1; 2], table, w'. split; [exact Hrun|]. split.
    + destruct (Htable [] ("Customer", [VNum (-1)]) [("Order", [VNum (-1)])])
        as (T & HT & Hk); [reflexivity| |].
      { intros Hin. apply list_elem_of_singleton in Hin. discriminate. }
      rewrite Hms in HT. simpl in HT.
      assert (T = Customer) as -> by (vm_compute in HT; by injection HT as <-).
      etransitivity; [exact Hk|evaluated].
    + destruct (Huse [("Customer", [importedCustomer])] "Order" [] importedOrder [] []
                  Order {| dp_name := "id"; dataType := Int32; defaultValue := VNum 0 |} []
                  {| ek_entityType := Order; ek_values := [VNum (-1)] |})
        as (before & w1 & entityGroup & attached & w2 & _ & _ & _ & _ & Hpk & _ & Hfk & _).
      * reflexivity.
      * evaluated.
      * reflexivity.
      * reflexivity.
      * evaluated.
      * vm_compute. apply NoDup_cons. split.
        -- intros Hin. apply list_elem_of_singleton in Hin. discriminate.
        -- apply NoDup_singleton.
      * exists (fresh (dom (heap w1))), w2. split; [exact Hpk|].
        destruct (Hfk "customer") as (fk & parent & v & Hnav & Hv & Hprop);
          [apply list_elem_of_here|].
        vm_compute in Hnav. injection Hnav as <- <-.
        assert (v = VNum (-2)) as <-; [|exact Hprop].
        assert (remintedForeignKey (metadataStore (em shopWithCustomer)) table "Customer"
                  (read (raw_values importedOrder) "customerId") = Some (VNum (-2)))
          as Hv' by evaluated.
        rewrite Hv' in Hv. by injection Hv as <-.
Defined.

(** * Further properties *)

(** ** Helpers *)

Lemma ownerOf_inv h e id :
  ownerOf h e = Some id →
  ∃ ent a, h !! e = Some ent ∧ entityAspect ent = Some a ∧ entityManager a = Some id.
Proof.
  unfold ownerOf. destruct (h !! e) as [ent|]; [|done]. simpl.
  destruct (entityAspect ent) as [a|] eqn:Ha; [|done]. simpl. eauto.
Qed.

Lemma aspectOf_inv w e a :
  aspectOf w e = Some a → ∃ ent, heap w !! e = Some ent ∧ entityAspect ent = Some a.
Proof.
  unfold aspectOf. destruct (heap w !! e) as [ent|]; [|done]. simpl. eauto.
Qed.

Lemma forEach_cons_single {A} (f : A → M unit) (x : A) (l : list A) (w : World) :
  forEach (x :: l) f w
  = match forEach [x] f w with
    | Ok _ w1 => forEach l f w1
    | Throw message w1 => Throw message w1
    | OutOfFuel => OutOfFuel
    end.
Proof. simpl. unfold mbind, M_bind. by destruct (f x w) as [[] w1| |]. Qed.

Section MoreProperties.
Context `{Collaborators}.

(** ** The set of entities to save *)

(** X1. Handed an array of entities that all belong to this manager,
    [getEntitiesToSave] returns those of them that are not Detached, in the
    order given, and changes nothing. *)
Theorem getEntitiesToSave_of_list (entities : list Ref) (w : World) :
  (∀ e, e ∈ entities → ownerOf (heap w) e = Some (em_id (em w))) →
  getEntitiesToSave (Some entities) w
  = Ok (filter (λ e, stateOf (heap w) e ≠ Some Detached) entities) w.
Proof.
  induction entities as [|e l IH]; intros Hown; [done|].
  destruct (ownerOf_inv _ _ _ (Hown e (list_elem_of_here _ _))) as (ent & a & Hent & Ha & Hm).
  simpl. simpl in IH.
  erewrite bind_Ok; last first.
  { rewrite (bind_Ok _ _ _ _ _ (getAspect_Ok _ _ _ _ Hent Ha)).
    rewrite (bind_Ok _ _ w (em w) w) by done.
    rewrite Hm, bool_decide_eq_true_2 by done. reflexivity. }
  rewrite (bind_Ok _ _ _ _ _ (IH (λ e' He', Hown e' (list_elem_of_further _ _ _ He')))).
  assert (Hs : stateOf (heap w) e = Some (entityState a)).
  { unfold stateOf. rewrite Hent. simpl. by rewrite Ha. }
  rewrite filter_cons. cbv beta. rewrite Hs. unfold isDetached.
  by destruct (entityState a).
Qed.


(** X2. Handed an array in which every entity has an aspect and one of them
    does not belong to this manager (it belongs to another one, or to
    none), [getEntitiesToSave] throws and changes nothing. *)
Theorem getEntitiesToSave_rejects_foreign (entities : list Ref) (w : World) (e : Ref) :
  (∀ e', e' ∈ entities → is_Some (aspectOf w e')) →
  e ∈ entities →
  ownerOf (heap w) e ≠ Some (em_id (em w)) →
  getEntitiesToSave (Some entities) w
  = Throw "Only entities in this entityManager may be saved" w.
Proof.
  induction entities as [|e0 l IH]; intros Hasp Hin Hforeign.
  { by apply elem_of_nil in Hin. }
  destruct (Hasp e0 (list_elem_of_here _ _)) as [a Ha].
  apply aspectOf_inv in Ha as (ent & Hent & Ha).
  assert (Ho : ownerOf (heap w) e0 = entityManager a).
  { unfold ownerOf. rewrite Hent. simpl. by rewrite Ha. }
  simpl. simpl in IH.
  destruct (decide (entityManager a = Some (em_id (em w)))) as [Hm|Hm].
  - erewrite bind_Ok; last first.
    { rewrite (bind_Ok _ _ _ _ _ (getAspect_Ok _ _ _ _ Hent Ha)).
      rewrite (bind_Ok _ _ w (em w) w) by done.
      rewrite bool_decide_eq_true_2 by done. reflexivity. }
    erewrite bind_Throw; [reflexivity|].
    apply IH; [|idtac|done].
    + intros e' He'. apply Hasp. by apply list_elem_of_further.
    + apply elem_of_cons in Hin as [->|Hin]; [|done]. congruence.
  - erewrite bind_Throw; [reflexivity|].
    rewrite (bind_Ok _ _ _ _ _ (getAspect_Ok _ _ _ _ Hent Ha)).
    rewrite (bind_Ok _ _ w (em w) w) by done.
    by rewrite bool_decide_eq_false_2 by done.
Qed.


(** ** The marks of a save in progress *)

(** X3. [markIsBeingSaved(entities, flag)], on entities that all have an
    aspect, sets [isBeingSaved] to the flag on each of them and touches
    nothing else: not the rest of their aspects, not other entities, not
    the manager, and nothing is published. *)
Theorem markIsBeingSaved_marks (entities : list Ref) (flag : bool) (w : World) :
  (∀ e, e ∈ entities → is_Some (aspectOf w e)) →
  ∃ w', markIsBeingSaved entities flag w = Ok () w'
        ∧ em w' = em w ∧ trace w' = trace w ∧ ticks w' = ticks w
        ∧ (∀ e, e ∉ entities → heap w' !! e = heap w !! e)
        ∧ (∀ e ent a, e ∈ entities → heap w !! e = Some ent → entityAspect ent = Some a →
             heap w' !! e = Some (with_entityAspect (Some (with_isBeingSaved flag a)) ent)).
Proof.
  revert w. induction entities as [|e0 l IH]; intros w Hasp.
  { exists w. split_and!; try done. intros e ent a Hin. by apply elem_of_nil in Hin. }
  destruct (Hasp e0 (list_elem_of_here _ _)) as [a0 Ha0].
  apply aspectOf_inv in Ha0 as (ent0 & Hent0 & Ha0).
  unfold markIsBeingSaved. simpl.
  rewrite (bind_Ok _ _ _ _ _ (setAspect_Ok _ _ _ _ _ Hent0 Ha0)).
  set (w1 := with_heap _ w).
  destruct (IH w1) as (w' & Hrun & Hem & Htr & Hti & Hout & Hin).
  { intros e He. unfold aspectOf, w1. simpl.
    destruct (decide (e = e0)) as [->|Hne].
    - rewrite lookup_insert_eq. simpl. eauto.
    - rewrite lookup_insert_ne by done. apply (Hasp e). by apply list_elem_of_further. }
  exists w'. split; [exact Hrun|]. split_and!; try done.
  - intros e He. apply not_elem_of_cons in He as [Hne Hl].
    rewrite (Hout e Hl). unfold w1. simpl. by rewrite lookup_insert_ne.
  - intros e ent a He Hent Ha.
    destruct (decide (e ∈ l)) as [Hl|Hl].
    + destruct (decide (e = e0)) as [->|Hne].
      * assert (ent = ent0) as -> by congruence. assert (a = a0) as -> by congruence.
        erewrite (Hin e0); [| done | unfold w1; simpl; apply lookup_insert_eq | reflexivity].
        reflexivity.
      * eapply Hin; [done| |done]. unfold w1. simpl. by rewrite lookup_insert_ne.
    + apply elem_of_cons in He as [->|He]; [|done].
      assert (ent = ent0) as -> by congruence. assert (a = a0) as -> by congruence.
      rewrite (Hout e0 Hl). unfold w1. simpl. apply lookup_insert_eq.
Qed.


(** ** Client validation before a save *)

Lemma filterM_none {A} (f : A → M bool) (l : list A) (w : World) :
  (∀ x, x ∈ l → f x w = Ok false w) → filterM f l w = Ok [] w.
Proof.
  induction l as [|x l IH]; intros Hf; [done|]. simpl.
  rewrite (bind_Ok _ _ _ _ _ (Hf x (list_elem_of_here _ _))).
  rewrite (bind_Ok _ _ _ _ _ (IH (λ y Hy, Hf y (list_elem_of_further _ _ _ Hy)))).
  reflexivity.
Qed.

(** X4. [saveChangesValidateOnClient] finds nothing to report, runs no
    validator and changes nothing when [validateOnSave] is off, and also
    when every entity to save is Deleted: deleted entities are not
    validated. *)
Theorem saveChangesValidateOnClient_skips_deleted (entitiesToSave : list Ref) (w : World) :
  validateOnSave (validationOptions (em w)) = false
  ∨ (∀ e, e ∈ entitiesToSave → stateOf (heap w) e = Some Deleted) →
  saveChangesValidateOnClient entitiesToSave w = Ok None w.
Proof.
  intros Hcase. unfold saveChangesValidateOnClient.
  rewrite (bind_Ok _ _ w (validationOptions (em w)) w) by done.
  destruct (validateOnSave (validationOptions (em w))) eqn:Hv; [|done].
  destruct Hcase as [?|Hdel]; [done|].
  erewrite bind_Ok; last first.
  { apply filterM_none. intros e He. specialize (Hdel e He).
    unfold stateOf in Hdel.
    destruct (heap w !! e) as [ent|] eqn:Hent; [|done]. simpl in Hdel.
    destruct (entityAspect ent) as [a|] eqn:Ha; [|done]. simpl in Hdel.
    injection Hdel as Hs.
    rewrite (bind_Ok _ _ _ _ _ (getAspect_Ok _ _ _ _ Hent Ha)).
    rewrite Hs. reflexivity. }
  reflexivity.
Qed.


(** ** Server errors of an earlier save *)

Lemma filter_server_none (errors : list ValidationError) :
  length (filter (λ ve, isServerError ve = true) errors) = 0 →
  filter (λ ve, isServerError ve = false) errors = errors.
Proof.
  induction errors as [|ve l IH]; [done|].
  rewrite !filter_cons. destruct (isServerError ve) eqn:Hs; simpl.
  - done.
  - intros Hl. by rewrite IH.
Qed.

Lemma with_validationErrors_same ent a :
  entityAspect ent = Some a →
  with_entityAspect (Some (with_validationErrors (_validationErrors a) a)) ent = ent.
Proof. destruct ent as [T p oa], a. simpl. by intros ->. Qed.

Lemma filter_server_length (errors : list ValidationError) :
  bool_decide (length (filter (λ ve, isServerError ve = true) errors) = 0)
  = negb (existsb isServerError errors).
Proof.
  induction errors as [|ve l IH]; [done|].
  rewrite filter_cons. simpl. destruct (isServerError ve); simpl; [done|exact IH].
Qed.

(** What [clearServerErrors] does with one entity. *)
Lemma clearServerErrors_step (e : Ref) (w : World) ent a :
  heap w !! e = Some ent → entityAspect ent = Some a →
  let cleared := with_entityAspect
                   (Some (with_validationErrors
                            (filter (λ ve, isServerError ve = false) (_validationErrors a)) a))
                   ent in
  clearServerErrors [e] w
  = Ok () (with_trace (trace w ++ (if hasServerError a
                                   then [Published (ValidationErrorsChanged e)] else []))
             (with_heap (<[e := cleared]> (heap w)) w)).
Proof.
  intros Hent Ha cleared. unfold clearServerErrors. simpl.
  erewrite bind_Ok; [reflexivity|].
  rewrite (bind_Ok _ _ _ _ _ (getAspect_Ok _ _ _ _ Hent Ha)).
  rewrite filter_server_length. unfold hasServerError.
  destruct (existsb isServerError (_validationErrors a)) eqn:Hex; simpl.
  - rewrite (bind_Ok _ _ _ _ _ (setAspect_Ok _ _ _ _ _ Hent Ha)).
    reflexivity.
  - unfold cleared. rewrite filter_server_none; last first.
    { pose proof (filter_server_length (_validationErrors a)) as Hl.
      rewrite Hex in Hl. by apply bool_decide_eq_true_1 in Hl. }
    rewrite (with_validationErrors_same _ _ Ha).
    rewrite insert_id by done. rewrite app_nil_r. by destruct w.
Qed.

Lemma clearServerErrors_cons (e : Ref) (l : list Ref) (w : World) :
  clearServerErrors (e :: l) w
  = match clearServerErrors [e] w with
    | Ok _ w1 => clearServerErrors l w1
    | Throw message w1 => Throw message w1
    | OutOfFuel => OutOfFuel
    end.
Proof. unfold clearServerErrors. apply forEach_cons_single. Qed.

Lemma filter_client_idemp (errors : list ValidationError) :
  filter (λ ve, isServerError ve = false) (filter (λ ve, isServerError ve = false) errors)
  = filter (λ ve, isServerError ve = false) errors.
Proof.
  induction errors as [|ve l IH]; [done|].
  rewrite filter_cons. destruct (decide _) as [Hs|Hs]; [|done].
  rewrite filter_cons, decide_True by done. by rewrite IH.
Qed.

Lemma filter_client_no_server (errors : list ValidationError) :
  existsb isServerError (filter (λ ve, isServerError ve = false) errors) = false.
Proof.
  induction errors as [|ve l IH]; [done|].
  rewrite filter_cons. destruct (decide _) as [Hs|Hs]; [|done].
  simpl. by rewrite Hs.
Qed.

(** X5. [clearServerErrors(entities)], on entities that all have an aspect,
    removes from each of them the validation errors that came from the
    server and keeps the others; it publishes [validationErrorsChanged] for
    exactly the entities that had such an error, and touches no other
    entity and nothing of the manager. *)
Theorem clearServerErrors_clears (entities : list Ref) (w : World) :
  (∀ e, e ∈ entities → is_Some (aspectOf w e)) →
  ∃ w' published,
    clearServerErrors entities w = Ok () w'
    ∧ em w' = em w
    ∧ trace w' = trace w ++ map (λ e, Published (ValidationErrorsChanged e)) published
    ∧ (∀ e, e ∈ published ↔ e ∈ entities ∧ hasServerError <$> aspectOf w e = Some true)
    ∧ (∀ e, e ∉ entities → heap w' !! e = heap w !! e)
    ∧ (∀ e ent a, e ∈ entities → heap w !! e = Some ent → entityAspect ent = Some a →
         heap w' !! e
         = Some (with_entityAspect
                   (Some (with_validationErrors
                            (filter (λ ve, isServerError ve = false) (_validationErrors a)) a))
                   ent)).
Proof.
  revert w. induction entities as [|e0 l IH]; intros w Hasp.
  { exists w, []. split_and!; try done.
    - simpl. by rewrite app_nil_r.
    - intros e. split; [by intros ?%elem_of_nil|by intros [?%elem_of_nil _]].
    - intros e ent a Hin. by apply elem_of_nil in Hin. }
  destruct (Hasp e0 (list_elem_of_here _ _)) as [a0 Ha0].
  pose proof Ha0 as Hasp0.
  apply aspectOf_inv in Ha0 as (ent0 & Hent0 & Ha0).
  rewrite clearServerErrors_cons, (clearServerErrors_step _ _ _ _ Hent0 Ha0).
  set (cleared := with_entityAspect _ ent0).
  set (w1 := with_trace _ _).
  assert (Hother : ∀ e, e ≠ e0 → aspectOf w1 e = aspectOf w e).
  { intros e Hne. unfold aspectOf, w1. simpl. by rewrite lookup_insert_ne. }
  assert (Hself : aspectOf w1 e0
                  = Some (with_validationErrors
                            (filter (λ ve, isServerError ve = false) (_validationErrors a0)) a0)).
  { unfold aspectOf, w1. simpl. by rewrite lookup_insert_eq. }
  destruct (IH w1) as (w' & published & Hrun & Hem & Htr & Hpub & Hout & Hin).
  { intros e He. destruct (decide (e = e0)) as [->|Hne].
    - rewrite Hself. eauto.
    - rewrite (Hother e Hne). apply Hasp. by apply list_elem_of_further. }
  exists w', ((if hasServerError a0 then [e0] else []) ++ published).
  split; [exact Hrun|]. split; [by rewrite Hem|]. split_and!.
  - rewrite Htr. unfold w1. simpl. rewrite map_app, app_assoc.
    by destruct (hasServerError a0).
  - intros e. rewrite elem_of_app, Hpub, elem_of_cons. split.
    + intros [He|[He Hs]].
      * destruct (hasServerError a0) eqn:Hs0; [|by apply elem_of_nil in He].
        apply list_elem_of_singleton in He as ->. split; [by left|].
        by rewrite Hasp0; simpl; rewrite Hs0.
      * destruct (decide (e = e0)) as [->|Hne].
        -- rewrite Hself in Hs. simpl in Hs. unfold hasServerError in Hs. simpl in Hs.
           by rewrite filter_client_no_server in Hs.
        -- split; [by right|]. by rewrite <- (Hother e Hne).
    + intros [[->|He] Hs].
      * left. rewrite Hasp0 in Hs. simpl in Hs. injection Hs as ->. apply list_elem_of_here.
      * destruct (decide (e = e0)) as [->|Hne].
        -- left. rewrite Hasp0 in Hs. simpl in Hs. injection Hs as ->.
           apply list_elem_of_here.
        -- right. split; [done|]. by rewrite (Hother e Hne).
  - intros e He. apply not_elem_of_cons in He as [Hne Hl].
    rewrite (Hout e Hl). unfold w1. simpl. by rewrite lookup_insert_ne.
  - intros e ent a He Hent Ha.
    destruct (decide (e = e0)) as [->|Hne].
    + assert (ent = ent0) as -> by congruence. assert (a = a0) as -> by congruence.
      destruct (decide (e0 ∈ l)) as [Hl|Hl].
      * erewrite (Hin e0); [| done | unfold w1; simpl; apply lookup_insert_eq | reflexivity].
        simpl. by rewrite filter_client_idemp.
      * rewrite (Hout e0 Hl). unfold w1. simpl. apply lookup_insert_eq.
    + apply elem_of_cons in He as [->|He]; [done|].
      eapply Hin; [done| |done]. unfold w1. simpl. by rewrite lookup_insert_ne.
Qed.

(** ** Writing a property *)

Lemma sameButFlag_refl m : sameButFlag m m.
Proof. by repeat split. Qed.

Lemma sameButFlag_trans m1 m2 m3 :
  sameButFlag m1 m2 → sameButFlag m2 m3 → sameButFlag m1 m3.
Proof.
  intros (?&?&?&?&?&?&?&?&?) (?&?&?&?&?&?&?&?&?). repeat split; congruence.
Qed.

Lemma _setHasChanges_eq (b : option bool) (w : World) :
  let v := match b with Some v => v | None => _hasChangesCore None w end in
  _setHasChanges b w
  = Ok () (with_em (with_hasChangesAction None (with_hasChanges v (em w)))
             (with_trace (trace w ++ (if eqb v (_hasChanges (em w)) then []
                                      else [Published (HasChangesChanged v)])) w)).
Proof.
  intros v. unfold _setHasChanges. rewrite (bind_Ok _ _ w w w) by done.
  erewrite bind_Ok; [|reflexivity]. fold v.
  destruct (eqb v (_hasChanges (em w))); simpl.
  - erewrite bind_Ok; [|reflexivity]. unfold modify_em, modify. simpl.
    by rewrite app_nil_r.
  - erewrite bind_Ok; [|reflexivity]. reflexivity.
Qed.

Lemma _setHasChanges_Ok (b : option bool) (w : World) :
  ∃ w', _setHasChanges b w = Ok () w'
        ∧ heap w' = heap w ∧ ticks w' = ticks w ∧ sameButFlag (em w) (em w').
Proof.
  rewrite _setHasChanges_eq. eexists. split; [reflexivity|]. by repeat split.
Qed.

Lemma _notifyStateChange_Ok (entity : Ref) (needsSave : bool) (w : World) :
  ∃ w', _notifyStateChange entity needsSave w = Ok () w'
        ∧ heap w' = heap w ∧ ticks w' = ticks w ∧ sameButFlag (em w) (em w').
Proof.
  unfold _notifyStateChange. rewrite (bind_Ok _ _ w (em w) w) by done.
  destruct needsSave.
  - destruct (_hasChanges (em w)); simpl.
    + eexists. split; [reflexivity|]. by repeat split.
    + rewrite (bind_Ok _ _ _ _ _ (_setHasChanges_eq (Some true) w)).
      eexists. split; [reflexivity|]. by repeat split.
  - destruct (_hasChanges (em w)); [|eexists; split; [reflexivity|by repeat split]].
    destruct (isLoading (em w)) eqn:Hload.
    + eexists. split; [reflexivity|]. by repeat split.
    + rewrite (bind_Ok _ _ _ _ _ (_setHasChanges_eq None w)).
      eexists. split; [reflexivity|]. by repeat split.
Qed.

(** What the property setter does to the entity it is called on. *)
Lemma setProperty_Ok (entity : Ref) (name : string) (value : Value) (w : World) ent :
  heap w !! entity = Some ent →
  ∃ w' ent',
    setProperty entity name value w = Ok () w'
    ∧ heap w' = <[entity := ent']> (heap w)
    ∧ ticks w' = ticks w
    ∧ sameButFlag (em w) (em w')
    ∧ entityType ent' = entityType ent
    ∧ props ent' = <[name := value]> (props ent)
    ∧ isBeingSaved <$> entityAspect ent' = isBeingSaved <$> entityAspect ent
    ∧ entityManager <$> entityAspect ent' = entityManager <$> entityAspect ent.
Proof.
  intros Hent. unfold setProperty.
  rewrite (bind_Ok _ _ _ _ _ (getEntity_Ok _ _ _ Hent)).
  rewrite (bind_Ok _ _ w (em w) w) by done.
  rewrite (bind_Ok _ _ _ _ _ (setProps_Ok _ _ _ _ Hent)).
  set (ent1 := with_props _ ent). set (w1 := with_heap _ w).
  assert (Hent1 : heap w1 !! entity = Some ent1) by apply lookup_insert_eq.
  destruct (entityAspect ent) as [a|] eqn:Ha.
  2:{ exists w1, ent1. split; [reflexivity|]. simpl. rewrite Ha.
      split_and!; try done. }
  destruct (isLoading (em w) || isDetached (entityState a)).
  { exists w1, ent1. split; [reflexivity|]. simpl. rewrite Ha.
    split_and!; try done. }
  assert (∃ w2 ent2, (match originalValues a !! name with
                      | Some _ => mret ()
                      | None => setAspect entity
                                  (λ a, with_originalValues
                                          (<[name := getProperty ent name]> (originalValues a)) a)
                      end) w1 = Ok () w2
                     ∧ heap w2 = <[entity := ent2]> (heap w)
                     ∧ ticks w2 = ticks w ∧ em w2 = em w
                     ∧ entityType ent2 = entityType ent
                     ∧ props ent2 = <[name := value]> (props ent)
                     ∧ (∃ a2, entityAspect ent2 = Some a2
                              ∧ isBeingSaved a2 = isBeingSaved a
                              ∧ entityManager a2 = entityManager a))
    as (w2 & ent2 & Hr2 & Hh2 & Ht2 & Hem2 & HT2 & Hp2 & a2 & Ha2 & Hs2 & Hm2).
  { destruct (originalValues a !! name).
    - exists w1, ent1. split; [reflexivity|]. split_and!; try done. exists a. done.
    - eexists _, _. split.
      + eapply setAspect_Ok; [exact Hent1|]. simpl. exact Ha.
      + simpl. rewrite insert_insert_eq. split_and!; try done. eexists. done. }
  rewrite (bind_Ok _ _ _ _ _ Hr2).
  assert (Hent2 : heap w2 !! entity = Some ent2) by (rewrite Hh2; apply lookup_insert_eq).
  destruct (isUnchanged (entityState a)).
  2:{ exists w2, ent2. split; [reflexivity|]. rewrite Ha2, Hem2. simpl.
      split_and!; first [done | by f_equal | apply sameButFlag_refl]. }
  rewrite (bind_Ok _ _ _ _ _ (setAspect_Ok _ _ _ _ _ Hent2 Ha2)).
  set (w3 := with_heap _ w2).
  destruct (_notifyStateChange_Ok entity true w3) as (w4 & Hr4 & Hh4 & Ht4 & Hs4).
  rewrite Hr4. eexists w4, _. split; [reflexivity|].
  rewrite Hh4, Ht4. unfold w3 in *. simpl in *. rewrite Hh2, insert_insert_eq.
  rewrite Hem2 in Hs4.
  split_and!; first [done | by simpl; f_equal].
Qed.

(** ** Stamping the concurrency properties *)

Lemma propertyOf_insert (w w' : World) (entity : Ref) (ent' : Entity) (name : string) :
  heap w' = <[entity := ent']> (heap w) →
  propertyOf w' entity name = Some (read (props ent') name).
Proof. intros Hh. unfold propertyOf. rewrite Hh, lookup_insert_eq. done. Qed.

Lemma read_insert (obj : gmap string Value) (name : string) (value : Value) :
  read (<[name := value]> obj) name = value.
Proof. unfold read. by rewrite lookup_insert_eq. Qed.

Lemma resample_inv (fuel : nat) (dt : Z) (w : World) (dt2 : Z) (w' : World) :
  resample fuel dt w = Ok dt2 w' →
  ∃ n, n < fuel ∧ dt2 = clock (ticks w + n) ∧ dt2 ≠ dt
       ∧ (∀ i, i < n → clock (ticks w + i) = dt)
       ∧ w' = with_ticks (ticks w + S n) w.
Proof.
  revert w. induction fuel as [|fuel IH]; intros w Hr; [done|].
  simpl in Hr. unfold now in Hr at 1.
  unfold mbind, M_bind in Hr. case_bool_decide as Hsame.
  - apply IH in Hr as (n & Hn & Hdt2 & Hne & Hbefore & ->). simpl in *.
    exists (S n). split; [lia|]. split; [by rewrite Nat.add_succ_r|].
    split; [done|]. split.
    + intros [|i] Hi; [by rewrite Nat.add_0_r|].
      rewrite Nat.add_succ_r. apply Hbefore. lia.
    + unfold with_ticks. simpl. f_equal. lia.
  - injection Hr as <- <-. exists 0. rewrite Nat.add_0_r.
    split; [lia|]. split; [done|]. split; [congruence|]. split; [intros i Hi; lia|].
    unfold with_ticks. simpl. f_equal. lia.
Qed.

Lemma resample_Ok (fuel : nat) (dt : Z) (w : World) (n : nat) :
  n < fuel → clock (ticks w + n) ≠ dt →
  ∃ dt2 w', resample fuel dt w = Ok dt2 w'.
Proof.
  revert w n. induction fuel as [|fuel IH]; intros w n Hn Hne; [lia|].
  simpl. unfold now at 1. unfold mbind, M_bind. case_bool_decide as Hsame.
  - destruct n as [|n]; [by rewrite Nat.add_0_r in Hne|].
    apply (IH _ n); [lia|]. simpl. by rewrite Nat.add_succ_r in Hne.
  - eauto.
Qed.

(** X6. [updateConcurrencyProperty], on a property that the guard does not
    skip, goes by the data type.  A numeric property is written, and when
    the value it is computed from is a number [n], that value being the
    default of the data type when the property holds a falsy one, what is
    written is [n + 1] as JavaScript adds: the nearest double, which is
    [n + 1] itself as long as [n] is a safe integer.  A Guid property
    (neither numeric nor a date) is set to a generated uuid; a Binary
    property is left alone and nothing at all changes; any other type makes
    the call throw, with nothing changed. *)
Theorem updateConcurrencyProperty_by_type (fuel : nat) (entity : Ref)
    (property : DataProperty) (w : World) (ent : Entity) (a : EntityAspect) :
  heap w !! entity = Some ent →
  entityAspect ent = Some a →
  truthy (read (originalValues a) (dp_name property)) = false →
  let T := dataType property in
  let held := getProperty ent (dp_name property) in
  let value := if negb (truthy held) then dt_defaultValue T else held in
  if isNumeric T then
    ∃ w', updateConcurrencyProperty fuel entity property w = Ok () w'
          ∧ ∀ n, value = VNum n →
              propertyOf w' entity (dp_name property) = Some (VNum (toDouble (n + 1)))
              ∧ ((- 2 ^ 53 ≤ n < 2 ^ 53)%Z → toDouble (n + 1) = (n + 1)%Z)
  else if isDate T then True
  else if bool_decide (dt_id T = Guid) then
    ∃ w', updateConcurrencyProperty fuel entity property w = Ok () w'
          ∧ propertyOf w' entity (dp_name property) = Some (VStr (getUuid (ticks w)))
  else if bool_decide (dt_id T = Binary) then
    updateConcurrencyProperty fuel entity property w = Ok () w
  else
    updateConcurrencyProperty fuel entity property w
    = Throw ("Unable to update the value of concurrency property before saving: "
             ++ dp_name property) w.
Proof.
  intros Hent Ha Hguard T held value.
  unfold updateConcurrencyProperty.
  rewrite (bind_Ok _ _ _ _ _ (getEntity_Ok _ _ _ Hent)).
  rewrite (bind_Ok _ _ _ _ _ (getAspect_Ok _ _ _ _ Hent Ha)).
  rewrite Hguard. fold T held. cbv zeta. fold value.
  destruct (isNumeric T).
  { destruct (setProperty_Ok entity (dp_name property) (plus_one value) w ent Hent)
      as (w' & ent' & Hr & Hh & _ & _ & _ & Hp & _).
    exists w'. split; [exact Hr|]. intros n Hn. split.
    - rewrite (propertyOf_insert _ _ _ _ _ Hh), Hp, Hn. by rewrite read_insert.
    - intros Hsafe. unfold toDouble.
      assert ((Z.abs (n + 1) <=? 2 ^ 53)%Z = true) as ->; [|done].
      apply Z.leb_le. change (2 ^ 53)%Z with 9007199254740992%Z in *. lia. }
  destruct (isDate T); [done|].
  case_bool_decide as Hguid.
  { set (w1 := with_ticks (S (ticks w)) w).
    destruct (setProperty_Ok entity (dp_name property) (VStr (getUuid (ticks w))) w1 ent Hent)
      as (w' & ent' & Hr & Hh & _ & _ & _ & Hp & _).
    exists w'. split.
    - erewrite bind_Ok; [exact Hr|reflexivity].
    - rewrite (propertyOf_insert w1 _ _ _ _ Hh), Hp. by rewrite read_insert. }
  by case_bool_decide.
Qed.

(** X7. For a date property that the guard does not skip,
    [updateConcurrencyProperty] reads the clock once and then again until
    the time read differs from the first one: the property is set to the
    first time that differs, which is never the time of the first reading,
    and the call returns as soon as the clock has moved. *)
Theorem updateConcurrencyProperty_date (fuel : nat) (entity : Ref)
    (property : DataProperty) (w : World) (ent : Entity) (a : EntityAspect) :
  heap w !! entity = Some ent →
  entityAspect ent = Some a →
  truthy (read (originalValues a) (dp_name property)) = false →
  isNumeric (dataType property) = false →
  isDate (dataType property) = true →
  (∀ w', updateConcurrencyProperty fuel entity property w = Ok () w' →
     ∃ n, n < fuel
          ∧ propertyOf w' entity (dp_name property) = Some (VDate (clock (ticks w + S n)))
          ∧ clock (ticks w + S n) ≠ clock (ticks w)
          ∧ (∀ i, i < n → clock (ticks w + S i) = clock (ticks w))
          ∧ ticks w' = ticks w + S (S n))
  ∧ (∀ n, n < fuel → clock (ticks w + S n) ≠ clock (ticks w) →
       ∃ w', updateConcurrencyProperty fuel entity property w = Ok () w').
Proof.
  intros Hent Ha Hguard Hnum Hdate.
  unfold updateConcurrencyProperty.
  rewrite (bind_Ok _ _ _ _ _ (getEntity_Ok _ _ _ Hent)).
  rewrite (bind_Ok _ _ _ _ _ (getAspect_Ok _ _ _ _ Hent Ha)).
  rewrite Hguard. cbv zeta. rewrite Hnum, Hdate.
  set (w1 := with_ticks (S (ticks w)) w).
  rewrite (bind_Ok now _ w (clock (ticks w)) w1) by done.
  split.
  - intros w' Hr. apply bind_inv_Ok in Hr as (dt2 & w2 & Hloop & Hset).
    apply resample_inv in Hloop as (n & Hn & -> & Hne & Hbefore & ->).
    simpl in *.
    destruct (setProperty_Ok entity (dp_name property) (VDate (clock (S (ticks w + n))))
                (with_ticks (S (ticks w + S n)) w1) ent Hent)
      as (w'' & ent' & Hr & Hh & Ht & _ & _ & Hp & _).
    rewrite Hr in Hset. injection Hset as <-.
    exists n. split; [done|]. rewrite !Nat.add_succ_r. split_and!.
    + rewrite (propertyOf_insert w1 _ _ _ _ Hh), Hp. by rewrite read_insert.
    + intros Heq. apply Hne. by rewrite Heq.
    + intros i Hi. rewrite Nat.add_succ_r. by apply Hbefore.
    + rewrite Ht. simpl. lia.
  - intros n Hn Hmoved.
    destruct (resample_Ok fuel (clock (ticks w)) w1 n Hn) as (dt2 & w2 & Hloop).
    { simpl. by rewrite <- Nat.add_succ_r. }
    rewrite (bind_Ok _ _ _ _ _ Hloop).
    pose proof Hloop as Hinv. apply resample_inv in Hinv as (m & _ & _ & _ & _ & ->).
    destruct (setProperty_Ok entity (dp_name property) (VDate dt2)
                (with_ticks (ticks w1 + S m) w1) ent Hent)
      as (w'' & ent' & Hr & _).
    eauto.
Qed.

(** ** The cached flag *)

Lemma _hasChangesCore_getChangesCore (entityTypes : option (list EntityType)) (w : World) :
  _hasChangesCore entityTypes w = bool_decide (getChangesCore entityTypes w ≠ []).
Proof.
  unfold _hasChangesCore, getChangesCore.
  induction (getEntityGroups (em w) entityTypes) as [|eg l IH]; [done|].
  simpl. rewrite IH. destruct eg as [g|]; simpl.
  - unfold group_hasChanges. destruct (group_getChanges (heap w) g) as [|x xs]; simpl.
    + done.
    + done.
  - done.
Qed.

(** X8. [_setHasChanges(null)] brings the cached flag back in line with the
    cache: afterwards [hasChanges()] is true exactly when some group holds
    a changed entity.  [hasChangesChanged] is published if and only if the
    flag changed, the deferred recomputation is dropped, and no entity and
    no group is touched. *)
Theorem _setHasChanges_recomputes (w : World) :
  ∃ w', _setHasChanges None w = Ok () w'
        ∧ heap w' = heap w
        ∧ _entityGroupMap (em w') = _entityGroupMap (em w)
        ∧ (hasChanges None w' = true ↔ getChangesCore None w' ≠ [])
        ∧ _hasChangesAction (em w') = None
        ∧ trace w'
          = trace w ++ (if bool_decide (_hasChanges (em w') = _hasChanges (em w)) then []
                        else [Published (HasChangesChanged (_hasChanges (em w')))]).
Proof.
  unfold _setHasChanges. rewrite (bind_Ok _ _ w w w) by done.
  erewrite bind_Ok; [|reflexivity].
  set (now_ := _hasChangesCore None w).
  assert (Hnow : ∀ w', heap w' = heap w → _entityGroupMap (em w') = _entityGroupMap (em w) →
                       _hasChanges (em w') = now_ →
                       hasChanges None w' = true ↔ getChangesCore None w' ≠ []).
  { intros w' Hh Hg Hf. unfold hasChanges. rewrite Hf.
    assert (getChangesCore None w' = getChangesCore None w) as ->.
    { unfold getChangesCore, getEntityGroups. by rewrite Hh, Hg. }
    unfold now_. rewrite _hasChangesCore_getChangesCore.
    case_bool_decide; simpl; naive_solver. }
  destruct (eqb now_ (_hasChanges (em w))) eqn:Heq; simpl.
  - apply eqb_prop in Heq.
    erewrite bind_Ok; [|reflexivity].
    eexists. split; [reflexivity|]. simpl. split_and!; try done.
    + by apply Hnow.
    + rewrite bool_decide_eq_true_2 by done. by rewrite app_nil_r.
  - apply eqb_false_iff in Heq.
    erewrite bind_Ok; [|reflexivity].
    eexists. split; [reflexivity|]. simpl. split_and!; try done.
    + by apply Hnow.
    + by rewrite bool_decide_eq_false_2 by done.
Qed.

(** X9. While the manager is loading and its flag is set, notifications of
    a state change that needs no save are held back: whatever their number,
    nothing is published and the flag is not recomputed; the first of them
    is kept as the deferred recomputation unless one was pending already. *)
Theorem _notifyStateChange_deferred_while_loading (entities : list Ref) (w : World) :
  _hasChanges (em w) = true →
  isLoading (em w) = true →
  forEach entities (λ entity, _notifyStateChange entity false) w
  = Ok () (with_em (with_hasChangesAction
                      (match _hasChangesAction (em w) with
                       | Some pending => Some pending
                       | None => head entities
                       end) (em w)) w).
Proof.
  revert w. induction entities as [|e l IH]; intros w Hflag Hload.
  { simpl. unfold mret, M_ret. f_equal. destruct w as [h m t k].
    destruct m as [? ? ? ? ? ? ? ? pending ? ?]. simpl. by destruct pending. }
  simpl. erewrite bind_Ok; last first.
  { unfold _notifyStateChange. rewrite (bind_Ok _ _ w (em w) w) by done.
    rewrite Hflag, Hload. reflexivity. }
  rewrite IH by done. simpl. f_equal. unfold with_em, with_hasChangesAction. simpl.
  by destruct (_hasChangesAction (em w)).
Qed.

(** ** Entity groups *)

(** X10. [findOrCreateEntityGroup] returns the group filed under the name of
    the type, creating an empty one if there is none; when the group exists
    nothing changes, so a second call returns the same group and changes
    nothing.  Groups of other names and all entities are left alone. *)
Theorem findOrCreateEntityGroup_twice (entityType : EntityType) (w : World) :
  ∃ group w',
    findOrCreateEntityGroup entityType w = Ok group w'
    ∧ lookupGroup (et_name entityType) (_entityGroupMap (em w')) = Some group
    ∧ findOrCreateEntityGroup entityType w' = Ok group w'
    ∧ (lookupGroup (et_name entityType) (_entityGroupMap (em w)) = None →
       group = {| eg_entityType := entityType; _entities := [] |})
    ∧ (is_Some (lookupGroup (et_name entityType) (_entityGroupMap (em w))) → w' = w)
    ∧ (∀ name, name ≠ et_name entityType →
         lookupGroup name (_entityGroupMap (em w'))
         = lookupGroup name (_entityGroupMap (em w)))
    ∧ heap w' = heap w.
Proof.
  rewrite findOrCreateEntityGroup_eq.
  destruct (lookupGroup (et_name entityType) (_entityGroupMap (em w))) as [g|] eqn:Hg.
  - exists g, w. rewrite findOrCreateEntityGroup_eq, Hg. split_and!; try done.
  - eexists _, _. split; [reflexivity|].
    assert (Hl : lookupGroup (et_name entityType)
                   (_entityGroupMap
                      (em (withGroupsCreated
                             [(et_name entityType,
                               {| eg_entityType := entityType; _entities := [] |})] w)))
                 = Some {| eg_entityType := entityType; _entities := [] |}).
    { simpl. rewrite lookupGroup_app, Hg. simpl. by rewrite bool_decide_eq_true_2. }
    split; [exact Hl|]. rewrite findOrCreateEntityGroup_eq, Hl.
    split_and!; try done.
    intros name Hne. simpl. rewrite lookupGroup_app.
    destruct (lookupGroup name (_entityGroupMap (em w))); [done|].
    simpl. by rewrite bool_decide_eq_false_2.
Qed.

(** ** Import: the deferred publications *)

Lemma bind_unfold {A B} (c : M A) (f : A → M B) (w : World) :
  (c ≫= f) w
  = match c w with
    | Ok a w' => f a w'
    | Throw message w' => Throw message w'
    | OutOfFuel => OutOfFuel
    end.
Proof. reflexivity. Qed.

Lemma forEach_publish (l : list Publication) (w : World) :
  forEach l publish w = Ok () (with_trace (trace w ++ map Published l) w).
Proof.
  revert w. induction l as [|p l IH]; intros w; simpl.
  - rewrite app_nil_r. by destruct w.
  - erewrite bind_Ok; [|reflexivity]. rewrite IH. simpl.
    by rewrite <- app_assoc.
Qed.

Lemma makeTempKeyMap_keeps (tempKeys : list (string * list Value)) :
  ∀ tempKeyMap w,
    match makeTempKeyMap tempKeys tempKeyMap w with
    | Ok _ w' | Throw _ w' =>
        _pendingPubs (em w') = _pendingPubs (em w)
        ∧ _hasChangesAction (em w') = _hasChangesAction (em w)
        ∧ heap w' = heap w ∧ trace w' = trace w
    | OutOfFuel => True
    end.
Proof.
  induction tempKeys as [|k l IH]; intros tempKeyMap w; simpl; [done|].
  rewrite (bind_Ok _ _ w (em w) w) by done.
  destruct (ms_types (metadataStore (em w)) !! k.1) as [oldType|]; [|done].
  rewrite (bind_Ok _ _ _ _ _ (keyGenerator_generateTempKeyValue_eq _ _ _)).
  match goal with |- context [makeTempKeyMap l ?m ?w1] => specialize (IH m w1) end.
  destruct (makeTempKeyMap l _ _); simpl in *; done.
Qed.

(** X11. [importEntities] never leaves the manager collecting deferred
    publications: whether it returns or throws, [_pendingPubs] is null
    again afterwards, as it was before; and when it returns, no deferred
    recomputation of the flag is left pending. *)
Theorem importEntities_ends_deferral (json : ExportBundle)
    (mergeStrategy : option MergeStrategy) (w : World) :
  _pendingPubs (em w) = None →
  match importEntities json mergeStrategy w with
  | Ok _ w' => _pendingPubs (em w') = None ∧ _hasChangesAction (em w') = None
  | Throw _ w' => _pendingPubs (em w') = None
  | OutOfFuel => True
  end.
Proof.
  intros Hp. unfold importEntities.
  rewrite (bind_Ok _ _ w (em w) w) by done.
  rewrite bind_unfold.
  pose proof (makeTempKeyMap_keeps (tempKeys json) ∅ w) as Hk.
  destruct (makeTempKeyMap (tempKeys json) ∅ w) as [tempKeyMap w0|msg w0|]; [| |done].
  2:{ destruct Hk as [-> _]. done. }
  erewrite bind_Ok; [|reflexivity].
  rewrite bind_unfold.
  match goal with |- context [try_finally ?b ?c] => set (body := b); set (cleanup := c) end.
  assert (Hclean : ∀ w1, ∃ w2, cleanup w1 = Ok () w2
                         ∧ _pendingPubs (em w2) = None
                         ∧ _hasChangesAction (em w2) = None).
  { intros w1. unfold cleanup.
    rewrite (bind_Ok _ _ w1 (em w1) w1) by done.
    rewrite (bind_Ok _ _ _ _ _ (forEach_publish _ _)).
    erewrite bind_Ok; [|reflexivity].
    erewrite bind_Ok; [|reflexivity]. simpl.
    destruct (_hasChangesAction (em w1)) as [entity|] eqn:Hact.
    - unfold run_hasChangesAction.
      rewrite (bind_Ok _ _ _ _ _ (_setHasChanges_eq None _)).
      eexists. split; [reflexivity|]. done.
    - eexists. split; [reflexivity|]. done. }
  unfold try_finally.
  destruct (body _) as [entities w1|msg w1|]; [| |done].
  - destruct (Hclean w1) as (w2 & -> & Hp2 & Ha2). simpl. done.
  - destruct (Hclean w1) as (w2 & -> & Hp2 & Ha2). done.
Qed.

(** ** Rejecting the changes *)

Lemma preserves_unflagged_notify entity :
  preserves (λ w, _hasChanges (em w) = false) (_notifyStateChange entity false).
Proof.
  intros w u w' HP Hr. unfold _notifyStateChange in Hr.
  rewrite (bind_Ok _ _ w (em w) w) in Hr by done. rewrite HP in Hr.
  by injection Hr as _ <-.
Qed.

Lemma preserves_unflagged_setDetached entity :
  preserves (λ w, _hasChanges (em w) = false) (setDetached entity).
Proof.
  unfold setDetached.
  apply preserves_bind; [apply (preserves_em_getEntity (λ m, _hasChanges m = false))|].
  intros ent.
  apply preserves_bind; [apply (preserves_em_getAspect (λ m, _hasChanges m = false))|].
  intros a. destruct (isDetached _); [apply preserves_ret|].
  apply preserves_bind.
  { unfold group_detachEntity.
    apply (preserves_em_modify_em (λ m, _hasChanges m = false)).
    intros m Hm. by destruct (lookupGroup _ _). }
  intros _. apply preserves_bind;
    [apply (preserves_em_publish (λ m, _hasChanges m = false))|].
  intros _. apply preserves_bind;
    [apply (preserves_em_setAspect (λ m, _hasChanges m = false))|].
  intros _. apply preserves_ret.
Qed.

Lemma preserves_unflagged_rejectChanges entity :
  preserves (λ w, _hasChanges (em w) = false) (aspect_rejectChanges entity).
Proof.
  unfold aspect_rejectChanges.
  apply preserves_bind; [apply (preserves_em_getAspect (λ m, _hasChanges m = false))|].
  intros a.
  apply preserves_bind; [apply (preserves_em_setProps (λ m, _hasChanges m = false))|].
  intros _. destruct (isAdded _).
  - apply preserves_bind; [apply preserves_unflagged_setDetached|].
    intros _. apply preserves_unflagged_notify.
  - apply preserves_bind;
      [apply (preserves_em_setAspect (λ m, _hasChanges m = false))|].
    intros _. apply preserves_bind; [apply preserves_unflagged_notify|].
    intros _. apply (preserves_em_publish (λ m, _hasChanges m = false)).
Qed.

(** X12. When [rejectChanges()] returns on a manager whose flag was set, it
    returns the entities that were changed when it was called, the flag is
    down, so that [hasChanges()] answers false, and the last thing
    published is [hasChangesChanged] with [hasChanges: false]. *)
Theorem rejectChanges_resets_flag (w : World) (changes : list Ref) (w' : World) :
  _hasChanges (em w) = true →
  rejectChanges w = Ok changes w' →
  changes = getChangesCore None w
  ∧ _hasChanges (em w') = false
  ∧ hasChanges None w' = false
  ∧ last (trace w') = Some (Published (HasChangesChanged false)).
Proof.
  intros Hflag Hr. unfold rejectChanges in Hr.
  rewrite (bind_Ok _ _ w (em w) w) in Hr by done. rewrite Hflag in Hr. simpl in Hr.
  rewrite (bind_Ok _ _ w (getChangesCore None w) w) in Hr by done.
  apply bind_inv_Ok in Hr as ([] & w1 & Hcheck & Hr).
  apply bind_inv_Ok in Hr as ([] & w2 & Hset & Hr).
  injection Hset as <-.
  apply bind_inv_Ok in Hr as ([] & w3 & Hrej & Hr).
  apply bind_inv_Ok in Hr as ([] & w4 & Hpub & Hr).
  injection Hr as <- <-. injection Hpub as <-.
  assert (Hdown : _hasChanges (em w3) = false).
  { eapply (preserves_forEach (λ w, _hasChanges (em w) = false)); [| |exact Hrej].
    - intros e. apply preserves_unflagged_rejectChanges.
    - reflexivity. }
  split; [done|]. split; [exact Hdown|]. split.
  - unfold hasChanges. simpl. by rewrite Hdown.
  - simpl. apply last_snoc.
Qed.

(** ** Keys at attach time *)

Lemma filter_all {A} (P : A → Prop) `{∀ x, Decision (P x)} (l : list A) :
  (∀ x, x ∈ l → P x) → filter P l = l.
Proof.
  induction l as [|x l IH]; intros HP; [done|].
  rewrite filter_cons, decide_True by (apply HP; apply list_elem_of_here).
  rewrite IH; [done|]. intros y Hy. apply HP. by apply list_elem_of_further.
Qed.

(** X13. An entity that is attached as Added with every key property at its
    default value, of a type whose keys are not generated, is refused: the
    call throws, and the manager and the cache are exactly as before (the
    loading flag is put back).  The same holds for [addEntity]. *)
Theorem attachEntity_refuses_unset_key (fuel : nat) (entity : Ref)
    (mergeStrategy : option MergeStrategy) (w : World) (ent : Entity) (a : EntityAspect) :
  heap w !! entity = Some ent →
  entityAspect ent = Some a →
  _inProcessEntity a = None →
  entityManager a = None →
  checkEntityType (metadataStore (em w)) (entityType ent) = true →
  et_metadataStore (entityType ent) = ms_id (metadataStore (em w)) →
  autoGeneratedKeyType (entityType ent) = KeyType_None →
  keyProperties (entityType ent) ≠ [] →
  (∀ kp, kp ∈ keyProperties (entityType ent) →
         defaultValue kp = getProperty ent (dp_name kp)) →
  let message :=
    ("Cannot attach an object of type  (" ++ et_name (entityType ent)
     ++ ") to an EntityManager without first setting its key or setting its entityType 'AutoGeneratedKeyType' property to something other than 'None'")%string in
  attachEntity (S fuel) entity (Some Added) mergeStrategy w = Throw message w
  ∧ addEntity (S fuel) entity w = Throw message w.
Proof.
  intros Hent Ha Hip Hm Hcheck Hstore Hauto Hkeys Hdefault message.
  assert (Hgen : ∀ ms, attachEntity (S fuel) entity (Some Added) ms w = Throw message w);
    [|split; [apply Hgen|apply (Hgen None)]].
  intros ms. simpl.
  rewrite (bind_Ok _ _ _ _ _ (getEntity_Ok _ _ _ Hent)).
  rewrite (bind_Ok _ _ w (em w) w) by done.
  rewrite Hcheck. simpl. rewrite bool_decide_eq_true_2 by done. simpl.
  rewrite Ha. erewrite bind_Ok; [|reflexivity]. rewrite Hip.
  rewrite (bind_Ok _ _ _ _ _ (getAspect_Ok _ _ _ _ Hent Ha)). rewrite Hm.
  erewrite bind_Throw; [reflexivity|].
  unfold using_isLoading.
  rewrite (bind_Ok _ _ w (isLoading (em w)) w) by done.
  erewrite bind_Ok; [|reflexivity].
  set (w1 := with_em _ w).
  assert (Hkey : checkEntityKey entity w1 = Throw message w1).
  { unfold checkEntityKey.
    rewrite (bind_Ok _ _ _ _ _ (getEntity_Ok entity w1 ent Hent)).
    rewrite (bind_Ok _ _ _ _ _ (getAspect_Ok entity w1 ent a Hent Ha)).
    rewrite (filter_all _ _ Hdefault).
    rewrite bool_decide_eq_true_2 by done.
    rewrite Hauto. rewrite bool_decide_eq_false_2 by (by intros ?).
    rewrite bool_decide_eq_true_2; [reflexivity|].
    unfold keyValues. by rewrite length_map. }
  unfold try_finally at 1.
  rewrite (bind_Throw _ _ _ _ _ Hkey).
  unfold w1, modify_em, modify. f_equal. clear. destruct w as [h m t k]. by destruct m.
Qed.

(** X14. [generateTempKeyValue] on an entity of a type with a key: the
    value returned comes from the manager's key generator, which remembers
    it; the first key property of the entity holds it afterwards, and the
    aspect is flagged [hasTempKey]. *)
Theorem generateTempKeyValue_sets_key (entity : Ref) (w : World) (ent : Entity)
    (a : EntityAspect) (keyProp : DataProperty) (otherKeyProps : list DataProperty) :
  heap w !! entity = Some ent →
  entityAspect ent = Some a →
  keyProperties (entityType ent) = keyProp :: otherKeyProps →
  let generator := keyGenerator (em w) in
  let value := kg_next generator (kg_used generator) (entityType ent) None in
  ∃ w', generateTempKeyValue entity w = Ok value w'
        ∧ propertyOf w' entity (dp_name keyProp) = Some value
        ∧ hasTempKey <$> aspectOf w' entity = Some true
        ∧ kg_used (keyGenerator (em w'))
          = kg_used generator ++ [(et_name (entityType ent), value)].
Proof.
  intros Hent Ha Hkeys generator value. unfold generateTempKeyValue.
  rewrite (bind_Ok _ _ _ _ _ (getEntity_Ok _ _ _ Hent)).
  rewrite (bind_Ok _ _ _ _ _ (keyGenerator_generateTempKeyValue_eq _ _ _)).
  fold generator. fold value. rewrite Hkeys.
  set (w1 := withKeysUsed _ w).
  destruct (setProperty_Ok entity (dp_name keyProp) value w1 ent Hent)
    as (w2 & ent2 & Hr & Hh & _ & Hsame & _ & Hp & Hs & _).
  rewrite (bind_Ok _ _ _ _ _ Hr).
  rewrite Ha in Hs. simpl in Hs.
  destruct (entityAspect ent2) as [a2|] eqn:Ha2; [|done].
  assert (Hent2 : heap w2 !! entity = Some ent2) by (rewrite Hh; apply lookup_insert_eq).
  rewrite (bind_Ok _ _ _ _ _ (setAspect_Ok _ _ _ _ _ Hent2 Ha2)).
  eexists. split; [reflexivity|]. split_and!.
  - unfold propertyOf. simpl. rewrite lookup_insert_eq. simpl.
    unfold getProperty. simpl. rewrite Hp. by rewrite read_insert.
  - unfold aspectOf. simpl. by rewrite lookup_insert_eq.
  - simpl. destruct Hsame as (_ & _ & _ & _ & _ & -> & _). done.
Qed.

(** ** Fetching by key: what the cache may answer *)


(** ** Clearing the cache *)

Lemma setAspect_keeps_manager (m : EntityManager) (t : list Effect) e f :
  preserves (λ w, em w = m ∧ trace w = t) (setAspect e f).
Proof.
  intros w u w' HP Hr.
  apply bind_inv_Ok in Hr as (ent & w1 & Hent & Hr).
  apply getEntity_inv in Hent as [-> Hent].
  apply bind_inv_Ok in Hr as (a & w1 & Ha & Hr).
  apply getAspect_inv in Ha as [-> _]. by injection Hr as _ <-.
Qed.

Lemma read_only_forEach {A} (f : A → M unit) (l : list A) :
  (∀ x, read_only (f x)) → read_only (forEach l f).
Proof.
  intros Hf. induction l as [|x l IH]; intros w u w' Hr; simpl in Hr.
  - by injection Hr as _ <-.
  - apply bind_inv_Ok in Hr as ([] & w1 & Hx & Hr).
    apply Hf in Hx as ->. by apply IH in Hr.
Qed.

(** X16. When [clear()] returns, the manager has no entity group left, so
    that no key finds an entity and no type has changes; its flag is down;
    its key generator is a new one that has handed out nothing; and the
    last things published are the cache-wide [Clear] event and, if the flag
    was still set when the groups had been checked and cleared,
    [hasChangesChanged] with [hasChanges: false].  When the operation
    checks of the groups change nothing, the flag and what had been
    published at that point are those of the call. *)
Theorem clear_empties (group_checkOperation : EntityGroup → M unit) (w w' : World) :
  clear group_checkOperation w = Ok () w' →
  _entityGroupMap (em w') = []
  ∧ _hasChanges (em w') = false
  ∧ (∀ entityTypes, hasChanges entityTypes w' = false)
  ∧ (∀ entityTypes, getChangesCore entityTypes w' = [])
  ∧ (∀ entityKey, getEntityByKey entityKey w' = None)
  ∧ kg_used (keyGenerator (em w')) = []
  ∧ ∃ w1, checkAndClearGroups group_checkOperation w = Ok () w1
          ∧ trace w'
            = trace w1 ++ Published (EntityChanged Clear None)
                :: (if _hasChanges (em w1)
                    then [Published (HasChangesChanged false)] else [])
          ∧ ((∀ group, read_only (group_checkOperation group)) →
             _hasChanges (em w1) = _hasChanges (em w) ∧ trace w1 = trace w).
Proof.
  intros Hr. unfold clear in Hr.
  apply bind_inv_Ok in Hr as ([] & w1 & Hgroups & Hr).
  apply bind_inv_Ok in Hr as ([] & w3 & Hm3 & Hr). injection Hm3 as <-.
  apply bind_inv_Ok in Hr as ([] & w4 & Hm4 & Hr). injection Hm4 as <-.
  apply bind_inv_Ok in Hr as ([] & w5 & Hm5 & Hr). injection Hm5 as <-.
  rewrite _setHasChanges_eq in Hr. injection Hr as <-. simpl.
  split; [done|]. split; [done|]. split_and!.
  - intros types. unfold hasChanges. done.
  - intros [types|]; unfold getChangesCore, getEntityGroups; simpl; [|done].
    induction types as [|et l IH]; [done|]. simpl. exact IH.
  - intros key. unfold getEntityByKey, _findEntityGroup. simpl.
    induction (default _ _) as [|et l IH]; [done|]. simpl. exact IH.
  - done.
  - exists w1. split; [exact Hgroups|]. split.
    + rewrite <- app_assoc. by destruct (_hasChanges (em w1)).
    + intros Hchecks. unfold checkAndClearGroups in Hgroups.
      rewrite (bind_Ok _ _ w (_entityGroupMap (em w)) w) in Hgroups by done.
      apply bind_inv_Ok in Hgroups as ([] & w0 & Hcheck & Hclear).
      apply (read_only_forEach _ _ Hchecks) in Hcheck as ->.
      enough (em w1 = em w ∧ trace w1 = trace w) as [-> ->] by done.
      eapply (preserves_forEach (λ w0, em w0 = em w ∧ trace w0 = trace w));
        [|done|exact Hclear].
      intros name.
      apply preserves_bind; [apply preserves_gets|]. intros [group|]; [|apply preserves_ret].
      unfold group__clear. apply preserves_forEach. intros entity.
      apply setAspect_keeps_manager.
Qed.

(** ** A save and its marks *)

Lemma preserves_marked_setAspect (e : Ref) (flag : bool) (e' : Ref)
    (f : EntityAspect → EntityAspect) :
  (∀ a, isBeingSaved a = flag → isBeingSaved (f a) = flag) →
  preserves (Marked e flag) (setAspect e' f).
Proof.
  intros Hf w u w' HP Hr.
  apply bind_inv_Ok in Hr as (ent & w1 & Hent & Hr).
  apply getEntity_inv in Hent as [-> Hent].
  apply bind_inv_Ok in Hr as (a & w1 & Ha & Hr).
  apply getAspect_inv in Ha as [-> (ent' & Hent' & Ha)].
  assert (ent' = ent) as -> by congruence.
  injection Hr as _ <-. unfold Marked, aspectOf in *. simpl.
  destruct (decide (e' = e)) as [->|Hne].
  - rewrite lookup_insert_eq. simpl. rewrite Hent in HP. simpl in HP.
    rewrite Ha in HP. simpl in HP. injection HP as HP. f_equal. by apply Hf.
  - by rewrite lookup_insert_ne.
Qed.

Lemma setAspect_marks (e : Ref) (flag : bool) (w w' : World) :
  setAspect e (with_isBeingSaved flag) w = Ok () w' → Marked e flag w'.
Proof.
  intros Hr.
  apply bind_inv_Ok in Hr as (ent & w1 & Hent & Hr).
  apply getEntity_inv in Hent as [-> Hent].
  apply bind_inv_Ok in Hr as (a & w1 & Ha & Hr).
  apply getAspect_inv in Ha as [-> _].
  injection Hr as <-. unfold Marked, aspectOf. simpl. by rewrite lookup_insert_eq.
Qed.

Lemma markIsBeingSaved_inv (entities : list Ref) (flag : bool) : ∀ w w',
  markIsBeingSaved entities flag w = Ok () w' →
  ∀ e, e ∈ entities → Marked e flag w'.
Proof.
  unfold markIsBeingSaved.
  induction entities as [|e0 l IH]; intros w w' Hr e He; [by apply elem_of_nil in He|].
  simpl in Hr. apply bind_inv_Ok in Hr as ([] & w1 & Hset & Hr).
  destruct (decide (e ∈ l)) as [Hl|Hl]; [by eapply IH|].
  apply elem_of_cons in He as [->|He]; [|done].
  eapply (preserves_forEach (Marked e0 flag)); [|by eapply setAspect_marks|exact Hr].
  intros e'. by apply preserves_marked_setAspect.
Qed.

Lemma preserves_marked_heap {A} (e : Ref) (flag : bool) (c : M A) :
  (∀ w a w', c w = Ok a w' → heap w' = heap w) → preserves (Marked e flag) c.
Proof.
  intros Hc w a w' HP Hr. unfold Marked, aspectOf in *. by rewrite (Hc _ _ _ Hr).
Qed.

Lemma preserves_marked_setProperty (e : Ref) (flag : bool) entity name value :
  preserves (Marked e flag) (setProperty entity name value).
Proof.
  intros w u w' HP Hr.
  assert (∃ ent, heap w !! entity = Some ent) as [ent Hent].
  { unfold setProperty in Hr. apply bind_inv_Ok in Hr as (ent & w1 & Hent & _).
    apply getEntity_inv in Hent as [_ Hent]. eauto. }
  destruct (setProperty_Ok entity name value w ent Hent)
    as (w'' & ent' & Hr' & Hh & _ & _ & _ & _ & Hs & _).
  rewrite Hr in Hr'. injection Hr' as _ <-.
  unfold Marked, aspectOf in *. rewrite Hh.
  destruct (decide (entity = e)) as [->|Hne].
  - rewrite lookup_insert_eq. simpl. rewrite Hent in HP. simpl in HP. by rewrite Hs.
  - by rewrite lookup_insert_ne.
Qed.

Lemma preserves_marked_updateConcurrencyProperty (e : Ref) (flag : bool) fuel entity property :
  preserves (Marked e flag) (updateConcurrencyProperty fuel entity property).
Proof.
  unfold updateConcurrencyProperty.
  apply preserves_bind.
  { apply preserves_marked_heap. intros w a w' Hr. by apply getEntity_inv in Hr as [-> _]. }
  intros ent. apply preserves_bind.
  { apply preserves_marked_heap. intros w a w' Hr. by apply getAspect_inv in Hr as [-> _]. }
  intros aspect. destruct (truthy _); [apply preserves_ret|]. cbv zeta.
  destruct (isNumeric _); [apply preserves_marked_setProperty|].
  destruct (isDate _).
  { apply preserves_bind.
    { apply preserves_marked_heap. intros w a w' Hr. by injection Hr as _ <-. }
    intros dt. apply preserves_bind.
    { apply preserves_marked_heap. intros w a w' Hr.
      by apply resample_inv in Hr as (n & _ & _ & _ & _ & ->). }
    intros dt2. apply preserves_marked_setProperty. }
  case_bool_decide.
  { apply preserves_bind.
    { apply preserves_marked_heap. intros w a w' Hr. by injection Hr as _ <-. }
    intros uuid. apply preserves_marked_setProperty. }
  case_bool_decide; [apply preserves_ret|apply preserves_throw].
Qed.

Lemma updateConcurrencyProperties_marks (fuel : nat) (entities : list Ref) (w w' : World) :
  updateConcurrencyProperties fuel entities w = Ok () w' →
  ∀ e, e ∈ entities → Marked e true w'.
Proof.
  intros Hr e He. unfold updateConcurrencyProperties in Hr.
  apply bind_inv_Ok in Hr as (candidates & w1 & Hmark & Hr).
  assert (Hmarked : Marked e true w1).
  { clear Hr. revert w candidates Hmark.
    induction entities as [|e0 l IH]; intros w candidates Hmark;
      [by apply elem_of_nil in He|].
    simpl in Hmark.
    apply bind_inv_Ok in Hmark as (keep & w2 & Hfirst & Hmark).
    apply bind_inv_Ok in Hmark as (rest & w3 & Hrest & Hmark).
    injection Hmark as _ <-.
    destruct (decide (e ∈ l)) as [Hl|Hl]; [by eapply IH|].
    apply elem_of_cons in He as [->|He]; [|done].
    apply bind_inv_Ok in Hfirst as ([] & w4 & Hset & Hfirst).
    apply bind_inv_Ok in Hfirst as (ent & w5 & Hent & Hfirst).
    apply getEntity_inv in Hent as [-> _].
    apply bind_inv_Ok in Hfirst as (a & w5 & Ha & Hfirst).
    apply getAspect_inv in Ha as [-> _]. injection Hfirst as _ <-.
    eapply (preserves_filterM (Marked e0 true)); [|by eapply setAspect_marks|exact Hrest].
    intros e'. apply preserves_bind; [by apply preserves_marked_setAspect|].
    intros _. apply preserves_bind.
    { apply preserves_marked_heap. intros ? ? ? Hg. by apply getEntity_inv in Hg as [-> _]. }
    intros ent'. apply preserves_bind.
    { apply preserves_marked_heap. intros ? ? ? Hg. by apply getAspect_inv in Hg as [-> _]. }
    intros a'. apply preserves_ret. }
  case_bool_decide; [by injection Hr as <-|].
  eapply (preserves_forEach (Marked e true)); [|exact Hmarked|exact Hr].
  intros c. apply preserves_bind.
  { apply preserves_marked_heap. intros ? ? ? Hg. by apply getEntity_inv in Hg as [-> _]. }
  intros ent. apply preserves_forEach. intros cp.
  apply preserves_marked_updateConcurrencyProperty.
Qed.

(** X22. Whenever [saveChanges] returns the promise of the adapter, the
    set of entities to save was not empty, the call of the adapter is the
    last thing that happened, and every entity of the set is marked
    [isBeingSaved]. *)
Theorem saveChanges_marks_before_adapter (fuel : nat) (entities : option (list Ref))
    (options : option SaveOptions) (callback errorCallback : bool) (w w' : World) :
  saveChanges fuel entities options callback errorCallback w = Ok FromAdapter w' →
  ∃ entitiesToSave resource,
    getEntitiesToSave entities w = Ok entitiesToSave w
    ∧ entitiesToSave ≠ []
    ∧ adapterThrows entitiesToSave = None
    ∧ last (trace w') = Some (AdapterSaveChanges entitiesToSave resource)
    ∧ ∀ e, e ∈ entitiesToSave → Marked e true w'.
Proof.
  intros Hr. unfold saveChanges in Hr.
  rewrite (bind_Ok _ _ w (em w) w) in Hr by done.
  apply bind_inv_Ok in Hr as (l & w0 & Hsave & Hr).
  pose proof (getEntitiesToSave_read_only _ _ _ _ Hsave) as ->.
  case_bool_decide as Hlen.
  { apply bind_inv_Ok in Hr as ([] & w1 & _ & Hr). done. }
  apply bind_inv_Ok in Hr as (pending & w1 & _ & Hr).
  destruct pending.
  { apply bind_inv_Ok in Hr as ([] & w2 & _ & Hr). done. }
  apply bind_inv_Ok in Hr as ([] & w2 & _ & Hr).
  apply bind_inv_Ok in Hr as (valError & w3 & _ & Hr).
  destruct valError as [valError|].
  { apply bind_inv_Ok in Hr as ([] & w4 & _ & Hr). done. }
  rewrite (bind_Ok _ _ w3 (em w3) w3) in Hr by done.
  unfold try_catch in Hr.
  match type of Hr with
  | match ?body w3 with _ => _ end = _ => destruct (body w3) as [p w4|msg w4|] eqn:Hbody
  end; [| |done].
  2:{ apply bind_inv_Ok in Hr as ([] & w5 & _ & Hr).
      apply bind_inv_Ok in Hr as ([] & w6 & _ & Hr). done. }
  injection Hr as -> ->.
  apply bind_inv_Ok in Hbody as ([] & w5 & Hstamp & Hbody).
  apply bind_inv_Ok in Hbody as ([] & w6 & Hemit & Hbody).
  injection Hemit as <-.
  destruct (adapterThrows l) eqn:Hadapter; [done|]. injection Hbody as <-.
  eexists l, _. split; [exact Hsave|]. split.
  { intros ->. by apply Hlen. }
  split; [done|]. split; [apply last_snoc|].
  intros e He. pose proof (updateConcurrencyProperties_marks _ _ _ _ Hstamp e He) as Hm.
  exact Hm.
Qed.

(** X23. A save whose adapter throws before it goes asynchronous is
    rejected, and unless it was refused earlier, for a concurrent save or
    by the client validation, no entity of the set is left marked
    [isBeingSaved]: the marks set for the call are taken back. *)
Theorem saveChanges_takes_marks_back (fuel : nat) (entities : option (list Ref))
    (options : option SaveOptions) (callback errorCallback : bool) (w w' : World)
    (entitiesToSave : list Ref) (promise : Promise) :
  getEntitiesToSave entities w = Ok entitiesToSave w →
  entitiesToSave ≠ [] →
  is_Some (adapterThrows entitiesToSave) →
  saveChanges fuel entities options callback errorCallback w = Ok promise w' →
  ∃ message,
    promise = Rejected message
    ∧ (message = "Concurrent saves not allowed - SaveOptions.allowConcurrentSaves is false"
       ∨ message = "Client side validation errors encountered - see the entityErrors collection on this object for more detail"
       ∨ ∀ e, e ∈ entitiesToSave → Marked e false w').
Proof.
  intros Hsave Hne [err Hadapter] Hr. unfold saveChanges in Hr.
  rewrite (bind_Ok _ _ w (em w) w) in Hr by done.
  rewrite (bind_Ok _ _ _ _ _ Hsave) in Hr.
  rewrite bool_decide_eq_false_2 in Hr by (by destruct entitiesToSave).
  apply bind_inv_Ok in Hr as (pending & w1 & _ & Hr).
  destruct pending.
  { apply bind_inv_Ok in Hr as ([] & w2 & _ & Hr). injection Hr as <- <-. eauto. }
  apply bind_inv_Ok in Hr as ([] & w2 & _ & Hr).
  apply bind_inv_Ok in Hr as (valError & w3 & Hval & Hr).
  destruct valError as [valError|].
  { apply bind_inv_Ok in Hr as ([] & w4 & _ & Hr). injection Hr as <- <-.
    exists valError. split; [done|]. right. left.
    unfold saveChangesValidateOnClient in Hval.
    apply bind_inv_Ok in Hval as (vo & w5 & _ & Hval).
    destruct (validateOnSave vo); [|done].
    apply bind_inv_Ok in Hval as (failed & w6 & _ & Hval).
    case_bool_decide; [|done]. by injection Hval as <- _. }
  rewrite (bind_Ok _ _ w3 (em w3) w3) in Hr by done.
  unfold try_catch in Hr.
  match type of Hr with
  | match ?body w3 with _ => _ end = _ => destruct (body w3) as [p w4|msg w4|] eqn:Hbody
  end; [| |done].
  { apply bind_inv_Ok in Hbody as ([] & w5 & _ & Hbody).
    apply bind_inv_Ok in Hbody as ([] & w6 & _ & Hbody).
    by rewrite Hadapter in Hbody. }
  apply bind_inv_Ok in Hr as ([] & w5 & Hunmark & Hr).
  apply bind_inv_Ok in Hr as ([] & w6 & Hcb & Hr).
  injection Hr as <- <-.
  exists msg. split; [done|]. right. right.
  intros e He. pose proof (markIsBeingSaved_inv _ _ _ _ Hunmark e He) as Hm.
  unfold Marked, aspectOf in *.
  destruct errorCallback; by injection Hcb as <-.
Qed.

(** ** Changes by type *)

Lemma lookupGroup_In name gm group :
  lookupGroup name gm = Some group → Some group ∈ map (λ p, Some (snd p)) gm.
Proof.
  induction gm as [|[n g] gm IH]; simpl; [done|].
  case_bool_decide.
  - intros [= ->]. apply list_elem_of_here.
  - intros Hl. apply list_elem_of_further. by apply IH.
Qed.

Lemma elem_of_getChangesCore entityTypes w e :
  e ∈ getChangesCore entityTypes w
  ↔ ∃ group, Some group ∈ getEntityGroups (em w) entityTypes
             ∧ e ∈ group_getChanges (heap w) group.
Proof.
  unfold getChangesCore.
  induction (getEntityGroups (em w) entityTypes) as [|eg l IH]; simpl.
  - split; [by intros ?%elem_of_nil|]. by intros (g & ?%elem_of_nil & _).
  - rewrite elem_of_app, IH. split.
    + intros [He|(g & Hg & He)].
      * destruct eg as [g|]; [|by apply elem_of_nil in He].
        exists g. split; [apply list_elem_of_here|done].
      * exists g. split; [by apply list_elem_of_further|done].
    + intros (g & Hg & He). apply elem_of_cons in Hg as [<-|Hg].
      * by left.
      * right. eauto.
Qed.

(** X26. Asking for the changes of some entity types narrows the answer and
    never widens it: an entity listed by [getChanges(entityTypes)] is
    listed by [getChanges()]; types for which the manager has no group
    contribute nothing; and [hasChanges(entityTypes)] is true only if
    [hasChanges()] is. *)
Theorem getChanges_of_types (entityTypes : list EntityType) (w : World) :
  (∀ e, e ∈ getChangesCore (Some entityTypes) w → e ∈ getChangesCore None w)
  ∧ ((∀ et, et ∈ entityTypes →
            lookupGroup (et_name et) (_entityGroupMap (em w)) = None) →
     getChangesCore (Some entityTypes) w = [])
  ∧ (hasChanges (Some entityTypes) w = true → hasChanges None w = true).
Proof.
  split_and!.
  - intros e. rewrite !elem_of_getChangesCore. intros (g & Hg & He).
    exists g. split; [|done]. simpl in *.
    apply list_elem_of_In, in_map_iff in Hg as (et & Hl & _).
    by apply lookupGroup_In in Hl.
  - intros Hnone. unfold getChangesCore. simpl.
    induction entityTypes as [|et l IH]; [done|]. simpl.
    rewrite (Hnone et) by apply list_elem_of_here. simpl.
    apply IH. intros et' Het'. apply Hnone. by apply list_elem_of_further.
  - unfold hasChanges. by destruct (_hasChanges (em w)).
Qed.

End MoreProperties.

(** ** The buffer of unattached children *)

Section UnattachedChildrenProperties.
Context {NP : Type} `{EqDecision NP}.
Variable baseTypes : EntityType → list EntityType.

Lemma getTuples_loop_tuplesKey (map : gmap (string * list Value) (list (Tuple (NP := NP)))) k bases : ∀ key,
  getTuples_loop map k (map !! key) bases = tuplesKey_loop map k key bases ≫= (map !!.).
Proof.
  induction bases as [|b bases IH]; intros key; simpl.
  - destruct (map !! key) eqn:Hk; simpl; [by rewrite Hk|done].
  - destruct (map !! key) eqn:Hk; simpl; [by rewrite Hk|]. apply IH.
Qed.

Lemma getTuples_tuplesKey (map : gmap (string * list Value) (list (Tuple (NP := NP)))) k :
  getTuples baseTypes map k = tuplesKey baseTypes map k ≫= (map !!.).
Proof. apply getTuples_loop_tuplesKey. Qed.

Lemma tuplesKey_loop_dom (map map' : gmap (string * list Value) (list (Tuple (NP := NP)))) k bases :
  (∀ key, is_Some (map' !! key) ↔ is_Some (map !! key)) →
  ∀ key, tuplesKey_loop map' k key bases = tuplesKey_loop map k key bases.
Proof.
  intros Hdom. induction bases as [|b bases IH]; intros key; simpl.
  - destruct (map !! key) eqn:Hk, (map' !! key) eqn:Hk'; try done.
    + assert (is_Some (map' !! key)) as [? ?] by (apply Hdom; eauto). congruence.
    + assert (is_Some (map !! key)) as [? ?] by (apply Hdom; eauto). congruence.
  - destruct (map !! key) eqn:Hk, (map' !! key) eqn:Hk'; try done.
    + assert (is_Some (map' !! key)) as [? ?] by (apply Hdom; eauto). congruence.
    + assert (is_Some (map !! key)) as [? ?] by (apply Hdom; eauto). congruence.
Qed.

Lemma tuplesKey_alter (map : gmap (string * list Value) (list (Tuple (NP := NP)))) k f key :
  tuplesKey baseTypes (alter f key map) k = tuplesKey baseTypes map k.
Proof.
  apply tuplesKey_loop_dom. intros key'.
  destruct (decide (key = key')) as [->|Hne].
  - rewrite lookup_alter_eq. by rewrite fmap_is_Some.
  - by rewrite lookup_alter_ne.
Qed.

Lemma tuplesKey_loop_Some (map : gmap (string * list Value) (list (Tuple (NP := NP)))) k bases : ∀ key found,
  tuplesKey_loop map k key bases = Some found → is_Some (map !! found).
Proof.
  induction bases as [|b bases IH]; intros key found; simpl.
  - destruct (map !! key) eqn:Hk; [|done]. intros [= <-]. eauto.
  - destruct (map !! key) eqn:Hk; [intros [= <-]; eauto|]. apply IH.
Qed.

Lemma isFor_mk (np : NP) (l : list Ref) :
  isFor np {| navigationProperty := np; children := l |} = true.
Proof. by apply bool_decide_eq_true_2. Qed.

Lemma isFor_true (np : NP) (t : Tuple (NP := NP)) :
  isFor np t = true ↔ navigationProperty t = np.
Proof. apply bool_decide_eq_true. Qed.

Lemma isFor_false (np : NP) (t : Tuple (NP := NP)) :
  isFor np t = false ↔ navigationProperty t ≠ np.
Proof. apply bool_decide_eq_false. Qed.

Lemma find_pushChild np child (tuples : list (Tuple (NP := NP))) :
  List.find (isFor np) (pushChild np child tuples)
  = (λ t, {| navigationProperty := np; children := children t ++ [child] |})
      <$> List.find (isFor np) tuples.
Proof.
  induction tuples as [|t l IH]; [done|]. simpl.
  destruct (isFor np t) eqn:Ht; simpl.
  - by rewrite isFor_mk.
  - by rewrite Ht.
Qed.

Lemma find_pushChild_ne np np' child (tuples : list (Tuple (NP := NP))) :
  np' ≠ np →
  List.find (isFor np') (pushChild np child tuples) = List.find (isFor np') tuples.
Proof.
  intros Hne. induction tuples as [|t l IH]; [done|]. simpl.
  destruct (isFor np t) eqn:Ht; simpl.
  - apply isFor_true in Ht.
    assert (isFor np' t = false) as -> by (apply isFor_false; congruence).
    assert (isFor np' {| navigationProperty := np; children := children t ++ [child] |}
            = false) as -> by (apply isFor_false; simpl; congruence).
    done.
  - by rewrite IH.
Qed.

Lemma find_app_None {A} (p : A → bool) (l l' : list A) :
  List.find p l = None → List.find p (l ++ l') = List.find p l'.
Proof. induction l as [|x l IH]; [done|]. simpl. by destruct (p x). Qed.

Lemma find_None_not_in np (tuples : list (Tuple (NP := NP))) :
  List.find (isFor np) tuples = None ↔ np ∉ navigationProperty <$> tuples.
Proof.
  induction tuples as [|t l IH]; simpl.
  - split; [intros _ ?%elem_of_nil; done|done].
  - rewrite not_elem_of_cons. destruct (isFor np t) eqn:Ht.
    + apply isFor_true in Ht. split; [done|]. intros [? _]. congruence.
    + apply isFor_false in Ht. rewrite IH. split; [by split; [congruence|]|by intros [_ ?]].
Qed.

Lemma getTuple_addChild (map : gmap (string * list Value) (list (Tuple (NP := NP)))) k np child :
  getTuple baseTypes (addChild baseTypes map k np child) k np
  = Some {| navigationProperty := np;
            children := buffered baseTypes map k np ++ [child] |}.
Proof.
  unfold addChild, buffered.
  destruct (getTuple baseTypes map k np) as [t|] eqn:Hfound; simpl.
  - unfold getTuple in Hfound. rewrite getTuples_tuplesKey in Hfound.
    destruct (tuplesKey baseTypes map k) as [key|] eqn:Hkey; [|done]. simpl in Hfound.
    destruct (map !! key) as [tuples|] eqn:Hts; [|done]. simpl in Hfound.
    unfold getTuple. rewrite getTuples_tuplesKey, tuplesKey_alter, Hkey. simpl.
    rewrite lookup_alter_eq, Hts. simpl. by rewrite find_pushChild, Hfound.
  - unfold getTuple, getTuples. rewrite lookup_insert_eq.
    assert (Hnone : List.find (isFor np) (default [] (map !! EntityKey_toString k None)) = None).
    { destruct (map !! EntityKey_toString k None) as [old|] eqn:Hold; [|done]. simpl.
      unfold getTuple, getTuples in Hfound. rewrite Hold in Hfound.
      by destruct (baseTypes _). }
    destruct (baseTypes _); simpl; rewrite (find_app_None _ _ _ Hnone); simpl;
      by rewrite isFor_mk.
Qed.

Lemma filterM_attached (l : list Ref) (w : World) :
  (∀ c, c ∈ l → is_Some (aspectOf w c)) →
  filterM (λ child, aspect ← getAspect child;
                    mret (negb (isDetached (entityState aspect)))) l w
  = Ok (filter (λ c, stateOf (heap w) c ≠ Some Detached) l) w.
Proof.
  induction l as [|c l IH]; intros Hasp; [done|].
  destruct (Hasp c (list_elem_of_here _ _)) as [a Ha].
  apply aspectOf_inv in Ha as (ent & Hent & Ha).
  simpl.
  erewrite bind_Ok; last first.
  { rewrite (bind_Ok _ _ _ _ _ (getAspect_Ok _ _ _ _ Hent Ha)). reflexivity. }
  rewrite (bind_Ok _ _ _ _ _ (IH (λ c' Hc', Hasp c' (list_elem_of_further _ _ _ Hc')))).
  assert (Hs : stateOf (heap w) c = Some (entityState a)).
  { unfold stateOf. rewrite Hent. simpl. by rewrite Ha. }
  rewrite filter_cons. cbv beta. rewrite Hs. unfold isDetached.
  by destruct (entityState a).
Qed.

(** X17. A buffer that was never written to has no children for any key.
    After [addChild(parentEntityKey, navigationProperty, child)],
    [getChildren] for the same key and navigation property returns the
    children buffered before followed by the new child, without those that
    are Detached by then. *)
Theorem addChild_getChildren (map : gmap (string * list Value) (list (Tuple (NP := NP))))
    (parentEntityKey : EntityKey) (np : NP) (child : Ref) (w : World) :
  (∀ c, c ∈ buffered baseTypes map parentEntityKey np ++ [child] →
        is_Some (aspectOf w c)) →
  getChildren baseTypes new_UnattachedChildrenMap parentEntityKey np w = Ok None w
  ∧ getChildren baseTypes (addChild baseTypes map parentEntityKey np child)
                parentEntityKey np w
    = Ok (Some (filter (λ c, stateOf (heap w) c ≠ Some Detached)
                       (buffered baseTypes map parentEntityKey np ++ [child]))) w.
Proof.
  intros Hasp. split.
  - unfold getChildren, getTuple, getTuples, new_UnattachedChildrenMap.
    rewrite lookup_empty.
    assert (Hnone : ∀ bases, getTuples_loop (∅ : gmap _ (list (Tuple (NP := NP))))
                               parentEntityKey None bases = None).
    { induction bases as [|b l IH]; [done|]. simpl. by rewrite lookup_empty. }
    by rewrite Hnone.
  - unfold getChildren. rewrite getTuple_addChild. simpl.
    by rewrite (bind_Ok _ _ _ _ _ (filterM_attached _ _ Hasp)).
Qed.

Lemma fmap_pushChild np child (tuples : list (Tuple (NP := NP))) :
  navigationProperty <$> pushChild np child tuples = navigationProperty <$> tuples.
Proof.
  induction tuples as [|t l IH]; [done|]. simpl.
  destruct (isFor np t) eqn:Ht.
  - apply isFor_true in Ht. rewrite !fmap_cons. simpl. by rewrite Ht.
  - rewrite !fmap_cons. by rewrite IH.
Qed.

Lemma Forall_pushChild np child (tuples : list (Tuple (NP := NP))) :
  Forall (λ t, children t ≠ []) tuples →
  Forall (λ t, children t ≠ []) (pushChild np child tuples).
Proof.
  induction 1 as [|t l Ht Hl IH]; [done|]. simpl.
  destruct (isFor np t); constructor; try done.
  simpl. by destruct (children t).
Qed.

Lemma arrayRemoveItem_sublist {A} (p : A → bool) (l : list A) :
  arrayRemoveItem p l `sublist_of` l.
Proof.
  induction l as [|x l IH]; [done|]. simpl.
  destruct (p x && negb (existsb p l)).
  - by apply sublist_cons.
  - by apply sublist_skip.
Qed.

Lemma Forall_arrayRemoveItem {A} (P : A → Prop) (p : A → bool) (l : list A) :
  Forall P l → Forall P (arrayRemoveItem p l).
Proof.
  induction 1 as [|x l Hx Hl IH]; [done|]. simpl.
  destruct (p x && negb (existsb p l)); [done|]. by constructor.
Qed.

Lemma existsb_isFor np (tuples : list (Tuple (NP := NP))) :
  existsb (isFor np) tuples = false ↔ np ∉ navigationProperty <$> tuples.
Proof.
  induction tuples as [|t l IH]; simpl.
  - split; [intros _ ?%elem_of_nil; done|done].
  - rewrite not_elem_of_cons. destruct (isFor np t) eqn:Ht; simpl.
    + apply isFor_true in Ht. split; [done|]. intros [? _]. congruence.
    + apply isFor_false in Ht. rewrite IH. split; [by split; [congruence|]|by intros [_ ?]].
Qed.

Lemma find_arrayRemoveItem np (tuples : list (Tuple (NP := NP))) :
  NoDup (navigationProperty <$> tuples) →
  List.find (isFor np) (arrayRemoveItem (isFor np) tuples) = None.
Proof.
  induction tuples as [|t l IH]; [done|]. simpl.
  intros [Hnotin Hnodup]%NoDup_cons.
  destruct (isFor np t) eqn:Ht; simpl.
  - apply isFor_true in Ht. rewrite Ht in Hnotin.
    rewrite (proj2 (existsb_isFor np l) Hnotin). simpl.
    by apply find_None_not_in.
  - rewrite Ht. by apply IH.
Qed.

Lemma find_arrayRemoveItem_ne np np' (tuples : list (Tuple (NP := NP))) :
  np' ≠ np →
  List.find (isFor np') (arrayRemoveItem (isFor np) tuples) = List.find (isFor np') tuples.
Proof.
  intros Hne. induction tuples as [|t l IH]; [done|]. simpl.
  destruct (isFor np t && negb (existsb (isFor np) l)) eqn:Hcond.
  - apply andb_true_iff in Hcond as [Ht%isFor_true _].
    by assert (isFor np' t = false) as -> by (apply isFor_false; congruence).
  - simpl. by rewrite IH.
Qed.

Lemma wellFormed_alter (map : gmap (string * list Value) (list (Tuple (NP := NP))))
    (f : list Tuple → list Tuple) key :
  (∀ tuples, NoDup (navigationProperty <$> tuples) ∧ Forall (λ t, children t ≠ []) tuples →
             NoDup (navigationProperty <$> f tuples)
             ∧ Forall (λ t, children t ≠ []) (f tuples)) →
  wellFormed map → wellFormed (alter f key map).
Proof.
  intros Hf Hwf key' tuples Hl.
  destruct (decide (key = key')) as [->|Hne].
  - rewrite lookup_alter_eq in Hl.
    destruct (map !! key') as [old|] eqn:Hold; [|done]. injection Hl as <-.
    apply Hf. by apply (Hwf key').
  - rewrite lookup_alter_ne in Hl by done. by apply (Hwf key').
Qed.

(** X18. The buffer stays well formed: starting from the empty buffer,
    whatever the calls of [addChild] and [removeChildren], no array of
    tuples lists a navigation property twice, and every tuple has at least
    one child. *)
Theorem wellFormed_kept :
  wellFormed (new_UnattachedChildrenMap (NP := NP))
  ∧ (∀ (map : gmap (string * list Value) (list (Tuple (NP := NP)))) parentEntityKey
       (np : NP) child,
       wellFormed map → wellFormed (addChild baseTypes map parentEntityKey np child))
  ∧ (∀ (map : gmap (string * list Value) (list (Tuple (NP := NP)))) parentEntityKey
       (np : NP),
       wellFormed map → wellFormed (removeChildren baseTypes map parentEntityKey np)).
Proof.
  split_and!.
  - intros key tuples Hl. unfold new_UnattachedChildrenMap in Hl.
    by rewrite lookup_empty in Hl.
  - intros map k np child Hwf. unfold addChild.
    destruct (getTuple baseTypes map k np) as [t|] eqn:Hfound.
    + destruct (tuplesKey baseTypes map k) as [key|]; [|done].
      apply wellFormed_alter; [|done]. intros tuples [Hnd Hall]. split.
      * by rewrite fmap_pushChild.
      * by apply Forall_pushChild.
    + intros key tuples Hl.
      destruct (decide (EntityKey_toString k None = key)) as [<-|Hne].
      * rewrite lookup_insert_eq in Hl. injection Hl as <-.
        assert (Hold : NoDup (navigationProperty
                                <$> default [] (map !! EntityKey_toString k None))
                       ∧ Forall (λ t, children t ≠ [])
                                (default [] (map !! EntityKey_toString k None))
                       ∧ np ∉ navigationProperty
                                <$> default [] (map !! EntityKey_toString k None)).
        { destruct (map !! EntityKey_toString k None) as [old|] eqn:Hold; simpl.
          - destruct (Hwf _ _ Hold) as [Hnd Hall]. split_and!; try done.
            apply find_None_not_in. unfold getTuple, getTuples in Hfound.
            rewrite Hold in Hfound. by destruct (baseTypes _).
          - split_and!; [apply NoDup_nil_2|done|by intros ?%elem_of_nil]. }
        destruct Hold as (Hnd & Hall & Hnotin). split.
        -- rewrite fmap_app. apply NoDup_app. split_and!; [done| |apply NoDup_singleton].
           intros x Hx ->%list_elem_of_singleton. done.
        -- apply Forall_app. split; [done|]. by constructor.
      * rewrite lookup_insert_ne in Hl by done. by apply (Hwf key).
  - intros map k np Hwf. unfold removeChildren.
    destruct (tuplesKey baseTypes map k) as [key|]; [|done].
    assert (Hwf' : wellFormed (alter (arrayRemoveItem (isFor np)) key map)).
    { apply wellFormed_alter; [|done]. intros tuples [Hnd Hall]. split.
      - eapply sublist_NoDup; [exact Hnd|]. apply fmap_sublist, arrayRemoveItem_sublist.
      - by apply Forall_arrayRemoveItem. }
    cbv zeta.
    destruct (alter (arrayRemoveItem (isFor np)) key map !! key) as [[|? ?]|]; try done.
    intros key' tuples Hl. apply lookup_delete_Some in Hl as [_ Hl]. by apply (Hwf' key').
Qed.

(** X19. For a parent key whose entity type has no base type, in a well
    formed buffer: after [removeChildren(parentEntityKey, navigationProperty)]
    the buffer holds nothing for that key and navigation property, what it
    holds for the other navigation properties of the key and under other
    keys is as before, and the key is not left with an empty array: its
    entry goes when its last tuple does. *)
Theorem removeChildren_drains (map : gmap (string * list Value) (list (Tuple (NP := NP))))
    (parentEntityKey : EntityKey) (np : NP) :
  wellFormed map →
  baseTypes (ek_entityType parentEntityKey) = [] →
  let map' := removeChildren baseTypes map parentEntityKey np in
  getTuple baseTypes map' parentEntityKey np = None
  ∧ (∀ w, getChildren baseTypes map' parentEntityKey np w = Ok None w)
  ∧ (∀ np', np' ≠ np →
       getTuple baseTypes map' parentEntityKey np'
       = getTuple baseTypes map parentEntityKey np')
  ∧ map' !! EntityKey_toString parentEntityKey None ≠ Some []
  ∧ (∀ key, key ≠ EntityKey_toString parentEntityKey None → map' !! key = map !! key).
Proof.
  intros Hwf Hbase map'.
  set (own := EntityKey_toString parentEntityKey None).
  assert (Hget : ∀ (m : gmap (string * list Value) (list (Tuple (NP := NP)))) (np0 : NP),
                   getTuple baseTypes m parentEntityKey np0
                          = m !! own ≫= List.find (isFor np0)).
  { intros m np0. unfold getTuple, getTuples. rewrite Hbase. simpl. fold own.
    by destruct (m !! own). }
  assert (Hcases :
    (map !! own = None ∧ map' = map)
    ∨ (∃ tuples, map !! own = Some tuples
         ∧ ((arrayRemoveItem (isFor np) tuples = []
             ∧ map' = delete own (alter (arrayRemoveItem (isFor np)) own map))
            ∨ (arrayRemoveItem (isFor np) tuples ≠ []
               ∧ map' = alter (arrayRemoveItem (isFor np)) own map)))).
  { unfold map', removeChildren, tuplesKey. rewrite Hbase. simpl. fold own.
    destruct (map !! own) as [tuples|] eqn:Hown; [|by left].
    right. exists tuples. split; [done|].
    rewrite lookup_alter_eq, Hown. simpl.
    destruct (arrayRemoveItem (isFor np) tuples) as [|t l] eqn:Hrem; [left|right]; done. }
  assert (Htuple : getTuple baseTypes map' parentEntityKey np = None).
  { rewrite Hget.
    destruct Hcases as [[Hown ->]|(tuples & Hown & [[Hrem ->]|[Hrem ->]])].
    - by rewrite Hown.
    - by rewrite lookup_delete_eq.
    - rewrite lookup_alter_eq, Hown. simpl.
      apply find_arrayRemoveItem. by apply (Hwf own). }
  split; [exact Htuple|]. split_and!.
  - intros w. unfold getChildren. by rewrite Htuple.
  - intros np' Hne. rewrite !Hget.
    destruct Hcases as [[Hown ->]|(tuples & Hown & [[Hrem ->]|[Hrem ->]])].
    + done.
    + rewrite lookup_delete_eq, Hown. simpl.
      by rewrite <- (find_arrayRemoveItem_ne np np' tuples Hne), Hrem.
    + rewrite lookup_alter_eq, Hown. simpl. by apply find_arrayRemoveItem_ne.
  - destruct Hcases as [[Hown ->]|(tuples & Hown & [[Hrem ->]|[Hrem ->]])].
    + by rewrite Hown.
    + by rewrite lookup_delete_eq.
    + rewrite lookup_alter_eq, Hown. simpl. congruence.
  - intros key Hne.
    destruct Hcases as [[Hown ->]|(tuples & Hown & [[Hrem ->]|[Hrem ->]])].
    + done.
    + rewrite lookup_delete_ne by done. by rewrite lookup_alter_ne.
    + by rewrite lookup_alter_ne.
Qed.

Lemma getTuples_loop_Some (map : gmap (string * list Value) (list (Tuple (NP := NP))))
    k tuples bases :
  getTuples_loop map k (Some tuples) bases = Some tuples.
Proof. by destruct bases. Qed.

Lemma getTuples_loop_skip (map : gmap (string * list Value) (list (Tuple (NP := NP))))
    k base further : ∀ nearer,
  (∀ t, t ∈ nearer → map !! EntityKey_toString k (Some t) = None) →
  getTuples_loop map k None (nearer ++ base :: further)
  = getTuples_loop map k (map !! EntityKey_toString k (Some base)) further.
Proof.
  induction nearer as [|t l IH]; intros Hnone; [done|]. simpl.
  rewrite (Hnone t) by apply list_elem_of_here.
  apply IH. intros t' Ht'. apply Hnone. by apply list_elem_of_further.
Qed.

(** X20. [getTuples] walks up the type hierarchy: when the buffer has no
    entry for a parent key as a key of its own type, nor as a key of the
    nearer base types, what is buffered for it as a key of the next base
    type is what [getTuple] searches and what [getChildren] returns. *)
Theorem getTuple_walks_up (map : gmap (string * list Value) (list (Tuple (NP := NP))))
    (parentEntityKey : EntityKey) (base : EntityType) (nearer further : list EntityType)
    (np : NP) (tuples : list (Tuple (NP := NP))) :
  baseTypes (ek_entityType parentEntityKey) = nearer ++ base :: further →
  map !! EntityKey_toString parentEntityKey None = None →
  (∀ t, t ∈ nearer → map !! EntityKey_toString parentEntityKey (Some t) = None) →
  map !! EntityKey_toString parentEntityKey (Some base) = Some tuples →
  getTuples baseTypes map parentEntityKey = Some tuples
  ∧ getTuple baseTypes map parentEntityKey np = List.find (isFor np) tuples.
Proof.
  intros Hbases Hown Hnearer Hbase.
  assert (Hts : getTuples baseTypes map parentEntityKey = Some tuples).
  { unfold getTuples. rewrite Hown, Hbases, (getTuples_loop_skip _ _ _ _ _ Hnearer), Hbase.
    apply getTuples_loop_Some. }
  split; [exact Hts|]. unfold getTuple. by rewrite Hts.
Qed.

(** X21. A child added through the key of a subtype can hide what is
    buffered under a base type.  When the only entry found for a parent key
    is one under a base type, and it has no tuple for a navigation
    property, [addChild] for that property creates an entry under the key's
    own type; from then on the tuples of the base type, which are still in
    the buffer, are no longer found through this key. *)
Theorem addChild_hides_base_entry
    (map : gmap (string * list Value) (list (Tuple (NP := NP))))
    (parentEntityKey : EntityKey) (base : EntityType) (nearer further : list EntityType)
    (np np' : NP) (child : Ref) (tuples : list (Tuple (NP := NP))) :
  baseTypes (ek_entityType parentEntityKey) = nearer ++ base :: further →
  map !! EntityKey_toString parentEntityKey None = None →
  (∀ t, t ∈ nearer → map !! EntityKey_toString parentEntityKey (Some t) = None) →
  map !! EntityKey_toString parentEntityKey (Some base) = Some tuples →
  List.find (isFor np) tuples = None →
  np' ≠ np →
  let map' := addChild baseTypes map parentEntityKey np child in
  getTuple baseTypes map parentEntityKey np' = List.find (isFor np') tuples
  ∧ map' !! EntityKey_toString parentEntityKey (Some base) = Some tuples
  ∧ getTuple baseTypes map' parentEntityKey np' = None.
Proof.
  intros Hbases Hown Hnearer Hbase Hnone Hne map'.
  assert (Hts : getTuples baseTypes map parentEntityKey = Some tuples).
  { unfold getTuples. rewrite Hown, Hbases, (getTuples_loop_skip _ _ _ _ _ Hnearer), Hbase.
    apply getTuples_loop_Some. }
  assert (Hmap' : map' = <[EntityKey_toString parentEntityKey None :=
                             [{| navigationProperty := np; children := [child] |}]]> map).
  { unfold map', addChild, getTuple. rewrite Hts. simpl. rewrite Hnone, Hown. done. }
  split_and!.
  - unfold getTuple. by rewrite Hts.
  - rewrite Hmap', lookup_insert_ne; [done|]. intros Heq. congruence.
  - unfold getTuple, getTuples. rewrite Hmap', lookup_insert_eq, getTuples_loop_Some.
    simpl. by assert (isFor np' {| navigationProperty := np; children := [child] |} = false)
      as -> by (apply isFor_false; simpl; congruence).
Qed.

End UnattachedChildrenProperties.

(** ** Export: the groups that are exported *)

Lemma lookupGroup_None name gm : lookupGroup name gm = None ↔ name ∉ gm.*1.
Proof.
  induction gm as [|[n g] gm IH]; simpl.
  - split; [intros _ ?%elem_of_nil; done|done].
  - rewrite not_elem_of_cons. case_bool_decide as Hn; split; try done.
    + intros [? _]. congruence.
    + intros ?. split; [congruence|]. by apply IH.
    + intros [_ ?]. by apply IH.
Qed.

Lemma storeGroup_names name group gm :
  (storeGroup name group gm).*1
  = if bool_decide (name ∈ gm.*1) then gm.*1 else gm.*1 ++ [name].
Proof.
  induction gm as [|[n g] gm IH].
  - cbn [storeGroup]. rewrite bool_decide_eq_false_2; [done|]. by intros ?%elem_of_nil.
  - cbn [storeGroup]. rewrite fmap_cons. cbn [fst].
    destruct (decide (n = name)) as [->|Hn].
    + rewrite (bool_decide_eq_true_2 (name = name)) by done. rewrite fmap_cons. cbn [fst].
      by rewrite bool_decide_eq_true_2 by apply list_elem_of_here.
    + rewrite (bool_decide_eq_false_2 (n = name)) by done.
      rewrite fmap_cons. cbn [fst]. rewrite IH. case_bool_decide as Hin.
      * by rewrite bool_decide_eq_true_2 by (by apply list_elem_of_further).
      * rewrite bool_decide_eq_false_2; [done|].
        intros [?|?]%elem_of_cons; [congruence|done].
Qed.

Lemma storeGroup_NoDup name group gm :
  NoDup gm.*1 → NoDup (storeGroup name group gm).*1.
Proof.
  intros Hnd. rewrite storeGroup_names. case_bool_decide as Hin; [done|].
  apply NoDup_app. split_and!; [done| |apply NoDup_singleton].
  intros x Hx ->%list_elem_of_singleton. done.
Qed.

Lemma groupForExport_spec (w : World) (entities : list Ref) :
  ∀ entityGroupMap,
    (∀ e, e ∈ entities → ∃ s, stateOf (heap w) e = Some s ∧ s ≠ Detached) →
    NoDup entityGroupMap.*1 →
    ∃ groups,
      groupForExport entities entityGroupMap w = Ok groups w
      ∧ NoDup groups.*1
      ∧ ∀ name, slotsOf name groups
                = slotsOf name entityGroupMap
                  ++ (Some <$> filter (λ e, typeNameOf w e = Some name) entities).
Proof.
  induction entities as [|e l IH]; intros acc Hstates Hnd.
  { exists acc. split_and!; try done. intros name. simpl. by rewrite app_nil_r. }
  destruct (Hstates e (list_elem_of_here _ _)) as (s & Hs & Hattached).
  unfold stateOf in Hs.
  destruct (heap w !! e) as [ent|] eqn:Hent; [|done]. simpl in Hs.
  destruct (entityAspect ent) as [a|] eqn:Ha; [|done]. simpl in Hs. injection Hs as Hs.
  rewrite <- Hs in Hattached. clear s Hs.
  simpl.
  rewrite (bind_Ok _ _ _ _ _ (getEntity_Ok _ _ _ Hent)).
  rewrite (bind_Ok _ _ _ _ _ (getAspect_Ok _ _ _ _ Hent Ha)).
  rewrite bool_decide_eq_false_2 by done.
  set (name0 := et_name (entityType ent)).
  set (group0 := default _ (lookupGroup name0 acc)).
  destruct (IH (storeGroup name0 (with_entities (_entities group0 ++ [Some e]) group0) acc))
    as (groups & Hrun & Hnd' & Hslots).
  { intros e' He'. apply Hstates. by apply list_elem_of_further. }
  { by apply storeGroup_NoDup. }
  exists groups. split; [exact Hrun|]. split; [exact Hnd'|].
  intros name. rewrite Hslots. rewrite filter_cons.
  assert (Hname : typeNameOf w e = Some name0) by (unfold typeNameOf; by rewrite Hent).
  unfold slotsOf. destruct (decide (name = name0)) as [->|Hne].
  - rewrite lookupGroup_storeGroup, decide_True by done. simpl.
    rewrite <- app_assoc. f_equal. unfold group0.
    by destruct (lookupGroup name0 acc).
  - rewrite lookupGroup_storeGroup_ne by done.
    rewrite decide_False; [done|]. rewrite Hname. congruence.
Qed.

(** X24. Handed an array of entities, [exportEntityGroups] refuses one
    that is Detached.  When none is, it builds one group per entity type
    that occurs, without touching the cache: group names are not repeated,
    and the group filed under a name holds exactly the given entities of
    that type, in the order given.  An empty array exports no group. *)
Theorem exportedGroups_of_entities (entities : list Ref) (w : World) :
  (∀ e, e ∈ entities → is_Some (aspectOf w e)) →
  (∀ e, e ∈ entities → stateOf (heap w) e = Some Detached →
        exportedGroups (ExportEntities entities) w
        = Throw "Unable to export an entity with an EntityState of 'Detached'" w)
  ∧ ((∀ e, e ∈ entities → stateOf (heap w) e ≠ Some Detached) →
     ∃ groups,
       exportedGroups (ExportEntities entities) w = Ok groups w
       ∧ NoDup groups.*1
       ∧ (∀ name, slotsOf name groups
                  = Some <$> filter (λ e, typeNameOf w e = Some name) entities)
       ∧ (entities = [] → groups = [])).
Proof.
  intros Hasp. split.
  - intros e He Hdetached.
    assert (Hgen : ∀ l acc, (∀ e', e' ∈ l → is_Some (aspectOf w e')) → e ∈ l →
              groupForExport l acc w
              = Throw "Unable to export an entity with an EntityState of 'Detached'" w).
    { induction l as [|e0 l IH]; intros acc Hl Hin; [by apply elem_of_nil in Hin|].
      destruct (Hl e0 (list_elem_of_here _ _)) as [a0 Ha0].
      apply aspectOf_inv in Ha0 as (ent0 & Hent0 & Ha0).
      simpl.
      rewrite (bind_Ok _ _ _ _ _ (getEntity_Ok _ _ _ Hent0)).
      rewrite (bind_Ok _ _ _ _ _ (getAspect_Ok _ _ _ _ Hent0 Ha0)).
      case_bool_decide as Hs; [done|].
      apply IH.
      - intros e' He'. apply Hl. by apply list_elem_of_further.
      - apply elem_of_cons in Hin as [->|Hin]; [|done].
        unfold stateOf in Hdetached. rewrite Hent0 in Hdetached. simpl in Hdetached.
        rewrite Ha0 in Hdetached. simpl in Hdetached. congruence. }
    destruct entities as [|e0 l]; [by apply elem_of_nil in He|].
    unfold exportedGroups. by apply (Hgen (e0 :: l) []).
  - intros Hattached.
    destruct entities as [|e0 l].
    { exists []. split_and!; try done. apply NoDup_nil_2. }
    destruct (groupForExport_spec w (e0 :: l) []) as (groups & Hrun & Hnd & Hslots).
    { intros e He. destruct (Hasp e He) as [a Ha].
      apply aspectOf_inv in Ha as (ent & Hent & Ha).
      exists (entityState a). split.
      - unfold stateOf. rewrite Hent. simpl. by rewrite Ha.
      - intros Hd. apply (Hattached e He).
        unfold stateOf. rewrite Hent. simpl. rewrite Ha. simpl. by rewrite Hd. }
    { apply NoDup_nil_2. }
    exists groups. split; [exact Hrun|]. split; [exact Hnd|]. split; [|done].
    intros name. by rewrite Hslots.
Qed.

Lemma groupsOfTypes_spec (groupMap : list (string * EntityGroup))
    (entityTypes : list EntityType) :
  ∀ acc,
    NoDup acc.*1 →
    NoDup (groupsOfTypes groupMap entityTypes acc).*1
    ∧ ∀ name,
        lookupGroup name (groupsOfTypes groupMap entityTypes acc)
        = if bool_decide (name ∈ et_name <$> entityTypes)
          then match lookupGroup name groupMap with
               | Some group =>
                   if bool_decide (0 < length (_entities group)) then Some group
                   else lookupGroup name acc
               | None => lookupGroup name acc
               end
          else lookupGroup name acc.
Proof.
  induction entityTypes as [|et l IH]; intros acc Hnd.
  { split; [done|]. intros name. by simpl. }
  cbn [groupsOfTypes].
  set (acc' := match lookupGroup (et_name et) groupMap with
               | Some group => if bool_decide (0 < length (_entities group))
                               then storeGroup (et_name et) group acc else acc
               | None => acc
               end).
  assert (Hnd' : NoDup acc'.*1).
  { unfold acc'. destruct (lookupGroup (et_name et) groupMap); [|done].
    case_bool_decide; [by apply storeGroup_NoDup|done]. }
  destruct (IH acc' Hnd') as [Hres Hlook]. split; [exact Hres|].
  intros name. rewrite Hlook. rewrite fmap_cons.
  assert (Hacc' : lookupGroup name acc'
                  = if bool_decide (name = et_name et)
                    then match lookupGroup name groupMap with
                         | Some group =>
                             if bool_decide (0 < length (_entities group)) then Some group
                             else lookupGroup name acc
                         | None => lookupGroup name acc
                         end
                    else lookupGroup name acc).
  { unfold acc'. case_bool_decide as Hn.
    - subst name. destruct (lookupGroup (et_name et) groupMap); [|done].
      case_bool_decide; [by rewrite lookupGroup_storeGroup|done].
    - destruct (lookupGroup (et_name et) groupMap); [|done].
      case_bool_decide; [by rewrite lookupGroup_storeGroup_ne|done]. }
  destruct (decide (name ∈ et_name <$> l)) as [Hin|Hin].
  - rewrite !bool_decide_eq_true_2 by (done || by apply list_elem_of_further).
    destruct (lookupGroup name groupMap) as [group|] eqn:Hg.
    + destruct (bool_decide (0 < length (_entities group))) eqn:Hlen; [done|].
      rewrite Hacc'. by destruct (bool_decide (name = et_name et)).
    + rewrite Hacc'. by destruct (bool_decide (name = et_name et)).
  - rewrite (bool_decide_eq_false_2 (name ∈ et_name <$> l)) by done. rewrite Hacc'.
    destruct (decide (name = et_name et)) as [->|Hne].
    + rewrite bool_decide_eq_true_2 by done.
      by rewrite bool_decide_eq_true_2 by apply list_elem_of_here.
    + rewrite bool_decide_eq_false_2 by done.
      rewrite bool_decide_eq_false_2; [done|].
      intros [?|?]%elem_of_cons; done.
Qed.

(** X25. Handed an array of entity types, [exportEntityGroups] exports the
    manager's own group of each type that has one with entities in it, and
    nothing else: a name is exported exactly when it is the name of one of
    the types and the manager files a group that is not empty under it;
    no name is exported twice, and the cache is not touched. *)
Theorem exportedGroups_of_types (entityTypes : list EntityType) (w : World) :
  ∃ groups,
    exportedGroups (ExportTypes entityTypes) w = Ok groups w
    ∧ NoDup groups.*1
    ∧ ∀ name group,
        lookupGroup name groups = Some group
        ↔ name ∈ et_name <$> entityTypes
          ∧ lookupGroup name (_entityGroupMap (em w)) = Some group
          ∧ 0 < length (_entities group).
Proof.
  destruct entityTypes as [|et l].
  { exists []. split_and!; [done|apply NoDup_nil_2|].
    intros name group. split; [done|]. by intros [?%elem_of_nil _]. }
  destruct (groupsOfTypes_spec (_entityGroupMap (em w)) (et :: l) [])
    as [Hnd Hlook]; [apply NoDup_nil_2|].
  eexists. split; [reflexivity|]. split; [exact Hnd|].
  intros name group. rewrite Hlook. simpl.
  case_bool_decide as Hin.
  - destruct (lookupGroup name (_entityGroupMap (em w))) as [g|].
    + case_bool_decide as Hlen.
      * split; [intros [= ->]; done|]. by intros (_ & [= ->] & _).
      * split; [done|]. intros (_ & [= ->] & ?). done.
    + split; [done|]. by intros (_ & ? & _).
  - split; [done|]. by intros (? & _).
Qed.

(** ** The further statements, at concrete inputs *)

Lemma getEntitiesToSave_of_list_witness :
  getEntitiesToSave (Some [0]) oneAddedCustomer = Ok [0] oneAddedCustomer.
Proof.
  etransitivity.
  - apply (getEntitiesToSave_of_list [0] oneAddedCustomer).
    intros e ->%list_elem_of_singleton. vm_compute; reflexivity.
  - vm_compute; reflexivity.
Defined.

Lemma getEntitiesToSave_rejects_foreign_witness :
  getEntitiesToSave (Some [0]) foreignWorld
  = Throw "Only entities in this entityManager may be saved" foreignWorld.
Proof.
  apply (getEntitiesToSave_rejects_foreign [0] foreignWorld 0).
  - intros e ->%list_elem_of_singleton. vm_compute. eauto.
  - apply list_elem_of_here.
  - vm_compute. discriminate.
Defined.

Lemma markIsBeingSaved_marks_witness :
  ∃ w', markIsBeingSaved [0] true oneAddedCustomer = Ok () w'
        ∧ em w' = em oneAddedCustomer.
Proof.
  destruct (markIsBeingSaved_marks [0] true oneAddedCustomer)
    as (w' & Hrun & Hem & _).
  - intros e ->%list_elem_of_singleton. vm_compute. eauto.
  - exists w'. split; [exact Hrun|exact Hem].
Defined.

Lemma saveChangesValidateOnClient_skips_deleted_witness :
  saveChangesValidateOnClient (H := plainCollaborators) [0] oneDeletedCustomer
  = Ok None oneDeletedCustomer.
Proof.
  apply (saveChangesValidateOnClient_skips_deleted (H := plainCollaborators)
           [0] oneDeletedCustomer).
  right. intros e ->%list_elem_of_singleton. vm_compute; reflexivity.
Defined.

Lemma clearServerErrors_clears_witness :
  ∃ w' published,
    clearServerErrors [0] customerWithServerError = Ok () w'
    ∧ trace w'
      = trace customerWithServerError
        ++ map (λ e, Published (ValidationErrorsChanged e)) published
    ∧ (0 ∈ published).
Proof.
  destruct (clearServerErrors_clears [0] customerWithServerError)
    as (w' & published & Hrun & _ & Htrace & Hpub & _).
  - intros e ->%list_elem_of_singleton. vm_compute. eauto.
  - exists w', published. split; [exact Hrun|]. split; [exact Htrace|].
    apply Hpub. split; [apply list_elem_of_here|]. vm_compute; reflexivity.
Defined.

Lemma updateConcurrencyProperty_by_type_witness :
  ∃ w', updateConcurrencyProperty (H := plainCollaborators) 1 0 rowVersion
          oneUnchangedCustomer = Ok () w'
        ∧ propertyOf w' 0 "rowVersion" = Some (VNum 1).
Proof.
  destruct (updateConcurrencyProperty_by_type (H := plainCollaborators) 1 0 rowVersion
              oneUnchangedCustomer unchangedCustomer unchangedAspect)
    as (w' & Hrun & Hvalue).
  - vm_compute; reflexivity.
  - reflexivity.
  - vm_compute; reflexivity.
  - exists w'. split; [exact Hrun|].
    destruct (Hvalue 0%Z) as [Hwritten _]; [reflexivity|]. exact Hwritten.
Defined.

Lemma updateConcurrencyProperty_date_witness :
  ∃ w', updateConcurrencyProperty (H := plainCollaborators) 1 0 lastModified
          oneUnchangedCustomer = Ok () w'.
Proof.
  destruct (updateConcurrencyProperty_date (H := plainCollaborators) 1 0 lastModified
              oneUnchangedCustomer unchangedCustomer unchangedAspect) as [_ Hreturns].
  - vm_compute; reflexivity.
  - reflexivity.
  - vm_compute; reflexivity.
  - reflexivity.
  - reflexivity.
  - apply (Hreturns 0); [lia|]. vm_compute. discriminate.
Defined.

Lemma _setHasChanges_recomputes_witness :
  ∃ w', _setHasChanges None oneAddedCustomer = Ok () w'
        ∧ (hasChanges None w' = true ↔ getChangesCore None w' ≠ []).
Proof.
  destruct (_setHasChanges_recomputes oneAddedCustomer) as (w' & Hrun & _ & _ & Hiff & _).
  exists w'. split; [exact Hrun|exact Hiff].
Defined.

Lemma _notifyStateChange_deferred_while_loading_witness :
  forEach [0; 0] (λ entity, _notifyStateChange entity false) loadingWithChanges
  = Ok () (with_em (with_hasChangesAction (Some 0) (em loadingWithChanges))
                   loadingWithChanges).
Proof.
  etransitivity.
  - apply (_notifyStateChange_deferred_while_loading [0; 0] loadingWithChanges);
      vm_compute; reflexivity.
  - vm_compute; reflexivity.
Defined.

Lemma findOrCreateEntityGroup_twice_witness :
  ∃ group w',
    findOrCreateEntityGroup Customer emptyWorld = Ok group w'
    ∧ group = {| eg_entityType := Customer; _entities := [] |}
    ∧ findOrCreateEntityGroup Customer w' = Ok group w'.
Proof.
  destruct (findOrCreateEntityGroup_twice Customer emptyWorld)
    as (group & w' & Hrun & _ & Hagain & Hnew & _).
  exists group, w'. split; [exact Hrun|]. split; [|exact Hagain].
  apply Hnew. vm_compute; reflexivity.
Defined.

Lemma importEntities_ends_deferral_witness :
  match importEntities (H := plainCollaborators) bundleWithTempKey None emptyWorld with
  | Ok _ w' => _pendingPubs (em w') = None ∧ _hasChangesAction (em w') = None
  | Throw _ w' => _pendingPubs (em w') = None
  | OutOfFuel => True
  end.
Proof.
  apply (importEntities_ends_deferral (H := plainCollaborators)
           bundleWithTempKey None emptyWorld).
  reflexivity.
Defined.

Lemma rejectChanges_resets_flag_witness :
  ∃ changes w',
    rejectChanges (H := plainCollaborators) oneAddedCustomer = Ok changes w'
    ∧ changes = getChangesCore None oneAddedCustomer
    ∧ _hasChanges (em w') = false.
Proof.
  destruct (rejectChanges (H := plainCollaborators) oneAddedCustomer)
    as [changes w'|message w'|] eqn:Hrun.
  - exists changes, w'. split; [reflexivity|].
    destruct (rejectChanges_resets_flag (H := plainCollaborators)
                oneAddedCustomer changes w') as (Hchanges & Hflag & _).
    + vm_compute; reflexivity.
    + exact Hrun.
    + split; [exact Hchanges|exact Hflag].
  - vm_compute in Hrun. discriminate.
  - vm_compute in Hrun. discriminate.
Defined.

Lemma attachEntity_refuses_unset_key_witness :
  ∃ message,
    attachEntity (H := plainCollaborators) 1 0 (Some Added) None oneDetachedProduct
    = Throw message oneDetachedProduct
    ∧ addEntity (H := plainCollaborators) 1 0 oneDetachedProduct
      = Throw message oneDetachedProduct.
Proof.
  eexists.
  apply (attachEntity_refuses_unset_key (H := plainCollaborators) 0 0 None
           oneDetachedProduct unsetProduct productAspect).
  - vm_compute; reflexivity.
  - reflexivity.
  - reflexivity.
  - reflexivity.
  - reflexivity.
  - reflexivity.
  - reflexivity.
  - discriminate.
  - intros kp ->%list_elem_of_singleton. vm_compute; reflexivity.
Defined.

Lemma generateTempKeyValue_sets_key_witness :
  ∃ w', generateTempKeyValue 0 oneDetachedCustomer = Ok (VNum (-1)) w'
        ∧ propertyOf w' 0 "id" = Some (VNum (-1))
        ∧ hasTempKey <$> aspectOf w' 0 = Some true.
Proof.
  destruct (generateTempKeyValue_sets_key 0 oneDetachedCustomer
              {| entityType := Customer; props := {[ "id" := VNum 1 ]};
                 entityAspect := Some new_EntityAspect |}
              new_EntityAspect
              {| dp_name := "id"; dataType := Int32; defaultValue := VNum 0 |} [])
    as (w' & Hrun & Hkey & Htemp & _).
  - vm_compute; reflexivity.
  - reflexivity.
  - reflexivity.
  - exists w'. split; [exact Hrun|]. split; [exact Hkey|exact Htemp].
Defined.


Lemma clear_empties_witness :
  ∃ w', clear (λ _, mret ()) oneAddedCustomer = Ok () w'
        ∧ _entityGroupMap (em w') = []
        ∧ _hasChanges (em w') = false.
Proof.
  destruct (clear (λ _, mret ()) oneAddedCustomer) as [[] w'|message w'|] eqn:Hrun.
  - exists w'. split; [reflexivity|].
    destruct (clear_empties (λ _, mret ()) oneAddedCustomer w' Hrun)
      as (Hgroups & Hflag & _).
    split; [exact Hgroups|exact Hflag].
  - vm_compute in Hrun. discriminate.
  - vm_compute in Hrun. discriminate.
Defined.

Lemma addChild_getChildren_witness :
  getChildren flat (addChild flat ordersOfCustomerOne customerOne "orders" 0)
              customerOne "orders" oneAddedCustomer
  = Ok (Some [0; 0]) oneAddedCustomer.
Proof.
  etransitivity.
  - apply (addChild_getChildren flat ordersOfCustomerOne customerOne "orders" 0
             oneAddedCustomer).
    intros c Hc.
    assert (c = 0) as ->.
    { change (c ∈ [0; 0]) in Hc.
      apply elem_of_cons in Hc as [->|Hc]; [done|].
      by apply list_elem_of_singleton in Hc. }
    vm_compute. eauto.
  - vm_compute; reflexivity.
Defined.

Lemma wellFormed_kept_witness :
  wellFormed (removeChildren flat
                (addChild flat (new_UnattachedChildrenMap (NP := string))
                          customerOne "orders" 0)
                customerOne "invoices").
Proof.
  destruct (wellFormed_kept (NP := string) flat) as (Hnew & Hadd & Hremove).
  apply Hremove, Hadd, Hnew.
Defined.

Lemma wellFormed_ordersOfCustomerOne : wellFormed ordersOfCustomerOne.
Proof.
  intros key tuples Hl. unfold ordersOfCustomerOne in Hl.
  apply lookup_singleton_Some in Hl as [_ <-].
  split; [apply NoDup_singleton|]. by repeat constructor.
Qed.

Lemma removeChildren_drains_witness :
  getTuple flat (removeChildren flat ordersOfCustomerOne customerOne "orders")
           customerOne "orders" = None
  ∧ removeChildren flat ordersOfCustomerOne customerOne "orders"
      !! EntityKey_toString customerOne None ≠ Some [].
Proof.
  destruct (removeChildren_drains flat ordersOfCustomerOne customerOne "orders"
              wellFormed_ordersOfCustomerOne eq_refl) as (Hnone & _ & _ & Hentry & _).
  split; [exact Hnone|exact Hentry].
Defined.

Lemma getTuple_walks_up_witness :
  getTuple personnel ordersOfPersonOne employeeOne "orders"
  = Some {| navigationProperty := "orders"; children := [0] |}.
Proof.
  etransitivity.
  - apply (getTuple_walks_up personnel ordersOfPersonOne employeeOne Person [] []
             "orders" [ {| navigationProperty := "orders"; children := [0] |} ]).
    + reflexivity.
    + vm_compute; reflexivity.
    + intros t Ht. by apply elem_of_nil in Ht.
    + vm_compute; reflexivity.
  - vm_compute; reflexivity.
Defined.

Lemma addChild_hides_base_entry_witness :
  getTuple personnel ordersOfPersonOne employeeOne "orders"
  = Some {| navigationProperty := "orders"; children := [0] |}
  ∧ getTuple personnel (addChild personnel ordersOfPersonOne employeeOne "reports" 1)
             employeeOne "orders" = None.
Proof.
  destruct (addChild_hides_base_entry personnel ordersOfPersonOne employeeOne Person [] []
              "reports" "orders" 1
              [ {| navigationProperty := "orders"; children := [0] |} ])
    as (Hbefore & _ & Hafter).
  - reflexivity.
  - vm_compute; reflexivity.
  - intros t Ht. by apply elem_of_nil in Ht.
  - vm_compute; reflexivity.
  - vm_compute; reflexivity.
  - discriminate.
  - split; [|exact Hafter]. rewrite Hbefore. vm_compute; reflexivity.
Defined.

Lemma saveChanges_marks_before_adapter_witness :
  ∃ w', saveChanges (H := plainCollaborators) 1 None None false false oneAddedCustomer
        = Ok FromAdapter w'
        ∧ last (trace w') = Some (AdapterSaveChanges [0] "SaveChanges")
        ∧ Marked 0 true w'.
Proof.
  destruct (saveChanges (H := plainCollaborators) 1 None None false false oneAddedCustomer)
    as [promise w'|message w'|] eqn:Hrun.
  - assert (promise = FromAdapter) as ->.
    { vm_compute in Hrun. by injection Hrun as <- _. }
    exists w'. split; [reflexivity|].
    destruct (saveChanges_marks_before_adapter (H := plainCollaborators)
                1 None None false false oneAddedCustomer w' Hrun)
      as (entitiesToSave & resource & Hset & _ & _ & Hlast & Hmarks).
    assert (entitiesToSave = [0]) as ->.
    { vm_compute in Hset. by injection Hset as <-. }
    split; [|apply Hmarks, list_elem_of_here].
    rewrite Hlast. vm_compute in Hrun. injection Hrun as <-.
    vm_compute in Hlast. injection Hlast as <-. reflexivity.
  - vm_compute in Hrun. discriminate.
  - vm_compute in Hrun. discriminate.
Defined.

Lemma saveChanges_takes_marks_back_witness :
  ∃ w', saveChanges (H := offlineCollaborators) 1 None None false false oneAddedCustomer
        = Ok (Rejected "NetworkError") w'
        ∧ Marked 0 false w'.
Proof.
  destruct (saveChanges (H := offlineCollaborators) 1 None None false false oneAddedCustomer)
    as [promise w'|message w'|] eqn:Hrun.
  - assert (promise = Rejected "NetworkError") as ->.
    { vm_compute in Hrun. by injection Hrun as <- _. }
    exists w'. split; [reflexivity|].
    destruct (saveChanges_takes_marks_back (H := offlineCollaborators)
                1 None None false false oneAddedCustomer w' [0] (Rejected "NetworkError"))
      as (message & Hmessage & Hcases).
    + vm_compute; reflexivity.
    + discriminate.
    + vm_compute. eauto.
    + exact Hrun.
    + injection Hmessage as <-.
      destruct Hcases as [Hc|[Hc|Hmarks]]; [discriminate|discriminate|].
      apply Hmarks, list_elem_of_here.
  - vm_compute in Hrun. discriminate.
  - vm_compute in Hrun. discriminate.
Defined.

Lemma exportedGroups_of_entities_witness :
  ∃ groups,
    exportedGroups (ExportEntities [0]) oneAddedCustomer = Ok groups oneAddedCustomer
    ∧ slotsOf "Customer" groups = [Some 0].
Proof.
  destruct (exportedGroups_of_entities [0] oneAddedCustomer) as [_ Hgroups].
  - intros e ->%list_elem_of_singleton. vm_compute. eauto.
  - destruct Hgroups as (groups & Hrun & _ & Hslots & _).
    + intros e ->%list_elem_of_singleton. vm_compute. discriminate.
    + exists groups. split; [exact Hrun|]. rewrite Hslots. vm_compute; reflexivity.
Defined.

Lemma exportedGroups_of_types_witness :
  ∃ groups,
    exportedGroups (ExportTypes [Customer; Product]) oneAddedCustomer
    = Ok groups oneAddedCustomer
    ∧ lookupGroup "Product" groups = None.
Proof.
  destruct (exportedGroups_of_types [Customer; Product] oneAddedCustomer)
    as (groups & Hrun & _ & Hlook).
  exists groups. split; [exact Hrun|].
  destruct (lookupGroup "Product" groups) as [group|] eqn:Hl; [|done].
  apply Hlook in Hl as (_ & Hcached & _). vm_compute in Hcached. discriminate.
Defined.

Lemma getChanges_of_types_witness :
  getChangesCore (Some [Product]) oneAddedCustomer = []
  ∧ hasChanges None oneAddedCustomer = true.
Proof.
  destruct (getChanges_of_types [Product] oneAddedCustomer) as (_ & Hnone & _).
  destruct (getChanges_of_types [Customer] oneAddedCustomer) as (_ & _ & Hflag).
  split.
  - apply Hnone. intros et ->%list_elem_of_singleton. vm_compute; reflexivity.
  - apply Hflag. vm_compute; reflexivity.
Defined.
